(** * Nuitka [nuitka/utils/FileOperations.py]: file and directory helpers

    A shallow embedding of the helper module and the properties of its
    functions.  The module is glue over three collaborators that live outside
    of it: the path arithmetic of [os.path], the file system calls of [os] and
    [shutil], and the lock of [ThreadedExecutor].  Each of them is modelled
    below, before the functions of the module itself:

    - [posixpath]: the POSIX flavour of [os.path], a transcription of the
      pure string functions of the Python library;
    - [World]: a file system keyed by path strings, its volumes, the global
      [file_lock] and a trace of the system calls made so far;
    - [M]: the monad of the module's effectful code, a state monad over
      [World] whose computations return, raise [OSError] or block. *)

From Stdlib Require Import String Ascii List Bool Arith NArith Lia.
From stdpp Require Import base option list gmap strings fin_maps sorting.

(** ** Strings the way Python slices them *)

Module Str.

Definition is_empty (s : string) : bool :=
  match s with EmptyString => true | String _ _ => false end.

(** [s.startswith(c)] and [s.endswith(c)] for a single character. *)
Definition startswith (c : ascii) (s : string) : bool :=
  match s with EmptyString => false | String a _ => Ascii.eqb a c end.

Fixpoint endswith (c : ascii) (s : string) : bool :=
  match s with
  | EmptyString => false
  | String a EmptyString => Ascii.eqb a c
  | String _ s' => endswith c s'
  end.

(** [s == c * len(s)] *)
Fixpoint all_char (c : ascii) (s : string) : bool :=
  match s with
  | EmptyString => true
  | String a s' => Ascii.eqb a c && all_char c s'
  end.

(** [c * n] *)
Fixpoint replicate (n : nat) (c : ascii) : string :=
  match n with O => EmptyString | S n' => String c (replicate n' c) end.

(** [s.rstrip(c)] *)
Fixpoint rstrip (c : ascii) (s : string) : string :=
  match s with
  | EmptyString => EmptyString
  | String a s' =>
      let r := rstrip c s' in
      if is_empty r && Ascii.eqb a c then EmptyString else String a r
  end.

(** [(s[:i], s[i:])] for [i = s.rfind(c) + 1]: the cut after the last [c],
    and before the first character when [c] does not occur. *)
Fixpoint rcut (c : ascii) (s : string) : string * string :=
  match s with
  | EmptyString => (EmptyString, EmptyString)
  | String a s' =>
      let (h, t) := rcut c s' in
      if is_empty h
      then (if Ascii.eqb a c then (String a EmptyString, t)
            else (EmptyString, String a t))
      else (String a h, t)
  end.

(** [s.split(c)]: never the empty list. *)
Fixpoint split (c : ascii) (s : string) : list string :=
  match s with
  | EmptyString => [EmptyString]
  | String a s' =>
      if Ascii.eqb a c then EmptyString :: split c s'
      else match split c s' with
           | [] => [String a EmptyString]
           | w :: ws => String a w :: ws
           end
  end.

(** [s[len(p):]] when [s.startswith(p)] *)
Fixpoint strip_prefix (p s : string) : option string :=
  match p, s with
  | EmptyString, _ => Some s
  | String a p', String b s' =>
      if Ascii.eqb a b then strip_prefix p' s' else None
  | String _ _, EmptyString => None
  end.

(** [c in s] *)
Fixpoint contains (c : ascii) (s : string) : bool :=
  match s with
  | EmptyString => false
  | String a s' => Ascii.eqb a c || contains c s'
  end.

(** [c.join(l)] *)
Fixpoint join (c : ascii) (l : list string) : string :=
  match l with
  | [] => EmptyString
  | [w] => w
  | w :: ws => w +:+ String c (join c ws)
  end.

(** [s.replace(a, b)] for single characters, and [s.lower()] on ASCII
    letters. *)
Fixpoint map (f : ascii -> ascii) (s : string) : string :=
  match s with
  | EmptyString => EmptyString
  | String a s' => String (f a) (map f s')
  end.

Definition replace_char (a b c : ascii) : ascii :=
  if Ascii.eqb c a then b else c.

Definition lower_char (c : ascii) : ascii :=
  let n := nat_of_ascii c in
  if (65 <=? n) && (n <=? 90) then ascii_of_nat (n + 32) else c.

Definition lower (s : string) : string := map lower_char s.

(** [s.rfind(c)]: the index of the last [c], [-1] when there is none. *)
Fixpoint rfind_from (i : Z) (c : ascii) (s : string) : Z :=
  match s with
  | EmptyString => (-1)%Z
  | String a s' =>
      let r := rfind_from (i + 1) c s' in
      if (0 <=? r)%Z then r else if Ascii.eqb a c then i else (-1)%Z
  end.

Definition rfind (c : ascii) (s : string) : Z := rfind_from 0 c s.

(** [s[:n]] and [s[n:]] *)
Fixpoint take (n : nat) (s : string) : string :=
  match n, s with
  | S n', String a s' => String a (take n' s')
  | _, _ => EmptyString
  end.

Fixpoint drop (n : nat) (s : string) : string :=
  match n, s with
  | S n', String _ s' => drop n' s'
  | _, _ => s
  end.

End Str.

(** ** [genericpath._splitext]

    The cut before the last [extsep] of the last component, when something
    other than [extsep] stands before it in that component. *)

Module genericpath.

(** The [while] loop: is one of the [steps] characters from [filenameIndex]
    on another one than [extsep]? *)
Fixpoint has_stem (steps : nat) (p : string) (extsep : ascii)
    (filenameIndex : Z) : bool :=
  match steps with
  | O => false
  | S steps' =>
      match String.get (Z.to_nat filenameIndex) p with
      | Some c =>
          if Ascii.eqb c extsep
          then has_stem steps' p extsep (filenameIndex + 1)
          else true
      | None => true
      end
  end.

Definition _splitext (p : string) (sep : ascii) (altsep : option ascii)
    (extsep : ascii) : string * string :=
  let sepIndex := Str.rfind sep p in
  let sepIndex :=
    match altsep with
    | Some a => Z.max sepIndex (Str.rfind a p)
    | None => sepIndex
    end in
  let dotIndex := Str.rfind extsep p in
  if (sepIndex <? dotIndex)%Z &&
     has_stem (Z.to_nat (dotIndex - (sepIndex + 1))) p extsep (sepIndex + 1)
  then (Str.take (Z.to_nat dotIndex) p, Str.drop (Z.to_nat dotIndex) p)
  else (p, EmptyString).

End genericpath.

(** ** [os.path] on POSIX

    [posixpath] of the Python library, function by function.  [abspath] takes
    the directory that [os.getcwd()] returns as its first argument. *)

Module posixpath.

Definition sep : ascii := "/"%char.

Definition normcase (s : string) : string := s.

Definition isabs (s : string) : bool := Str.startswith sep s.

(** [join(a, b)]: one step of the loop of [join(a, *p)]. *)
Definition join (a b : string) : string :=
  if Str.startswith sep b then b
  else if Str.is_empty a || Str.endswith sep a then a +:+ b
  else a +:+ String sep b.

(** [join] applied to a sequence of components: Python demands the first
    argument, a call without any is a [TypeError]. *)
Definition join_all (l : list string) : option string :=
  match l with
  | [] => None
  | a :: p => Some (fold_left join p a)
  end.

Definition split (p : string) : string * string :=
  let (head, tail) := Str.rcut sep p in
  (if negb (Str.is_empty head) && negb (Str.all_char sep head)
   then Str.rstrip sep head else head,
   tail).

(** The number Python keeps in [initial_slashes]: [False], [True] or [2]. *)
Definition initial_slashes (path : string) : nat :=
  match path with
  | String a (String b (String c _)) =>
      if Ascii.eqb a sep
      then (if Ascii.eqb b sep && negb (Ascii.eqb c sep) then 2 else 1)
      else 0
  | String a (String b EmptyString) =>
      if Ascii.eqb a sep then (if Ascii.eqb b sep then 2 else 1) else 0
  | String a EmptyString => if Ascii.eqb a sep then 1 else 0
  | EmptyString => 0
  end.

Definition is_nil {A} (l : list A) : bool :=
  match l with [] => true | _ => false end.

(** The body of the loop [for comp in comps] of [normpath]. *)
Definition norm_step (initial : nat) (new_comps : list string)
    (comp : string) : list string :=
  if String.eqb comp "" || String.eqb comp "." then new_comps
  else if negb (String.eqb comp "..")
          || (Nat.eqb initial 0 && is_nil new_comps)
          || (negb (is_nil new_comps)
              && String.eqb (List.last new_comps "") "..")
  then new_comps ++ [comp]
  else if negb (is_nil new_comps) then removelast new_comps
  else new_comps.

Definition normpath (path : string) : string :=
  if Str.is_empty path then "."
  else
    let initial := initial_slashes path in
    let comps := fold_left (norm_step initial) (Str.split sep path) [] in
    let path := Str.join sep comps in
    let path := if Nat.eqb initial 0 then path
                else Str.replicate initial sep +:+ path in
    if Str.is_empty path then "." else path.

Definition abspath (cwd path : string) : string :=
  normpath (if isabs path then path else join cwd path).

Definition extsep : ascii := "."%char.

Definition splitext (p : string) : string * string :=
  genericpath._splitext p sep None extsep.

Definition curdir : string := ".".
Definition pardir : string := "..".

(** [genericpath.commonprefix] of two lists. *)
Fixpoint commonprefix (l1 l2 : list string) : list string :=
  match l1, l2 with
  | a :: l1', b :: l2' =>
      if String.eqb a b then a :: commonprefix l1' l2' else []
  | _, _ => []
  end.

(** [relpath(path)], from the directory [os.getcwd()] returns; [None] is
    the [ValueError] for an empty path. *)
Definition relpath (cwd path : string) : option string :=
  if Str.is_empty path then None
  else
    let start_list :=
      List.filter (fun x => negb (Str.is_empty x))
        (Str.split sep (abspath cwd curdir)) in
    let path_list :=
      List.filter (fun x => negb (Str.is_empty x))
        (Str.split sep (abspath cwd path)) in
    let i := length (commonprefix start_list path_list) in
    let rel_list :=
      repeat pardir (length start_list - i) ++ skipn i path_list in
    if is_nil rel_list then Some curdir else join_all rel_list.

End posixpath.

(** ** [os.path] on Windows

    Of [ntpath] only [normcase] is a function of the string alone; [normpath]
    and [abspath] go through the Windows API and stay parameters of the
    platform. *)

Module ntpath.

Definition sep : ascii := "\"%char.
Definition altsep : ascii := "/"%char.

Definition normcase (s : string) : string :=
  Str.lower (Str.map (Str.replace_char altsep sep) s).

Definition extsep : ascii := "."%char.

Definition splitext (p : string) : string * string :=
  genericpath._splitext p sep (Some altsep) extsep.

End ntpath.

(** ** The functions of the module that are pure string arithmetic

    [os.path] is chosen by the platform when Python starts; the functions take
    it as a record: [posix] is the one of Linux and macOS, [windows] the one
    of Windows over its parameters. *)

Record os_path := {
  path_split : string -> string * string;
  path_join_all : list string -> option string;
  path_normpath : string -> string;
  path_abspath : string -> string -> string;
  path_normcase : string -> string
}.

Definition posix : os_path := {|
  path_split := posixpath.split;
  path_join_all := posixpath.join_all;
  path_normpath := posixpath.normpath;
  path_abspath := posixpath.abspath;
  path_normcase := posixpath.normcase
|}.

Section Windows.
Variable nt_split : string -> string * string.
Variable nt_join_all : list string -> option string.
Variable nt_normpath : string -> string.
Variable nt_abspath : string -> string -> string.

Definition windows : os_path := {|
  path_split := nt_split;
  path_join_all := nt_join_all;
  path_normpath := nt_normpath;
  path_abspath := nt_abspath;
  path_normcase := ntpath.normcase
|}.
End Windows.

(** [areSamePaths]; [cwd] is what [os.getcwd()] returns inside [abspath]. *)
Definition areSamePaths (os : os_path) (cwd : string) (path1 path2 : string)
    : bool :=
  let path1 :=
    path_normcase os (path_abspath os cwd (path_normpath os path1)) in
  let path2 :=
    path_normcase os (path_abspath os cwd (path_normpath os path2)) in
  String.eqb path1 path2.

(** [splitPath]: the tuple is a list. *)
Definition splitPath (os : os_path) (path : string) : list string :=
  let (head, tail) := path_split os path in
  List.filter (fun element => negb (Str.is_empty element)) [head; tail].

(** [relpath]: [os.path.relpath], [os.path.abspath] and the answer of
    [getOS() == "Windows"] are those of the platform; [None] is a
    [ValueError] that leaves the function. *)
Module FileOperations.
Section Relpath.
Variable is_windows : bool.
Variable os_path_relpath : string -> option string.
Variable os_path_abspath : string -> string.

Definition relpath (path : string) : option string :=
  match os_path_relpath path with
  | Some relative => Some relative
  | None => if is_windows then Some (os_path_abspath path) else None
  end.
End Relpath.
End FileOperations.

(** ** The file system, the lock and the trace

    The file system maps a path string to the entry it names; the children of
    a directory [d] are the entries whose key is [posixpath.join d name].  An
    entry carries its permission bits, its bytes, whether the process owns it
    and [n_busy], the number of coming attempts to delete or move it that fail
    because another program (a scanner, an indexer) has it open. *)

Inductive kind := RegularFile | Directory.

Record node := mkNode {
  n_kind : kind;
  n_mode : N;
  n_data : string;
  n_owned : bool;
  n_busy : nat
}.

Inductive errno :=
  | ENOENT      (* NotFound *)
  | ENOTDIR     (* NotADirectory *)
  | EISDIR      (* NotAFile *)
  | EPERM       (* PermissionDenied *)
  | EXDEV       (* CrossVolume *)
  | EBUSY       (* TransientLock *)
  | EEXIST
  | ENOTEMPTY
  | EINVAL.

(** [OSError(errno, filename)], and the [RuntimeError] of [Lock.release] on
    a lock nobody holds: the one exception here that [except OSError] lets
    through. *)
Inductive exn :=
  | OSError (code : errno) (filename : string)
  | RuntimeError.

Inductive platform := Linux | Darwin | Windows.

(** The calls that reach the operating system, in the order they are made. *)
Inductive call :=
  | Stat (p : string)
  | Lstat (p : string)
  | Listdir (p : string)
  | Unlink (p : string)
  | Rmdir (p : string)
  | Mkdir (p : string)
  | Rename (src dst : string)
  | Copyfile (src dst : string)
  | Chmod (p : string) (mode : N)
  | Sleep (milliseconds : N)
  | LockNew
  | LockAcquire
  | LockRelease.

Record World := mkWorld {
  fs : gmap string node;
  mounts : list string;           (* the directories other volumes hang on *)
  os_name : platform;
  file_lock : option bool;        (* [None], or the lock: is it held? *)
  trace : list call
}.

Definition set_fs (f : gmap string node) (w : World) : World :=
  mkWorld f (mounts w) (os_name w) (file_lock w) (trace w).
Definition set_lock (l : option bool) (w : World) : World :=
  mkWorld (fs w) (mounts w) (os_name w) l (trace w).
Definition add_call (c : call) (w : World) : World :=
  mkWorld (fs w) (mounts w) (os_name w) (file_lock w) (trace w ++ [c]).

(** ** The monad of the effectful code *)

Inductive outcome (A : Type) :=
  | Ok (a : A)
  | Raise (e : exn)
  | Blocked          (* waits for ever for a lock that is never released *)
  | Unfinished.      (* the recursion bound of the model was reached *)
Arguments Ok {A} a.
Arguments Raise {A} e.
Arguments Blocked {A}.
Arguments Unfinished {A}.

Definition M (A : Type) : Type := World -> outcome A * World.

Definition ret {A} (a : A) : M A := fun w => (Ok a, w).
Definition raise {A} (e : exn) : M A := fun w => (Raise e, w).
Definition bind {A B} (m : M A) (k : A -> M B) : M B :=
  fun w =>
    match m w with
    | (Ok a, w') => k a w'
    | (Raise e, w') => (Raise e, w')
    | (Blocked, w') => (Blocked, w')
    | (Unfinished, w') => (Unfinished, w')
    end.

#[global] Instance M_ret : MRet M := @ret.
#[global] Instance M_bind : MBind M := fun A B k m => bind m k.

Definition get {A} (f : World -> A) : M A := fun w => (Ok (f w), w).
Definition modify (f : World -> World) : M unit := fun w => (Ok tt, f w).
Definition log (c : call) : M unit := modify (add_call c).
Definition when (b : bool) (m : M unit) : M unit := if b then m else ret tt.

(** [try: m  except OSError: h] *)
Definition try_OSError {A} (m : M A) (h : exn -> M A) : M A :=
  fun w =>
    match m w with
    | (Raise (OSError c f), w') => h (OSError c f) w'
    | r => r
    end.

(** [for x in l: body x] *)
Fixpoint for_each {A} (l : list A) (body : A -> M unit) : M unit :=
  match l with
  | [] => ret tt
  | x :: l' => body x ;; for_each l' body
  end.

(** A generator function with a single [yield] that no [try] encloses, and
    [with contextmanager(g)(): body].  [__enter__] runs the generator up to
    the [yield]; when the body returns, [__exit__] resumes it after the
    [yield]; when the body raises, [__exit__] throws the exception into the
    generator at the [yield], and the exception leaves the generator from
    there: what follows the [yield] is not run. *)
Record generator := {
  before_yield : M unit;
  after_yield : M unit
}.

Definition contextmanager {A} (g : generator) (body : M A) : M A :=
  before_yield g ;;
  ((fun w =>
      match body w with
      | (Ok a, w') => (after_yield g ;; ret a) w'
      | r => r
      end) : M A).

(** ** The lock

    [Lock] is imported from [nuitka.utils.ThreadedExecutor], a module of
    the repository that is not part of this file. *)

(** Modelled from the spec: [Lock()] of [ThreadedExecutor], "a single
    mutual-exclusion primitive, created once (first access)": a new lock
    that nobody holds. *)
Definition Lock_new : M unit :=
  log LockNew ;; modify (set_lock (Some false)).

(** Modelled from the spec: [Lock.acquire] of [ThreadedExecutor], mutual
    exclusion: the call returns with the lock held, and waits as long as
    the lock is held already, also when the holder is the caller. *)
Definition Lock_acquire : M unit :=
  fun w =>
    match file_lock w with
    | Some false => (Ok tt, set_lock (Some true) (add_call LockAcquire w))
    | Some true => (Blocked, w)
    | None => (Raise RuntimeError, w)
    end.

(** Modelled from the spec: [Lock.release] of [ThreadedExecutor]: the lock
    is free again; releasing a lock that is not held is an error. *)
Definition Lock_release : M unit :=
  fun w =>
    match file_lock w with
    | Some true => (Ok tt, set_lock (Some false) (add_call LockRelease w))
    | _ => (Raise RuntimeError, w)
    end.

(** ** The calls of [os], [os.path], [shutil] and [time] *)

(** What a key starts with when it names something inside directory [d]. *)
Definition dir_prefix (d : string) : string :=
  if Str.is_empty d || Str.endswith posixpath.sep d then d else d +:+ "/".

(** [Some name] when [k] is [posixpath.join d name] for a file name. *)
Definition child_name (d k : string) : option string :=
  match Str.strip_prefix (dir_prefix d) k with
  | Some name =>
      if negb (Str.is_empty name) && negb (Str.contains posixpath.sep name)
      then Some name else None
  | None => None
  end.

Definition children (d : string) (f : gmap string node) : list string :=
  omap (fun kv : string * node => child_name d kv.1) (map_to_list f).

(** [k] is [d] or lies somewhere below it. *)
Definition under (d k : string) : bool :=
  String.eqb k d ||
  match Str.strip_prefix (dir_prefix d) k with
  | Some _ => true
  | None => false
  end.

Definition max_key_length (f : gmap string node) : nat :=
  foldr Nat.max 0
    ((fun kv : string * node => String.length kv.1) <$> map_to_list f).

(** The volume of a path: the longest mount point it lies under, the root
    volume [""] when there is none. *)
Definition volume_of (ms : list string) (p : string) : string :=
  fold_left
    (fun best m =>
       if under m p && (String.length best <? String.length m)%nat
       then m else best)
    ms "".

Definition S_IFMT : N := 61440.    (* 0o170000 *)
Definition S_IFDIR : N := 16384.   (* 0o040000 *)
Definition S_IFREG : N := 32768.   (* 0o100000 *)
Definition PERM_BITS : N := 4095.  (* 0o7777 *)

Definition S_ISDIR (mode : N) : bool := N.eqb (N.land mode S_IFMT) S_IFDIR.

Definition st_mode (n : node) : N :=
  N.lor (match n_kind n with Directory => S_IFDIR | RegularFile => S_IFREG end)
        (N.land (n_mode n) PERM_BITS).

Definition set_busy (b : nat) (n : node) : node :=
  mkNode (n_kind n) (n_mode n) (n_data n) (n_owned n) b.
Definition set_mode (m : N) (n : node) : node :=
  mkNode (n_kind n) m (n_data n) (n_owned n) (n_busy n).
Definition set_data (d : string) (n : node) : node :=
  mkNode (n_kind n) (n_mode n) d (n_owned n) (n_busy n).

Definition is_dir (n : node) : bool :=
  match n_kind n with Directory => true | RegularFile => false end.

Definition lookup_node (p : string) : M node :=
  fun w =>
    match fs w !! p with
    | Some n => (Ok n, w)
    | None => (Raise (OSError ENOENT p), w)
    end.

Definition update_fs (f : gmap string node -> gmap string node) : M unit :=
  modify (fun w => set_fs (f (fs w)) w).

(** An attempt to delete or move an entry that another program has open
    fails, and uses up one of the failures the entry has in store. *)
Definition touch_busy (p : string) (n : node) : M unit :=
  match n_busy n with
  | O => ret tt
  | S b => update_fs (insert p (set_busy b n)) ;; raise (OSError EBUSY p)
  end.

(** The directory an entry is created in has to be there. *)
Definition check_parent (p : string) : M unit :=
  let head := (posixpath.split p).1 in
  if Str.is_empty head then ret tt
  else fun w =>
    match fs w !! head with
    | None => (Raise (OSError ENOENT p), w)
    | Some d => if is_dir d then (Ok tt, w) else (Raise (OSError ENOTDIR p), w)
    end.

Definition os_path_exists (p : string) : M bool :=
  get (fun w => match fs w !! p with Some _ => true | None => false end).
Definition os_path_isdir (p : string) : M bool :=
  get (fun w => match fs w !! p with Some n => is_dir n | None => false end).
Definition os_path_isfile (p : string) : M bool :=
  get (fun w =>
         match fs w !! p with Some n => negb (is_dir n) | None => false end).

Definition os_stat (p : string) : M N :=
  log (Stat p) ;; n ← lookup_node p; ret (st_mode n).
Definition os_lstat (p : string) : M N :=
  log (Lstat p) ;; n ← lookup_node p; ret (st_mode n).

Definition os_listdir (p : string) : M (list string) :=
  log (Listdir p) ;;
  n ← lookup_node p;
  if is_dir n then get (fun w => children p (fs w))
  else raise (OSError ENOTDIR p).

Definition os_unlink (p : string) : M unit :=
  log (Unlink p) ;;
  n ← lookup_node p;
  if is_dir n then raise (OSError EISDIR p)
  else touch_busy p n ;; update_fs (delete p).

Definition os_remove : string -> M unit := os_unlink.

Definition os_rmdir (p : string) : M unit :=
  log (Rmdir p) ;;
  n ← lookup_node p;
  if negb (is_dir n) then raise (OSError ENOTDIR p)
  else
    names ← get (fun w => children p (fs w));
    if negb (posixpath.is_nil names) then raise (OSError ENOTEMPTY p)
    else touch_busy p n ;; update_fs (delete p).

Definition new_directory : node := mkNode Directory 493 "" true 0.  (* 0o755 *)
Definition new_file (data : string) : node :=
  mkNode RegularFile 420 data true 0.                               (* 0o644 *)

Definition os_mkdir (p : string) : M unit :=
  log (Mkdir p) ;;
  e ← os_path_exists p;
  if (e : bool) then raise (OSError EEXIST p)
  else check_parent p ;; update_fs (insert p new_directory).

Fixpoint makedirs_fuel (fuel : nat) (name : string) : M unit :=
  match fuel with
  | O => fun w => (Unfinished, w)
  | S fuel' =>
      let (head, tail) := posixpath.split name in
      let (head, tail) :=
        if Str.is_empty tail then posixpath.split head else (head, tail) in
      e ← os_path_exists head;
      if negb (Str.is_empty head) && negb (Str.is_empty tail) && negb e
      then
        try_OSError (makedirs_fuel fuel' head)
          (fun ex => match ex with
                     | OSError EEXIST _ => ret tt
                     | _ => raise ex
                     end) ;;
        if String.eqb tail "." then ret tt else os_mkdir name
      else os_mkdir name
  end.

Definition os_makedirs (name : string) : M unit :=
  makedirs_fuel (S (String.length name)) name.

(** The file system after [src], an entry [n], and all that lies below it
    has moved to [dst]. *)
Definition moved (src dst : string) (f : gmap string node)
    : list (string * node) :=
  omap (fun kv : string * node =>
          match Str.strip_prefix (dir_prefix src) kv.1 with
          | Some rest => Some (dir_prefix dst +:+ rest, kv.2)
          | None => None
          end)
       (map_to_list f).

Definition rename_fs (src dst : string) (n : node) (f : gmap string node)
    : gmap string node :=
  <[dst := n]>
    (list_to_map (moved src dst f) ∪
     filter (fun kv : string * node =>
               under src kv.1 = false ∧ under dst kv.1 = false) f).

Definition os_rename (src dst : string) : M unit :=
  log (Rename src dst) ;;
  n ← lookup_node src;
  if String.eqb src dst then ret tt
  else
    w ← get id;
    if negb (String.eqb (volume_of (mounts w) src) (volume_of (mounts w) dst))
    then raise (OSError EXDEV dst)
    else if under src dst then raise (OSError EINVAL dst)
    else if under dst src then raise (OSError ENOTEMPTY dst)
    else
      touch_busy src n ;;
      match fs w !! dst with
      | Some d =>
          match os_name w with
          | Windows => raise (OSError EEXIST dst)
          | _ =>
              if negb (is_dir n) && is_dir d then raise (OSError EISDIR dst)
              else if is_dir n && negb (is_dir d)
              then raise (OSError ENOTDIR dst)
              else if negb (posixpath.is_nil (children dst (fs w)))
              then raise (OSError ENOTEMPTY dst)
              else update_fs (rename_fs src dst n)
          end
      | None => check_parent dst ;; update_fs (rename_fs src dst n)
      end.

Definition shutil_copyfile (src dst : string) : M unit :=
  log (Copyfile src dst) ;;
  if String.eqb src dst then raise (OSError EINVAL src)
  else
    n ← lookup_node src;
    if is_dir n then raise (OSError EISDIR src)
    else
      w ← get id;
      match fs w !! dst with
      | Some d =>
          if is_dir d then raise (OSError EISDIR dst)
          else update_fs (insert dst (set_data (n_data n) d))
      | None =>
          check_parent dst ;; update_fs (insert dst (new_file (n_data n)))
      end.

Definition os_chmod (p : string) (mode : N) : M unit :=
  log (Chmod p mode) ;;
  n ← lookup_node p;
  if n_owned n then update_fs (insert p (set_mode (N.land mode PERM_BITS) n))
  else raise (OSError EPERM p).

Definition time_sleep (milliseconds : N) : M unit := log (Sleep milliseconds).

(** ** [shutil.rmtree]

    The portable implementation of the library.  The file system of the model
    has no symbolic links, so the test that refuses one at the start is left
    out.  [onerror] receives the failed function, its argument and the
    exception. *)

Definition handler : Type := (string -> M unit) -> string -> exn -> M unit.

Definition listdir_ (p : string) : M unit := os_listdir p ;; ret tt.

Fixpoint rmtree_walk (fuel : nat) (path : string) (onerror : handler)
    : M unit :=
  match fuel with
  | O => fun w => (Unfinished, w)
  | S fuel' =>
      names ← try_OSError (os_listdir path)
                (fun e => onerror listdir_ path e ;; ret []);
      for_each names (fun name =>
        let fullname := posixpath.join path name in
        mode ← try_OSError (os_lstat fullname) (fun _ => ret 0%N);
        if S_ISDIR mode then rmtree_walk fuel' fullname onerror
        else try_OSError (os_remove fullname) (onerror os_remove fullname)) ;;
      try_OSError (os_rmdir path) (onerror os_rmdir path)
  end.

Definition ignore_handler : handler := fun _ _ _ => ret tt.
Definition reraise_handler : handler := fun _ _ e => raise e.

Definition shutil_rmtree (path : string) (ignore_errors : bool)
    (onerror : option handler) : M unit :=
  let onerror :=
    if ignore_errors then ignore_handler
    else match onerror with Some h => h | None => reraise_handler end in
  fun w => rmtree_walk (S (max_key_length (fs w))) path onerror w.

(** ** [os.walk]

    Top down, without [onerror] and without following links: a directory
    that cannot be read yields nothing.  [os.scandir] gives each name with
    what [entry.is_dir()] answers. *)

Definition walk_entry : Type := string * list string * list string.

Definition os_scandir (p : string) : M (list (string * bool)) :=
  names ← os_listdir p;
  f ← get fs;
  ret ((fun name =>
          (name, match f !! posixpath.join p name with
                 | Some n => is_dir n
                 | None => false
                 end)) <$> names).

(** [for x in l: yield from f x] *)
Fixpoint yield_from {A B} (l : list A) (f : A -> M (list B)) : M (list B) :=
  match l with
  | [] => ret []
  | x :: l' => ys ← f x; zs ← yield_from l' f; ret (ys ++ zs)
  end.

Fixpoint walk_fuel (fuel : nat) (top : string) : M (list walk_entry) :=
  match fuel with
  | O => fun w => (Unfinished, w)
  | S fuel' =>
      scan ← try_OSError (entries ← os_scandir top; ret (Some entries))
                (fun _ => ret None);
      match scan with
      | None => ret []
      | Some entries =>
          let dirs := fst <$> List.filter snd entries in
          let nondirs :=
            fst <$> List.filter (fun entry => negb entry.2) entries in
          rest ← yield_from dirs
                   (fun dirname =>
                      walk_fuel fuel' (posixpath.join top dirname));
          ret ((top, dirs, nondirs) :: rest)
      end
  end.

Definition os_walk (top : string) : M (list walk_entry) :=
  fun w => walk_fuel (S (max_key_length (fs w))) top w.

(** ** [sorted] on tuples of two strings

    Python compares tuples item by item and strings character by character;
    the order is total and antisymmetric, so the result of [sorted] does not
    depend on the algorithm. *)

Definition tuple_leb (a b : string * string) : bool :=
  String.ltb a.1 b.1 || (String.eqb a.1 b.1 && String.leb a.2 b.2).

Definition tuple_le (a b : string * string) : Prop := tuple_leb a b = true.

#[global] Instance tuple_le_dec : RelDecision tuple_le.
Proof. intros a b. unfold tuple_le. apply _. Defined.

Definition sorted (l : list (string * string)) : list (string * string) :=
  merge_sort tuple_le l.

(** ** The functions of the module that touch the file system *)

(** The generator under [@contextmanager]: the lock is made on first use and
    taken before the [yield], and released after it; no [try] around the
    [yield]. *)
Definition _with_file_Lock : generator := {|
  before_yield :=
    l ← get file_lock;
    when (match l with None => true | Some _ => false end) Lock_new ;;
    Lock_acquire;
  after_yield :=
    l ← get file_lock;
    when (match l with None => false | Some _ => true end) Lock_release
|}.

(** Create a directory if it does not exist. *)
Definition makePath (path : string) : M unit :=
  contextmanager _with_file_Lock
    (d ← os_path_isdir path;
     when (negb d) (os_makedirs path)).

(** The sorted pairs of path and base file name of a directory. *)
Definition listDir (path : string) : M (list (string * string)) :=
  filenames ← os_listdir path;
  ret (sorted ((fun filename => (posixpath.join path filename, filename))
                 <$> filenames)).

(** [must_exist or os.path.isfile(path)]: [isfile] is not asked when
    [must_exist] is set. *)
Definition deleteFile (path : string) (must_exist : bool) : M unit :=
  contextmanager _with_file_Lock
    (b ← (if must_exist then ret true else os_path_isfile path);
     when b (os_unlink path)).

(** The handler [removeDirectory] gives to [rmtree]: [func(path)] in a
    [try] whose [except OSError] sleeps a tenth of a second, then
    [func(path)] once more. *)
Definition onError (func : string -> M unit) (path : string) (exc_info : exn)
    : M unit :=
  try_OSError (func path) (fun _ => time_sleep 100) ;;
  func path.

(** Remove a directory recursively. *)
Definition removeDirectory (path : string) (ignore_errors : bool) : M unit :=
  contextmanager _with_file_Lock
    (e ← os_path_exists path;
     when e
       (try_OSError (shutil_rmtree path false (Some onError))
          (fun ex =>
             if ignore_errors then shutil_rmtree path ignore_errors None
             else raise ex))).

(** Rename, or copy and delete, and give the destination the mode of the
    source. *)
Definition renameFile (source_filename dest_filename : string) : M unit :=
  old_stat ← os_stat source_filename;
  try_OSError (os_rename source_filename dest_filename)
    (fun _ =>
       shutil_copyfile source_filename dest_filename ;;
       os_unlink source_filename) ;;
  os_chmod dest_filename old_stat.

(** ** The extension of a path, and the walks *)

(** [hasFilenameExtension]: [os.path] is [ntpath] on Windows and [posixpath]
    on the other platforms; [extensions] is a tuple or a list of strings. *)
Definition hasFilenameExtension (os : platform) (path : string)
    (extensions : list string) : bool :=
  let extension :=
    match os with
    | Windows => (ntpath.splitext (ntpath.normcase path)).2
    | _ => (posixpath.splitext (posixpath.normcase path)).2
    end in
  bool_decide (extension ∈ extensions).

(** The files below a directory, in the order of the walk. *)
Definition getFileList (path : string) : M (list string) :=
  triples ← os_walk path;
  ret (flat_map (fun triple : walk_entry =>
                   let '(root, _dirnames, filenames) := triple in
                   posixpath.join root <$> filenames)
                triples).

(** The directories below a directory, sorted. *)
Definition getSubDirectories (path : string) : M (list string) :=
  triples ← os_walk path;
  ret (merge_sort String.le
         (flat_map (fun triple : walk_entry =>
                      let '(root, dirnames, _filenames) := triple in
                      posixpath.join root <$> dirnames)
                   triples)).

(** * The vocabulary of the properties *)

(** ** Paths *)

Definition nonempty (s : string) : bool := negb (Str.is_empty s).

(** [k] separators, and the paths that have a character of another kind. *)
Definition slashes (k : nat) : string := Str.replicate k posixpath.sep.
Definition has_name (p : string) : Prop := Str.all_char posixpath.sep p = false.

(** The components [normpath] keeps are not empty and have no separator in
    them, so the path it builds from them starts with a separator only when
    it puts one there. *)
Definition plain (s : string) : Prop :=
  s <> "" /\ Str.startswith posixpath.sep s = false.

(** The item of [listDir] for a file name. *)
Definition entry_of (path filename : string) : string * string :=
  (posixpath.join path filename, filename).

(** ** Worlds and traces *)

(** Nobody holds the lock: a call under the lock gets it. *)
Definition lock_free (w : World) : Prop := file_lock w <> Some true.

(** The world after [_with_file_Lock] has run up to its [yield], and after
    it has run from there to its end. *)
Definition acquired (w : World) : World :=
  set_lock (Some true)
    (add_call LockAcquire
       (match file_lock w with
        | None => set_lock (Some false) (add_call LockNew w)
        | Some _ => w
        end)).

Definition released (w : World) : World :=
  set_lock (Some false) (add_call LockRelease w).

(** The calls that take the lock. *)
Definition lock_calls (w : World) : list call :=
  match file_lock w with
  | None => [LockNew; LockAcquire]
  | Some _ => [LockAcquire]
  end.

(** The calls a computation adds to the trace. *)
Definition calls_made {A} (m : M A) (w : World) : list call :=
  drop (length (trace w)) (trace (m w).2).

(** [os.path.isfile] as a function of the world. *)
Definition isfile_in (w : World) (p : string) : bool :=
  match fs w !! p with Some n => negb (is_dir n) | None => false end.

(** ** Computations that behave *)

(** A computation is tame when it returns or raises [OSError] (only returns,
    when [may_raise] is off), adds no entry to the file system, leaves the
    lock alone and only adds to the trace. *)
Definition good {A} (may_raise : bool) (r : outcome A) : Prop :=
  match r with
  | Ok _ => True
  | Raise (OSError _ _) => may_raise = true
  | _ => False
  end.

Record frame (w w' : World) : Prop := {
  frame_dom : dom (fs w') ⊆ dom (fs w);
  frame_lock : file_lock w' = file_lock w;
  frame_trace : exists calls, trace w' = trace w ++ calls
}.

Definition tame {A} (may_raise : bool) (m : M A) : Prop :=
  forall w, good may_raise (m w).1 /\ frame w (m w).2.

(** An [onerror] handler is tame when it is so on the calls of [rmtree]. *)
Definition tame_handler (may_raise : bool) (h : handler) : Prop :=
  forall func p c f,
    (forall q, tame true (func q)) -> tame may_raise (h func p (OSError c f)).

(** Computations that only add calls to the trace, and those that add
    none. *)
Definition appends {A} (m : M A) : Prop :=
  forall w, exists calls, trace (m w).2 = trace w ++ calls.

Definition silent {A} (m : M A) : Prop :=
  forall w, trace (m w).2 = trace w.

(** ** Worlds to run the functions in *)

Definition empty_world : World := mkWorld ∅ [] Linux None [].

(** A build directory. *)
Definition build_world : World :=
  mkWorld {[ "build" := new_directory ]} [] Linux None [].

(** A directory with one file that another program holds open for the next
    [failures] attempts to delete it. *)
Definition busy_file (failures : nat) : node :=
  mkNode RegularFile 420 "" true failures.

Definition busy_world (failures : nat) : World :=
  mkWorld {[ "d" := new_directory; "d/f" := busy_file failures ]}
          [] Windows None [].

(** A package directory. *)
Definition site_world : World :=
  mkWorld {[ "site" := new_directory;
             "site/os.py" := new_file "";
             "site/abc.py" := new_file "";
             "site/json" := new_directory;
             "site/json/tool.py" := new_file "" ]}
          [] Linux None [].

(** A source tree on the root volume and a second volume at ["mnt"]. *)
Definition script : node := mkNode RegularFile 493 "#!/bin/sh" true 0.

Definition volumes_world : World :=
  mkWorld {[ "src" := new_directory; "src/run.sh" := script;
             "mnt" := new_directory ]}
          ["mnt"] Linux None [].

(** ** More worlds *)

(** An output directory. *)
Definition tree_world : World :=
  mkWorld {[ "out" := new_directory ]} [] Linux None [].

(** ** Names *)

(** A name [os.listdir] can return: not empty, and no separator in it. *)
Definition file_name (name : string) : Prop :=
  name <> "" /\ Str.contains posixpath.sep name = false.

(** A component of a path: what stands between two separators. *)
Definition comp_ok (c : string) : Prop := file_name c.

(** [os.path.normcase] and [os.sep] of a platform. *)
Definition normcase_on (os : platform) (path : string) : string :=
  match os with
  | Windows => ntpath.normcase path
  | _ => posixpath.normcase path
  end.

Definition sep_on (os : platform) : ascii :=
  match os with
  | Windows => ntpath.sep
  | _ => posixpath.sep
  end.

(** What [splitext] returns as an extension: nothing, or a dot and
    characters that are neither a dot nor the separator. *)
Definition extension_shape (sep : ascii) (ext : string) : Prop :=
  ext = "" \/
  exists e, ext = String "." e /\ Str.contains "." e = false /\
            Str.contains sep e = false.

(** ** Under the lock *)

(** The bodies of the [with] statements. *)
Definition deleteFile_body (path : string) (must_exist : bool) : M unit :=
  b ← (if must_exist then mret true else os_path_isfile path);
  when b (os_unlink path).

Definition makePath_body (path : string) : M unit :=
  d ← os_path_isdir path;
  when (negb d) (os_makedirs path).

Definition removeDirectory_body (path : string) (ignore_errors : bool)
    : M unit :=
  e ← os_path_exists path;
  when e
    (try_OSError (shutil_rmtree path false (Some onError))
       (fun ex =>
          if ignore_errors then shutil_rmtree path ignore_errors None
          else raise ex)).

(** The last segment [os.makedirs] looks at: the tail of the split, or of
    the split of the head when the path ends in a separator. *)
Definition makedirs_leaf (name : string) : string :=
  let (head, tail) := posixpath.split name in
  if Str.is_empty tail then (posixpath.split head).2 else tail.

(** Results that are a return or an [OSError]. *)
Definition settled {A} (r : outcome A) : Prop :=
  match r with
  | Ok _ => True
  | Raise (OSError _ _) => True
  | _ => False
  end.

(** A body that returns or raises [OSError], leaves the lock alone and only
    adds to the trace. *)
Definition lock_neutral {A} (body : M A) : Prop :=
  forall w,
    settled (body w).1 /\ file_lock (body w).2 = file_lock w /\
    exists calls, trace (body w).2 = trace w ++ calls.

(** A computation that returns or raises [OSError] and leaves the lock
    alone. *)
Definition unlocked {A} (m : M A) : Prop :=
  forall w, settled (m w).1 /\ file_lock (m w).2 = file_lock w.

(** ** What is left alone *)

(** Every entry that is not [d] and does not lie below it is the same in
    both worlds. *)
Definition keeps (d : string) (w w' : World) : Prop :=
  forall q, under d q = false -> fs w' !! q = fs w !! q.

(** A computation that stays inside [d]. *)
Definition stays_in {A} (d : string) (m : M A) : Prop :=
  forall w, keeps d w (m w).2.

Definition handler_stays_in (d : string) (h : handler) : Prop :=
  forall func p e, stays_in d (func p) -> stays_in d (h func p e).

(** A computation that leaves what is at [q] as it is. *)
Definition same_at {A} (q : string) (m : M A) : Prop :=
  forall w, fs (m w).2 !! q = fs w !! q.

(** There is an entry at [p] with the kind and the bytes of [n]. *)
Definition content_at (w : World) (p : string) (n : node) : Prop :=
  exists n', fs w !! p = Some n' /\ n_kind n' = n_kind n /\
             n_data n' = n_data n.

(** Nothing but the trace differs between the two worlds. *)
Definition reads_only (w w' : World) : Prop :=
  fs w' = fs w /\ file_lock w' = file_lock w.

(** ** The walk *)

(** The directories [os.walk] comes to from [top]: [top] when it is a
    directory, and what it comes to from a directory directly inside. *)
Inductive reach (f : gmap string node) : string -> string -> Prop :=
  | reach_top top n :
      f !! top = Some n -> is_dir n = true -> reach f top top
  | reach_down top n name d root :
      f !! top = Some n -> is_dir n = true ->
      file_name name ->
      f !! posixpath.join top name = Some d -> is_dir d = true ->
      reach f (posixpath.join top name) root ->
      reach f top root.

(** The names of the directories and of the files directly inside [p]. *)
Definition entries_of (f : gmap string node) (p : string)
    : list (string * bool) :=
  (fun name =>
     (name, match f !! posixpath.join p name with
            | Some n => is_dir n
            | None => false
            end)) <$> children p f.

Definition dirs_of (f : gmap string node) (p : string) : list string :=
  fst <$> List.filter snd (entries_of f p).

Definition files_of (f : gmap string node) (p : string) : list string :=
  fst <$> List.filter (fun entry => negb entry.2) (entries_of f p).

(** What [os.walk] yields for a directory. *)
Definition walk_entry_of (f : gmap string node) (root : string) : walk_entry :=
  (root, dirs_of f root, files_of f root).

(** ** Normal forms *)

(** The components [normpath] ends with: none is empty or a dot, and [..]
    stands at the start of a relative path only. *)
Inductive normal_comps (initial : nat) : list string -> Prop :=
  | normal_nil : normal_comps initial []
  | normal_snoc l c :
      normal_comps initial l ->
      c <> "" -> c <> "." ->
      (c = ".." -> initial = 0 /\ Forall (fun x => x = "..") l) ->
      normal_comps initial (l ++ [c]).

(** A component that [normpath] appends: a name, not a dot and not
    [..]. *)
Definition regular (c : string) : Prop :=
  comp_ok c /\ c <> "." /\ c <> "..".

(** The end of [normpath]: the path of the components kept. *)
Definition build_path (initial : nat) (comps : list string) : string :=
  let path := Str.join posixpath.sep comps in
  let path := if Nat.eqb initial 0 then path
              else Str.replicate initial posixpath.sep +:+ path in
  if Str.is_empty path then "." else path.

(** What [abspath] starts from for a relative path: the slashes and the
    components of the working directory. *)
Definition cwd_slashes (cwd : string) : nat :=
  posixpath.initial_slashes (dir_prefix cwd).

Definition cwd_comps (cwd : string) : list string :=
  fold_left (posixpath.norm_step (cwd_slashes cwd))
    (Str.split posixpath.sep (dir_prefix cwd)) [].

(** * Properties *)

#[local] Arguments String.append !_ _ / : simpl nomatch.
Import posixpath.

(** ** [posixpath] on examples *)

Example posix_split_ab : posixpath.split "a/b" = ("a", "b").
Proof. reflexivity. Qed.
Example posix_split_trailing : posixpath.split "a/b/" = ("a/b", "").
Proof. reflexivity. Qed.
Example posix_split_root : posixpath.split "///x" = ("///", "x").
Proof. reflexivity. Qed.
Example posix_split_dslash : posixpath.split "a//b" = ("a", "b").
Proof. reflexivity. Qed.
Example posix_normpath_1 : posixpath.normpath "a//b/./c/../d/" = "a/b/d".
Proof. reflexivity. Qed.
Example posix_normpath_2 : posixpath.normpath "//a/../.." = "//".
Proof. reflexivity. Qed.
Example posix_normpath_3 : posixpath.normpath "///a" = "/a".
Proof. reflexivity. Qed.
Example posix_normpath_4 : posixpath.normpath "../../a/.." = "../..".
Proof. reflexivity. Qed.
Example posix_abspath_1 : posixpath.abspath "/home/u" "../x" = "/home/x".
Proof. reflexivity. Qed.

(** ** Strings *)

Section StrLemmas.
Variable c : ascii.

Lemma is_empty_true s : Str.is_empty s = true <-> s = "".
Proof. destruct s; simpl; split; congruence. Qed.

Lemma is_empty_false s : Str.is_empty s = false <-> s <> "".
Proof. destruct s; simpl; split; congruence. Qed.

Lemma app_empty_r s : s +:+ "" = s.
Proof. induction s; simpl; congruence. Qed.

Lemma app_assoc_str s1 s2 s3 : (s1 +:+ s2) +:+ s3 = s1 +:+ (s2 +:+ s3).
Proof. induction s1; simpl; congruence. Qed.

Lemma length_app_str s1 s2 :
  String.length (s1 +:+ s2) = String.length s1 + String.length s2.
Proof. induction s1; simpl; congruence. Qed.

Lemma rcut_spec s h t :
  Str.rcut c s = (h, t) ->
  s = h +:+ t /\ Str.contains c t = false /\
  (h = "" \/ Str.endswith c h = true).
Proof.
  revert h t. induction s as [|a s IH]; simpl; intros h t E.
  - inversion E; subst. auto.
  - destruct (Str.rcut c s) as [h' t'].
    destruct (IH h' t' eq_refl) as (Es & Ht & Hh).
    destruct (Str.is_empty h') eqn:Eh.
    + apply is_empty_true in Eh. subst h'. simpl in Es. subst s.
      destruct (Ascii.eqb a c) eqn:Eac; inversion E; subst; simpl.
      * rewrite Eac. auto.
      * rewrite Eac, Ht. auto.
    + inversion E; subst. simpl. split; [reflexivity|]. split; [assumption|].
      right. destruct h'; [discriminate|].
      destruct Hh as [Hh|Hh]; [discriminate|exact Hh].
Qed.

Lemma contains_startswith s :
  Str.contains c s = false -> Str.startswith c s = false.
Proof. destruct s; simpl; [auto|]. intros H. apply orb_false_iff in H. tauto. Qed.

Lemma split_not_nil s : Str.split c s <> [].
Proof.
  destruct s as [|a s]; simpl; [discriminate|].
  destruct (Ascii.eqb a c); [discriminate|].
  destruct (Str.split c s); discriminate.
Qed.

Lemma split_app_sep a b :
  Str.split c (a +:+ String c b) = Str.split c a ++ Str.split c b.
Proof.
  induction a as [|x a IH]; simpl.
  - rewrite Ascii.eqb_refl. reflexivity.
  - destruct (Ascii.eqb x c); [rewrite IH; reflexivity|].
    rewrite IH. pose proof (split_not_nil a) as Hn.
    destruct (Str.split c a); [congruence|reflexivity].
Qed.

Lemma split_no_sep t : Str.contains c t = false -> Str.split c t = [t].
Proof.
  induction t as [|a t IH]; simpl; [reflexivity|].
  intros H. apply orb_false_iff in H as [Ha Ht].
  rewrite Ha, (IH Ht). reflexivity.
Qed.

Lemma split_replicate_app k t :
  Str.split c (Str.replicate k c +:+ t) = replicate k "" ++ Str.split c t.
Proof.
  induction k as [|k IH]; simpl; [reflexivity|].
  rewrite Ascii.eqb_refl, IH. reflexivity.
Qed.

Lemma filter_nonempty_replicate k :
  List.filter nonempty (replicate k "") = [].
Proof. induction k; simpl; auto. Qed.

(** The components that count: a run of separators counts as one. *)
Lemma split_run_of_seps x k t :
  List.filter nonempty (Str.split c (x +:+ Str.replicate (S k) c +:+ t)) =
  List.filter nonempty (Str.split c x) ++
  List.filter nonempty (Str.split c t).
Proof.
  simpl. rewrite split_app_sep, split_replicate_app.
  rewrite !List.filter_app, filter_nonempty_replicate. reflexivity.
Qed.

Lemma rstrip_spec s :
  exists k, s = Str.rstrip c s +:+ Str.replicate k c.
Proof.
  induction s as [|a s [k IH]]; simpl.
  - exists 0. reflexivity.
  - destruct (Str.is_empty (Str.rstrip c s)) eqn:Er; simpl.
    + apply is_empty_true in Er. rewrite Er in IH. simpl in IH.
      destruct (Ascii.eqb a c) eqn:Eac.
      * apply Ascii.eqb_eq in Eac. subst a. exists (S k). simpl. congruence.
      * exists k. rewrite Er. simpl. congruence.
    + exists k. simpl. congruence.
Qed.

Lemma rstrip_endswith s : Str.endswith c (Str.rstrip c s) = false.
Proof.
  induction s as [|a s IH]; simpl; [reflexivity|].
  destruct (Str.is_empty (Str.rstrip c s)) eqn:Er; simpl.
  - apply is_empty_true in Er. destruct (Ascii.eqb a c) eqn:Eac; simpl.
    + reflexivity.
    + rewrite Er. exact Eac.
  - destruct (Str.rstrip c s); [discriminate|exact IH].
Qed.

Lemma rstrip_nonempty s :
  Str.all_char c s = false -> Str.rstrip c s <> "".
Proof.
  induction s as [|a s IH]; simpl; [discriminate|].
  intros H. destruct (Str.is_empty (Str.rstrip c s)) eqn:Er; simpl.
  - destruct (Ascii.eqb a c) eqn:Eac; simpl in *; [|discriminate].
    apply is_empty_true in Er. tauto.
  - discriminate.
Qed.

Lemma endswith_not_all s :
  s <> "" -> Str.endswith c s = false -> Str.all_char c s = false.
Proof.
  induction s as [|a s IH]; simpl; [congruence|].
  intros _ H. destruct s as [|b s].
  - rewrite H. reflexivity.
  - rewrite IH; [apply andb_false_r|discriminate|exact H].
Qed.

Lemma all_char_replicate k : Str.all_char c (Str.replicate k c) = true.
Proof. induction k; simpl; [|rewrite Ascii.eqb_refl]; auto. Qed.
End StrLemmas.

(** ** [posixpath] *)

Lemma norm_step_empty i acc : norm_step i acc "" = acc.
Proof. reflexivity. Qed.

Lemma fold_norm_step_filter i l acc :
  fold_left (norm_step i) l acc =
  fold_left (norm_step i) (List.filter nonempty l) acc.
Proof.
  revert acc. induction l as [|x l IH]; intros acc; simpl; [reflexivity|].
  destruct x as [|a x]; simpl.
  - rewrite norm_step_empty. apply IH.
  - apply IH.
Qed.

(** [normpath] looks at three things only: whether the path is empty, how it
    starts, and its components that are not empty. *)
Lemma normpath_ext p q :
  Str.is_empty p = Str.is_empty q ->
  initial_slashes p = initial_slashes q ->
  List.filter nonempty (Str.split sep p) =
  List.filter nonempty (Str.split sep q) ->
  normpath p = normpath q.
Proof.
  intros He Hi Hc. unfold normpath. rewrite He, Hi.
  rewrite (fold_norm_step_filter _ (Str.split sep p)), Hc.
  rewrite <- fold_norm_step_filter. reflexivity.
Qed.

Lemma initial_slashes_app x y :
  Str.all_char sep x = false ->
  initial_slashes (x +:+ y) = initial_slashes x.
Proof.
  destruct x as [|a [|b [|d x]]]; simpl; try discriminate.
  - destruct (Ascii.eqb a sep); simpl; [discriminate|].
    intros _. destruct y as [|? [|? ?]]; reflexivity.
  - destruct (Ascii.eqb a sep); simpl.
    + destruct (Ascii.eqb b sep); simpl; [discriminate|].
      intros _. destruct y; reflexivity.
    + intros _. destruct y; reflexivity.
  - reflexivity.
Qed.

Lemma is_empty_app x y :
  Str.is_empty x = false -> Str.is_empty (x +:+ y) = false.
Proof. destruct x; simpl; congruence. Qed.

(** Separators at the end of a path do not change its normal form, unless
    the path is made of separators only. *)
Lemma normpath_trailing_seps p k :
  Str.all_char sep p = false ->
  normpath (p +:+ Str.replicate k sep) = normpath p.
Proof.
  intros Hp. destruct k as [|k]; [simpl; rewrite app_empty_r; reflexivity|].
  assert (Hne : Str.is_empty p = false) by (destruct p; [discriminate|reflexivity]).
  apply normpath_ext.
  - rewrite is_empty_app; congruence.
  - apply initial_slashes_app, Hp.
  - rewrite <- (app_empty_r (Str.replicate (S k) sep)).
    rewrite split_run_of_seps. simpl. apply app_nil_r.
Qed.

Lemma join_plain a b :
  Str.startswith sep b = false -> join a b = dir_prefix a +:+ b.
Proof.
  intros Hb. unfold join, dir_prefix. rewrite Hb.
  destruct (Str.is_empty a || Str.endswith sep a); [reflexivity|].
  rewrite app_assoc_str. reflexivity.
Qed.

(** What [posixpath.split] returns, case by case. *)
Lemma posix_split_cases p :
  let (head, tail) := split p in
  Str.contains sep tail = false /\
  ((head = "" /\ p = tail) \/
   (head <> "" /\ Str.all_char sep head = true /\ p = head +:+ tail) \/
   (head <> "" /\ Str.all_char sep head = false /\
    Str.endswith sep head = false /\
    exists k, p = head +:+ Str.replicate (S k) sep +:+ tail)).
Proof.
  unfold split. destruct (Str.rcut sep p) as [h t] eqn:E.
  destruct (rcut_spec sep p h t E) as (Hp & Ht & Hh).
  split; [exact Ht|].
  destruct (Str.is_empty h) eqn:Eh; simpl.
  { apply is_empty_true in Eh. subst h. left. auto. }
  apply is_empty_false in Eh. destruct Hh as [Hh|Hh]; [contradiction|].
  destruct (Str.all_char sep h) eqn:Ea; simpl.
  { right; left. auto. }
  right; right.
  pose proof (rstrip_nonempty sep h Ea) as Hn.
  pose proof (rstrip_endswith sep h) as He.
  repeat split; [exact Hn|apply endswith_not_all; assumption|exact He|].
  destruct (rstrip_spec sep h) as [k Hk].
  destruct k as [|k].
  - simpl in Hk. rewrite app_empty_r in Hk. rewrite <- Hk in He. congruence.
  - exists k. rewrite Hp at 1. rewrite Hk at 1. apply app_assoc_str.
Qed.

(** ** [splitPath] *)

Lemma splitPath_no_empty (os : os_path) (p : string) :
  Forall (fun element => element <> "") (splitPath os p).
Proof.
  unfold splitPath. destruct (path_split os p) as [head tail].
  apply Forall_forall. intros x Hx. apply list_elem_of_In in Hx.
  apply List.filter_In in Hx as [_ Hx].
  destruct x; [discriminate|congruence].
Qed.




(** C10. [splitPath] is one head and tail split with the empty elements
    dropped: two components at most, however many separators the path has.
    With [posixpath], when there are two, the second has no separator and the
    path is the first, separators, and the second: all other separators of
    the path are still inside the first. *)
Theorem splitPath_at_most_two (os : os_path) (p : string) :
  length (splitPath os p) <= 2 /\
  splitPath os p =
    List.filter nonempty [(path_split os p).1; (path_split os p).2] /\
  (forall head tail,
     splitPath posix p = [head; tail] ->
     Str.contains posixpath.sep tail = false /\
     exists k, p = head +:+ slashes k +:+ tail) /\
  splitPath posix "usr/lib/python/os.py" = ["usr/lib/python"; "os.py"] /\
  splitPath posix "usr/lib/python/" = ["usr/lib/python"].
Proof.
  split; [|split; [|split; [|split; reflexivity]]].
  - unfold splitPath. destruct (path_split os p) as [head tail]. simpl.
    destruct (Str.is_empty head), (Str.is_empty tail); simpl; lia.
  - unfold splitPath. destruct (path_split os p) as [head tail]. reflexivity.
  - intros head tail. unfold splitPath. simpl.
    pose proof (posix_split_cases p) as H.
    destruct (split p) as [h t]. destruct H as (Ht & H). simpl.
    destruct (Str.is_empty h) eqn:Eh, (Str.is_empty t) eqn:Et; simpl;
      intros E; inversion E; subst h t. split; [exact Ht|].
    apply is_empty_false in Eh.
    destruct H as [(Hh & _)|[(_ & _ & Hp)|(_ & _ & _ & k & Hp)]].
    + contradiction.
    + exists 0. exact Hp.
    + exists (S k). exact Hp.
Qed.

Lemma splitPath_at_most_two_witness :
  Str.contains posixpath.sep "os.py" = false /\
  exists k, "usr/lib//python///os.py" =
            "usr/lib//python" +:+ slashes k +:+ "os.py".
Proof.
  destruct (splitPath_at_most_two posix "usr/lib//python///os.py")
    as (_ & _ & H & _).
  apply H. reflexivity.
Defined.

(** ** The monad *)

Ltac unfold_M :=
  unfold update_fs, log, when, mbind, M_bind, mret, M_ret, bind, ret, raise,
    get, modify in *.

Lemma bind_run {A B} (m : M A) (k : A -> M B) w :
  (m ≫= k) w =
  match m w with
  | (Ok a, w') => k a w'
  | (Raise e, w') => (Raise e, w')
  | (Blocked, w') => (Blocked, w')
  | (Unfinished, w') => (Unfinished, w')
  end.
Proof. reflexivity. Qed.

Lemma bind_ok {A B} (m : M A) (k : A -> M B) w a w' :
  m w = (Ok a, w') -> (m ≫= k) w = k a w'.
Proof. intros H. rewrite bind_run, H. reflexivity. Qed.

Lemma bind_raise {A B} (m : M A) (k : A -> M B) w e w' :
  m w = (Raise e, w') -> (m ≫= k) w = (Raise e, w').
Proof. intros H. rewrite bind_run, H. reflexivity. Qed.

Lemma try_ok {A} (m : M A) h w a w' :
  m w = (Ok a, w') -> try_OSError m h w = (Ok a, w').
Proof. intros H. unfold try_OSError. rewrite H. reflexivity. Qed.

Lemma try_caught {A} (m : M A) h w c f w' :
  m w = (Raise (OSError c f), w') ->
  try_OSError m h w = h (OSError c f) w'.
Proof. intros H. unfold try_OSError. rewrite H. reflexivity. Qed.

Lemma frame_refl w : frame w w.
Proof. split; [intros k Hk; exact Hk|reflexivity|exists []; symmetry; apply app_nil_r]. Qed.

Lemma frame_trans w1 w2 w3 : frame w1 w2 -> frame w2 w3 -> frame w1 w3.
Proof.
  intros [D1 L1 [c1 T1]] [D2 L2 [c2 T2]]. split.
  - intros k Hk. apply D1, D2, Hk.
  - congruence.
  - exists (c1 ++ c2). rewrite T2, T1. symmetry. apply app_assoc.
Qed.

Lemma good_weaken {A} b (r : outcome A) : good b r -> good true r.
Proof. destruct r as [| [] | |]; simpl; auto. Qed.

Lemma tame_weaken {A} b (m : M A) : tame b m -> tame true m.
Proof. intros H w. destruct (H w). eauto using good_weaken. Qed.

Lemma tame_ret {A} b (a : A) : tame b (mret a).
Proof. intros w. split; [exact I|apply frame_refl]. Qed.

Lemma tame_raise {A} c f : tame true (raise (A:=A) (OSError c f)).
Proof. intros w. split; [reflexivity|apply frame_refl]. Qed.

Lemma tame_bind {A B} b (m : M A) (k : A -> M B) :
  tame b m -> (forall a, tame b (k a)) -> tame b (m ≫= k).
Proof.
  intros Hm Hk w. rewrite bind_run. specialize (Hm w).
  destruct (m w) as [[a|[c f|]| |] w1]; simpl in *;
    destruct Hm as [Hg Hf]; try contradiction.
  - destruct (Hk a w1) as [Hg' Hf']. split; [exact Hg'|].
    eapply frame_trans; eassumption.
  - split; assumption.
Qed.

Lemma tame_try {A} b (m : M A) (h : exn -> M A) :
  tame true m -> (forall c f, tame b (h (OSError c f))) ->
  tame b (try_OSError m h).
Proof.
  intros Hm Hh w. unfold try_OSError. specialize (Hm w).
  destruct (m w) as [[a|[c f|]| |] w1]; simpl in *;
    destruct Hm as [Hg Hf]; try contradiction.
  - split; [exact I|exact Hf].
  - destruct (Hh c f w1) as [Hg' Hf']. split; [exact Hg'|].
    eapply frame_trans; eassumption.
Qed.

Lemma tame_get {A} b (f : World -> A) : tame b (get f).
Proof. intros w. split; [exact I|apply frame_refl]. Qed.

Lemma tame_log b c : tame b (log c).
Proof.
  intros w. split; [exact I|].
  split; simpl; [intros k Hk; exact Hk|reflexivity|eauto].
Qed.

Lemma tame_lookup_node p : tame true (lookup_node p).
Proof.
  intros w. unfold lookup_node. destruct (fs w !! p);
    (split; [simpl; auto|apply frame_refl]).
Qed.

Lemma frame_set_fs f w :
  dom f ⊆ dom (fs w) -> frame w (set_fs f w).
Proof.
  intros Hd. split; simpl; [exact Hd|reflexivity|].
  exists []. symmetry. apply app_nil_r.
Qed.

Lemma tame_delete b p : tame b (update_fs (delete p)).
Proof.
  intros w. split; [exact I|]. apply frame_set_fs.
  intros k Hk. apply elem_of_dom in Hk as [x Hx].
  apply lookup_delete_Some in Hx as [_ Hx]. apply elem_of_dom. eauto.
Qed.

Lemma touch_busy_run p n w :
  fs w !! p = Some n ->
  good true (touch_busy p n w).1 /\ frame w (touch_busy p n w).2.
Proof.
  intros Hp. unfold touch_busy. destruct (n_busy n).
  - split; [exact I|apply frame_refl].
  - split; [reflexivity|]. apply frame_set_fs.
    intros k Hk. apply elem_of_dom in Hk as [x Hx]. apply elem_of_dom.
    destruct (decide (p = k)) as [<-|Hne]; [eauto|].
    rewrite lookup_insert_ne in Hx by exact Hne. eauto.
Qed.

Lemma lookup_node_ok p w n w' :
  lookup_node p w = (Ok n, w') -> w' = w /\ fs w !! p = Some n.
Proof.
  unfold lookup_node. destruct (fs w !! p); intros H; inversion H; auto.
Qed.

Lemma tame_os_lstat p : tame true (os_lstat p).
Proof.
  unfold os_lstat. apply tame_bind; [apply tame_log|]. intros _.
  apply tame_bind; [apply tame_lookup_node|]. intros n. apply tame_ret.
Qed.

Lemma tame_os_listdir p : tame true (os_listdir p).
Proof.
  unfold os_listdir. apply tame_bind; [apply tame_log|]. intros _.
  apply tame_bind; [apply tame_lookup_node|]. intros n.
  destruct (is_dir n); [apply tame_get|apply tame_raise].
Qed.

(** After [lookup_node p] the entry is known to be there: the rest of a call
    may rely on it. *)
Lemma tame_after_lookup {B} p (k : node -> M B) :
  (forall n w, fs w !! p = Some n ->
               good true (k n w).1 /\ frame w (k n w).2) ->
  tame true (lookup_node p ≫= k).
Proof.
  intros Hk w. rewrite bind_run. unfold lookup_node.
  destruct (fs w !! p) as [n|] eqn:E.
  - apply Hk, E.
  - split; [reflexivity|apply frame_refl].
Qed.

Lemma tame_os_unlink p : tame true (os_unlink p).
Proof.
  unfold os_unlink. apply tame_bind; [apply tame_log|]. intros _.
  apply tame_after_lookup. intros n w Hn.
  destruct (is_dir n); [apply tame_raise|].
  rewrite bind_run. destruct (touch_busy_run p n w Hn) as [Hg Hf].
  destruct (touch_busy p n w) as [[[]|[c f|]| |] w1]; simpl in *;
    try contradiction; [|auto].
  split; [exact I|]. eapply frame_trans; [exact Hf|]. apply tame_delete with (b:=true).
Qed.

Lemma tame_os_rmdir p : tame true (os_rmdir p).
Proof.
  unfold os_rmdir. apply tame_bind; [apply tame_log|]. intros _.
  apply tame_after_lookup. intros n w Hn.
  destruct (negb (is_dir n)); [apply tame_raise|].
  rewrite bind_run. simpl.
  destruct (negb (posixpath.is_nil (children p (fs w)))); [apply tame_raise|].
  rewrite bind_run. destruct (touch_busy_run p n w Hn) as [Hg Hf].
  destruct (touch_busy p n w) as [[[]|[c f|]| |] w1]; simpl in *;
    try contradiction; [|auto].
  split; [exact I|]. eapply frame_trans; [exact Hf|]. apply tame_delete with (b:=true).
Qed.

Lemma tame_listdir_ p : tame true (listdir_ p).
Proof.
  unfold listdir_. apply tame_bind; [apply tame_os_listdir|]. intros _.
  apply tame_ret.
Qed.

Lemma tame_time_sleep b ms : tame b (time_sleep ms).
Proof. apply tame_log. Qed.

(** ** [shutil.rmtree] *)

Lemma tame_ignore_handler : tame_handler false ignore_handler.
Proof. intros func p c f _. apply tame_ret. Qed.

Lemma tame_reraise_handler : tame_handler true reraise_handler.
Proof. intros func p c f _. apply tame_raise. Qed.

Lemma tame_onError : tame_handler true onError.
Proof.
  intros func p c f Hf. unfold onError.
  apply tame_bind; [|intros _; apply Hf].
  apply tame_try; [apply Hf|]. intros. apply tame_time_sleep.
Qed.

Lemma child_name_spec d k name :
  child_name d k = Some name ->
  k = posixpath.join d name /\ name <> "" /\
  Str.contains posixpath.sep name = false.
Proof.
  unfold child_name.
  destruct (Str.strip_prefix (dir_prefix d) k) as [n|] eqn:E; [|discriminate].
  destruct (negb (Str.is_empty n)) eqn:En; [|discriminate].
  destruct (Str.contains posixpath.sep n) eqn:Ec; [discriminate|].
  simpl. intros H. inversion H; subst n. clear H.
  split; [|split; [destruct name; [discriminate|congruence]|exact Ec]].
  rewrite join_plain by (apply contains_startswith, Ec).
  revert k E. generalize (dir_prefix d) as pre.
  induction pre as [|a pre IH]; intros k E; simpl in *.
  - congruence.
  - destruct k as [|b k]; [discriminate|].
    destruct (Ascii.eqb a b) eqn:Eab; [|discriminate].
    apply Ascii.eqb_eq in Eab. subst b. f_equal. apply IH, E.
Qed.

Lemma join_child_longer d name :
  name <> "" -> Str.contains posixpath.sep name = false ->
  String.length d < String.length (posixpath.join d name).
Proof.
  intros Hn Hc. rewrite join_plain by (apply contains_startswith, Hc).
  rewrite length_app_str. unfold dir_prefix.
  destruct name; [contradiction|]. simpl.
  destruct (Str.is_empty d || Str.endswith posixpath.sep d);
    [|rewrite length_app_str]; simpl; lia.
Qed.

Lemma children_longer d f :
  Forall (fun name => String.length d < String.length (posixpath.join d name))
         (children d f).
Proof.
  apply Forall_forall. intros name Hin. unfold children in Hin.
  apply list_elem_of_omap in Hin as (kv & _ & Hk).
  apply child_name_spec in Hk as (_ & Hn & Hc).
  apply join_child_longer; assumption.
Qed.

Lemma key_length_bound (f : gmap string node) k :
  k ∈ dom f -> String.length k <= max_key_length f.
Proof.
  intros Hk. apply elem_of_dom in Hk as [n Hn].
  pose proof (proj2 (elem_of_map_to_list f k n) Hn) as Hin.
  unfold max_key_length. clear Hn. revert Hin. generalize (map_to_list f) as l.
  induction l as [|kv l IH]; intros Hn; [inversion Hn|].
  apply elem_of_cons in Hn as [<-|Hn]; rewrite fmap_cons; simpl.
  - lia.
  - specialize (IH Hn). lia.
Qed.

Section Walk.
Variable may_raise : bool.
Variable onerror : handler.
Hypothesis onerror_tame : tame_handler may_raise onerror.

(** The first statement of [rmtree]: the names, none when listing fails
    and the handler returns. *)
Lemma rmtree_names_run path w :
  let r := try_OSError (os_listdir path)
             (fun e => onerror listdir_ path e ;; mret []) w in
  good may_raise r.1 /\ frame w r.2 /\
  forall names, r.1 = Ok names ->
    Forall (fun name =>
              String.length path < String.length (posixpath.join path name))
           names.
Proof.
  simpl.
  assert (Hh : forall c f,
             tame may_raise (onerror listdir_ path (OSError c f) ;;
                             mret ([] : list string))).
  { intros c f. apply tame_bind; [|intros _; apply tame_ret].
    apply onerror_tame, tame_listdir_. }
  assert (Hnil : forall c f w0 names,
             ((onerror listdir_ path (OSError c f) ;;
               mret ([] : list string)) w0).1 = Ok names -> names = []).
  { intros c f w0 names. rewrite bind_run.
    destruct (onerror listdir_ path (OSError c f) w0) as [[[]| | |] ?];
      simpl; intros H; inversion H; reflexivity. }
  unfold try_OSError, os_listdir. rewrite bind_run. simpl.
  rewrite bind_run. unfold lookup_node. simpl.
  set (w0 := add_call (Listdir path) w).
  assert (F0 : frame w w0) by apply (tame_log true).
  destruct (fs w !! path) as [n|] eqn:E.
  - destruct (is_dir n).
    + simpl. split; [exact I|]. split; [exact F0|].
      intros names H. inversion H. apply children_longer.
    + simpl. destruct (Hh ENOTDIR path w0) as [Hg Hf].
      split; [exact Hg|]. split; [eapply frame_trans; eassumption|].
      intros names H. apply Hnil in H. subst names. constructor.
  - simpl. destruct (Hh ENOENT path w0) as [Hg Hf].
    split; [exact Hg|]. split; [eapply frame_trans; eassumption|].
    intros names H. apply Hnil in H. subst names. constructor.
Qed.

(** [lstat] inside its [try]: a directory mode comes from an entry. *)
Lemma rmtree_mode_run p w :
  exists mode w',
    try_OSError (os_lstat p) (fun _ => ret 0%N) w = (Ok mode, w') /\
    frame w w' /\ (S_ISDIR mode = true -> p ∈ dom (fs w')).
Proof.
  unfold try_OSError, os_lstat. rewrite bind_run. simpl.
  rewrite bind_run. unfold lookup_node. simpl.
  assert (F0 : frame w (add_call (Lstat p) w)) by apply (tame_log true).
  destruct (fs w !! p) as [n|] eqn:E; simpl.
  - eexists _, _. split; [reflexivity|]. split; [exact F0|].
    intros _. simpl. apply elem_of_dom. eauto.
  - eexists _, _. split; [reflexivity|]. split; [exact F0|].
    discriminate.
Qed.

(** With recursion depth to spare for the longest key, the walk is tame. *)
Lemma rmtree_walk_tame fuel : forall path w,
  0 < fuel ->
  (forall k, k ∈ dom (fs w) -> String.length k < String.length path + fuel) ->
  good may_raise (rmtree_walk fuel path onerror w).1 /\
  frame w (rmtree_walk fuel path onerror w).2.
Proof.
  induction fuel as [|fuel IH]; intros path w Hpos Hbound; [lia|].
  simpl rmtree_walk. rewrite bind_run.
  destruct (rmtree_names_run path w) as (Hg & Hf & Hnames). simpl in *.
  destruct (try_OSError (os_listdir path) _ w) as [[names|[c f|]| |] w1];
    simpl in *; try contradiction; [|auto].
  specialize (Hnames names eq_refl).
  rewrite bind_run.
  match goal with |- context [for_each names ?b w1] => set (body := b) end.
  assert (Hloop : forall w2, frame w w2 ->
            good may_raise (for_each names body w2).1 /\
            frame w2 (for_each names body w2).2).
  { clear Hg Hf. induction Hnames as [|name names Hlen _ IHn]; intros w2 F2.
    - split; [exact I|apply frame_refl].
    - simpl for_each. rewrite bind_run.
      assert (Hbody : good may_raise (body name w2).1 /\
                      frame w2 (body name w2).2).
      { unfold body. rewrite bind_run.
        destruct (rmtree_mode_run (posixpath.join path name) w2)
          as (mode & w3 & -> & F3 & Hdir).
        destruct (S_ISDIR mode).
        - specialize (Hdir eq_refl).
          assert (Hin : posixpath.join path name ∈ dom (fs w)).
          { apply (frame_dom _ _ F2), (frame_dom _ _ F3), Hdir. }
          pose proof (Hbound _ Hin) as Hb.
          destruct (IH (posixpath.join path name) w3) as [Hg' Hf'].
          + lia.
          + intros k Hk. apply (frame_dom _ _ F3), (frame_dom _ _ F2) in Hk.
            specialize (Hbound k Hk). lia.
          + split; [exact Hg'|]. eapply frame_trans; eassumption.
        - destruct (tame_try may_raise (os_remove (posixpath.join path name))
                      (onerror os_remove (posixpath.join path name))
                      (tame_os_unlink _)
                      (fun c f => onerror_tame _ _ c f tame_os_unlink) w3)
            as [Hg' Hf'].
          split; [exact Hg'|]. eapply frame_trans; eassumption. }
      destruct Hbody as [Hg Hf].
      destruct (body name w2) as [[[]|[c f|]| |] w3]; simpl in *;
        try contradiction; [|auto].
      destruct (IHn w3) as [Hg' Hf']; [eapply frame_trans; eassumption|].
      split; [exact Hg'|]. eapply frame_trans; eassumption. }
  destruct (Hloop w1 Hf) as [Hg2 Hf2].
  destruct (for_each names body w1) as [[[]|[c f|]| |] w2]; simpl in *;
    try contradiction.
  - destruct (tame_try may_raise (os_rmdir path) (onerror os_rmdir path)
                (tame_os_rmdir _)
                (fun c f => onerror_tame _ _ c f tame_os_rmdir) w2)
      as [Hg3 Hf3].
    split; [exact Hg3|].
    eapply frame_trans; [exact Hf|]. eapply frame_trans; eassumption.
  - split; [exact Hg2|]. eapply frame_trans; eassumption.
Qed.
End Walk.

Lemma shutil_rmtree_tame path ignore_errors onerror w :
  (forall h, onerror = Some h -> tame_handler true h) ->
  good (negb ignore_errors) (shutil_rmtree path ignore_errors onerror w).1 /\
  frame w (shutil_rmtree path ignore_errors onerror w).2.
Proof.
  intros Hh. unfold shutil_rmtree.
  assert (Hb : forall k, k ∈ dom (fs w) ->
             String.length k < String.length path + S (max_key_length (fs w))).
  { intros k Hk. apply key_length_bound in Hk. lia. }
  destruct ignore_errors; simpl negb.
  - apply rmtree_walk_tame; [apply tame_ignore_handler|lia|exact Hb].
  - apply rmtree_walk_tame; [|lia|exact Hb].
    destruct onerror as [h|]; [apply Hh; reflexivity|apply tame_reraise_handler].
Qed.

(** ** The lock *)

Lemma before_yield_run w :
  lock_free w -> before_yield _with_file_Lock w = (Ok tt, acquired w).
Proof.
  unfold lock_free, acquired. simpl. unfold_M. unfold Lock_new, Lock_acquire.
  unfold_M. simpl. destruct (file_lock w) as [[]|] eqn:E; simpl;
    try rewrite E; try reflexivity. congruence.
Qed.

Lemma before_yield_blocked w :
  file_lock w = Some true -> before_yield _with_file_Lock w = (Blocked, w).
Proof.
  intros E. simpl. unfold_M. unfold Lock_acquire. rewrite E. simpl.
  rewrite E. reflexivity.
Qed.

Lemma after_yield_run w :
  file_lock w = Some true -> after_yield _with_file_Lock w = (Ok tt, released w).
Proof.
  intros E. simpl. unfold_M. unfold Lock_release. rewrite E. simpl.
  rewrite E. reflexivity.
Qed.

Lemma file_lock_acquired w : file_lock (acquired w) = Some true.
Proof. reflexivity. Qed.

Lemma fs_acquired w : fs (acquired w) = fs w.
Proof. unfold acquired. destruct (file_lock w); reflexivity. Qed.

(** [with _with_file_Lock(): body], for a body that leaves the lock alone:
    the lock is released when the body returns, and only then. *)
Lemma with_file_Lock_run {A} (body : M A) w :
  lock_free w ->
  file_lock (body (acquired w)).2 = Some true ->
  contextmanager _with_file_Lock body w =
  match body (acquired w) with
  | (Ok a, w') => (Ok a, released w')
  | r => r
  end.
Proof.
  intros Hfree Hlock. unfold contextmanager.
  rewrite (bind_ok _ _ _ _ _ (before_yield_run w Hfree)).
  destruct (body (acquired w)) as [[a| | |] w'] eqn:E; try reflexivity.
  simpl in Hlock. rewrite (bind_ok _ _ _ _ _ (after_yield_run w' Hlock)).
  reflexivity.
Qed.

Lemma with_file_Lock_blocked {A} (body : M A) w :
  file_lock w = Some true ->
  contextmanager _with_file_Lock body w = (Blocked, w).
Proof.
  intros E. unfold contextmanager. rewrite bind_run.
  rewrite (before_yield_blocked w E). reflexivity.
Qed.

Lemma calls_made_app {A} (m : M A) w l :
  trace (m w).2 = trace w ++ l -> calls_made m w = l.
Proof. intros H. unfold calls_made. rewrite H. apply drop_app_length. Qed.

Lemma trace_acquired w : trace (acquired w) = trace w ++ lock_calls w.
Proof.
  unfold acquired, lock_calls. destruct (file_lock w); simpl; [reflexivity|].
  rewrite <- app_assoc. reflexivity.
Qed.

Lemma trace_released w : trace (released w) = trace w ++ [LockRelease].
Proof. reflexivity. Qed.

(** ** [removeDirectory] on a path that is not there *)

(** C6. On a path that does not exist [removeDirectory] returns, whatever
    [ignore_errors] is: the file system is as before and the only calls made
    are those that take and release the lock. *)
Theorem removeDirectory_missing_path (path : string) (ignore_errors : bool)
    (w : World) :
  lock_free w ->
  fs w !! path = None ->
  removeDirectory path ignore_errors w = (Ok tt, released (acquired w)) /\
  fs (released (acquired w)) = fs w /\
  file_lock (released (acquired w)) = Some false /\
  calls_made (removeDirectory path ignore_errors) w =
    lock_calls w ++ [LockRelease].
Proof.
  intros Hfree Hnone.
  assert (E : removeDirectory path ignore_errors w =
              (Ok tt, released (acquired w))).
  { unfold removeDirectory.
    match goal with |- contextmanager _ ?b _ = _ => set (body := b) end.
    assert (Hbody : body (acquired w) = (Ok tt, acquired w)).
    { unfold body. rewrite bind_run. unfold os_path_exists, get.
      rewrite fs_acquired, Hnone. reflexivity. }
    rewrite with_file_Lock_run;
      [rewrite Hbody; reflexivity|exact Hfree|rewrite Hbody; reflexivity]. }
  split; [exact E|]. split; [apply fs_acquired|]. split; [reflexivity|].
  apply calls_made_app. rewrite E. cbn [snd].
  rewrite trace_released, trace_acquired. symmetry. apply app_assoc.
Qed.

Lemma removeDirectory_missing_path_witness :
  removeDirectory "build" true empty_world =
    (Ok tt, released (acquired empty_world)) /\
  removeDirectory "build" false empty_world =
    (Ok tt, released (acquired empty_world)).
Proof.
  split.
  - apply (removeDirectory_missing_path "build" true empty_world);
      [discriminate|reflexivity].
  - apply (removeDirectory_missing_path "build" false empty_world);
      [discriminate|reflexivity].
Defined.

(** ** [deleteFile] *)

(** What [os.unlink] does, by the entry it finds. *)
Lemma os_unlink_run p w :
  os_unlink p w =
  match fs w !! p with
  | None => (Raise (OSError ENOENT p), add_call (Unlink p) w)
  | Some n =>
      if is_dir n then (Raise (OSError EISDIR p), add_call (Unlink p) w)
      else match n_busy n with
           | O => (Ok tt, set_fs (delete p (fs w)) (add_call (Unlink p) w))
           | S b => (Raise (OSError EBUSY p),
                     set_fs (<[p := set_busy b n]> (fs w))
                            (add_call (Unlink p) w))
           end
  end.
Proof.
  unfold os_unlink. rewrite bind_run. simpl. rewrite bind_run.
  unfold lookup_node. simpl. destruct (fs w !! p) as [n|]; [|reflexivity].
  destruct (is_dir n); [reflexivity|]. rewrite bind_run. unfold touch_busy.
  destruct (n_busy n); reflexivity.
Qed.

Lemma os_unlink_trace p w :
  trace (os_unlink p w).2 = trace w ++ [Unlink p].
Proof.
  rewrite os_unlink_run. destruct (fs w !! p) as [n|]; [|reflexivity].
  destruct (is_dir n); [reflexivity|]. destruct (n_busy n); reflexivity.
Qed.

Lemma os_unlink_lock p w : file_lock (os_unlink p w).2 = file_lock w.
Proof. apply (frame_lock _ _ (proj2 (tame_os_unlink p w))). Qed.

Lemma lock_calls_no_unlink p w : Unlink p ∉ lock_calls w ++ [LockRelease].
Proof.
  unfold lock_calls. intros H.
  destruct (file_lock w); simpl in H;
    repeat (apply elem_of_cons in H as [H|H]; [discriminate|]);
    inversion H.
Qed.

(** C4. [deleteFile] calls [os.unlink] exactly when [must_exist] is set or
    the path is a regular file, and does nothing otherwise; on a path that
    does not exist it raises [ENOENT] exactly when [must_exist] is set. *)
Theorem deleteFile_unlink_iff (path : string) (must_exist : bool) (w : World) :
  lock_free w ->
  (Unlink path ∈ calls_made (deleteFile path must_exist) w <->
   must_exist = true \/ isfile_in w path = true) /\
  (must_exist = false -> isfile_in w path = false ->
   deleteFile path must_exist w = (Ok tt, released (acquired w))) /\
  (fs w !! path = None ->
   ((deleteFile path must_exist w).1 = Raise (OSError ENOENT path) <->
    must_exist = true)).
Proof.
  intros Hfree. unfold deleteFile.
  match goal with |- context [contextmanager _ ?b] => set (body := b) end.
  assert (Hskip : must_exist = false -> isfile_in w path = false ->
                  body (acquired w) = (Ok tt, acquired w)).
  { intros -> Hf. unfold body. rewrite bind_run. unfold os_path_isfile, get.
    unfold isfile_in in Hf. rewrite fs_acquired, Hf. reflexivity. }
  assert (Hcall : must_exist = true \/ isfile_in w path = true ->
                  body (acquired w) = os_unlink path (acquired w)).
  { intros H. unfold body. rewrite bind_run.
    destruct must_exist; [reflexivity|]. destruct H as [H|H]; [discriminate|].
    unfold os_path_isfile, get. unfold isfile_in in H.
    rewrite fs_acquired, H. reflexivity. }
  assert (Hlock : file_lock (body (acquired w)).2 = Some true).
  { destruct must_exist eqn:Em; [|destruct (isfile_in w path) eqn:Ef].
    - rewrite Hcall by auto. apply os_unlink_lock.
    - rewrite Hcall by auto. apply os_unlink_lock.
    - rewrite Hskip by auto. reflexivity. }
  rewrite (with_file_Lock_run body w Hfree Hlock).
  split; [|split].
  - split.
    + intros Hin. destruct must_exist; [auto|].
      destruct (isfile_in w path) eqn:Ef; [auto|]. exfalso.
      revert Hin. erewrite calls_made_app.
      * apply (lock_calls_no_unlink path w).
      * rewrite (with_file_Lock_run body w Hfree Hlock), Hskip by auto.
        cbn [snd]. rewrite trace_released, trace_acquired.
        symmetry. apply app_assoc.
    + intros H. specialize (Hcall H).
      pose proof (os_unlink_trace path (acquired w)) as Ht.
      rewrite trace_acquired in Ht.
      assert (Hex : exists rest, trace (contextmanager _with_file_Lock body w).2
                      = trace w ++ lock_calls w ++ Unlink path :: rest).
      { rewrite (with_file_Lock_run body w Hfree Hlock), Hcall.
        destruct (os_unlink path (acquired w)) as [[[]| | |] w'];
          cbn [snd] in *; [exists [LockRelease]; rewrite trace_released|
                           exists []..];
          rewrite Ht, <- ?app_assoc; reflexivity. }
      destruct Hex as [rest Hex]. rewrite (calls_made_app _ _ _ Hex).
      apply elem_of_app. right. apply elem_of_cons. left. reflexivity.
  - intros Hm Hf. rewrite Hskip by assumption. reflexivity.
  - intros Hnone.
    assert (Hf : isfile_in w path = false) by (unfold isfile_in; rewrite Hnone; reflexivity).
    destruct must_exist.
    + rewrite Hcall by auto. rewrite os_unlink_run, fs_acquired, Hnone. simpl.
      tauto.
    + rewrite Hskip by auto. simpl. split; discriminate.
Qed.

Lemma deleteFile_unlink_iff_witness :
  Unlink "a.o" ∈ calls_made (deleteFile "a.o" true) empty_world /\
  (deleteFile "a.o" true empty_world).1 = Raise (OSError ENOENT "a.o") /\
  deleteFile "a.o" false empty_world = (Ok tt, released (acquired empty_world)).
Proof.
  assert (Hfree : lock_free empty_world) by discriminate.
  destruct (deleteFile_unlink_iff "a.o" true empty_world Hfree) as (H1 & _ & H3).
  destruct (deleteFile_unlink_iff "a.o" false empty_world Hfree) as (_ & H2 & _).
  split; [apply H1; left; reflexivity|].
  split; [apply H3; reflexivity|apply H2; reflexivity].
Defined.

(** ** The lock after an error *)

(** When the body raises, the lock stays held. *)
Lemma with_file_Lock_raise {A} (body : M A) w e w' :
  lock_free w ->
  body (acquired w) = (Raise e, w') ->
  contextmanager _with_file_Lock body w = (Raise e, w').
Proof.
  intros Hfree Hbody. unfold contextmanager.
  rewrite (bind_ok _ _ _ _ _ (before_yield_run w Hfree)), Hbody. reflexivity.
Qed.

Lemma deleteFile_missing_keeps_lock path w :
  lock_free w -> fs w !! path = None ->
  deleteFile path true w =
    (Raise (OSError ENOENT path), add_call (Unlink path) (acquired w)) /\
  file_lock (deleteFile path true w).2 = Some true.
Proof.
  intros Hfree Hnone.
  assert (E : deleteFile path true w =
              (Raise (OSError ENOENT path), add_call (Unlink path) (acquired w))).
  { unfold deleteFile. apply with_file_Lock_raise; [exact Hfree|].
    rewrite bind_run. simpl. rewrite os_unlink_run, fs_acquired, Hnone.
    reflexivity. }
  rewrite E. auto.
Qed.

Lemma lock_held_blocks w :
  file_lock w = Some true ->
  (forall p, makePath p w = (Blocked, w)) /\
  (forall p b, deleteFile p b w = (Blocked, w)) /\
  (forall p b, removeDirectory p b w = (Blocked, w)).
Proof.
  intros E. repeat split; intros; apply with_file_Lock_blocked, E.
Qed.

(** The lock is released when the operation returns. *)
Lemma lock_released_on_return w :
  lock_free w ->
  (forall p w', makePath p w = (Ok tt, w') -> lock_free w') /\
  (forall p b w', deleteFile p b w = (Ok tt, w') -> lock_free w') /\
  (forall p b w', removeDirectory p b w = (Ok tt, w') -> lock_free w').
Proof.
  intros Hfree.
  assert (H : forall (body : M unit) w',
            contextmanager _with_file_Lock body w = (Ok tt, w') ->
            lock_free w').
  { intros body w'. unfold contextmanager.
    rewrite (bind_ok _ _ _ _ _ (before_yield_run w Hfree)).
    destruct (body (acquired w)) as [[[]| | |] w1]; try discriminate.
    rewrite bind_run. simpl after_yield. rewrite bind_run. unfold get.
    destruct (file_lock w1) as [[]|] eqn:El; simpl; unfold Lock_release;
      rewrite ?El; simpl; intros H; inversion H; subst; unfold lock_free;
      simpl; congruence. }
  repeat split; intros; eapply H; eassumption.
Qed.

(** C2 fails on the code. [deleteFile] of a file that must exist and does
    not raises [ENOENT] with the lock still held, and the next operation
    under the lock, here [makePath], waits for it for ever. *)
Theorem deleteFile_error_leaves_lock_held :
  exists w',
    deleteFile "build/module.o" true build_world =
      (Raise (OSError ENOENT "build/module.o"), w') /\
    file_lock w' = Some true /\
    trace w' = [LockNew; LockAcquire; Unlink "build/module.o"] /\
    makePath "build/static" w' = (Blocked, w').
Proof.
  eexists. split; [vm_compute; reflexivity|].
  split; [reflexivity|]. split; reflexivity.
Qed.

(** ** [onError] *)

(** [onError] call by call: the second call of [func] is made whatever the
    first one did; only the sleep depends on it. *)
Lemma onError_run func path exc_info w :
  onError func path exc_info w =
  match func path w with
  | (Ok tt, w1) => func path w1
  | (Raise (OSError c f), w1) => func path (add_call (Sleep 100) w1)
  | r => r
  end.
Proof.
  unfold onError. rewrite bind_run. unfold try_OSError.
  destruct (func path w) as [[[]|[c f|]| |] w1]; reflexivity.
Qed.

(** After a retry that deleted the file, [onError] deletes again and
    fails. *)
Lemma onError_after_successful_retry path exc_info w w1 :
  os_remove path w = (Ok tt, w1) ->
  onError os_remove path exc_info w =
    (Raise (OSError ENOENT path), add_call (Unlink path) w1).
Proof.
  intros H. rewrite onError_run, H. unfold os_remove in *.
  rewrite os_unlink_run in *.
  destruct (fs w !! path) as [n|]; [|discriminate].
  destruct (is_dir n); [discriminate|]. destruct (n_busy n); [|discriminate].
  inversion H; subst w1. simpl. rewrite lookup_delete_eq. reflexivity.
Qed.

(** C1 fails on the code. A file whose delete fails once: the immediate
    retry in [onError] deletes it, [onError] then deletes it a third time
    without sleeping, and the [ENOENT] of that call leaves [removeDirectory],
    the directory still there. *)
Theorem onError_retries_after_success :
  exists w',
    removeDirectory "d" false (busy_world 1) =
      (Raise (OSError ENOENT "d/f"), w') /\
    trace w' = [LockNew; LockAcquire; Listdir "d"; Lstat "d/f";
                Unlink "d/f"; Unlink "d/f"; Unlink "d/f"] /\
    fs w' = {[ "d" := new_directory ]}.
Proof.
  eexists. split; [vm_compute; reflexivity|]. split; reflexivity.
Qed.

(** The design at work: two failures, then success. *)
Example removeDirectory_two_failures :
  exists w',
    removeDirectory "d" false (busy_world 2) = (Ok tt, w') /\
    trace w' = [LockNew; LockAcquire; Listdir "d"; Lstat "d/f";
                Unlink "d/f"; Unlink "d/f"; Sleep 100; Unlink "d/f";
                Rmdir "d"; LockRelease] /\
    fs w' = ∅.
Proof.
  eexists. split; [vm_compute; reflexivity|]. split; reflexivity.
Qed.

(** ** [removeDirectory] when the first pass fails *)



(** ** [renameFile] *)

Lemma chmod_of_st_mode n :
  N.land (st_mode n) PERM_BITS = N.land (n_mode n) PERM_BITS.
Proof.
  unfold st_mode. rewrite N.land_lor_distr_l.
  rewrite <- N.land_assoc, N.land_diag.
  destruct (n_kind n); reflexivity.
Qed.

Lemma os_stat_run p w :
  os_stat p w =
  match fs w !! p with
  | Some n => (Ok (st_mode n), add_call (Stat p) w)
  | None => (Raise (OSError ENOENT p), add_call (Stat p) w)
  end.
Proof.
  unfold os_stat. rewrite bind_run. simpl. rewrite bind_run.
  unfold lookup_node. simpl. destruct (fs w !! p); reflexivity.
Qed.

Lemma os_chmod_run p mode w :
  os_chmod p mode w =
  match fs w !! p with
  | Some n =>
      if n_owned n
      then (Ok tt, set_fs (<[p := set_mode (N.land mode PERM_BITS) n]> (fs w))
                          (add_call (Chmod p mode) w))
      else (Raise (OSError EPERM p), add_call (Chmod p mode) w)
  | None => (Raise (OSError ENOENT p), add_call (Chmod p mode) w)
  end.
Proof.
  unfold os_chmod. rewrite bind_run. simpl. rewrite bind_run.
  unfold lookup_node. simpl. destruct (fs w !! p) as [n|]; [|reflexivity].
  destruct (n_owned n); reflexivity.
Qed.

Lemma strip_prefix_app p r : Str.strip_prefix p (p +:+ r) = Some r.
Proof. induction p; simpl; [|rewrite Ascii.eqb_refl]; auto. Qed.

Lemma rename_fs_dst src dst n f : rename_fs src dst n f !! dst = Some n.
Proof. apply lookup_insert_eq. Qed.

Lemma rename_fs_src src dst n f :
  src <> dst -> under dst src = false -> rename_fs src dst n f !! src = None.
Proof.
  intros Hne Hu. unfold rename_fs. rewrite lookup_insert_ne by congruence.
  apply lookup_union_None. split.
  - apply not_elem_of_list_to_map_1. intros Hin.
    apply list_elem_of_fmap in Hin as ([k v] & Hk & Hin). simpl in Hk.
    unfold moved in Hin. apply list_elem_of_omap in Hin as ([k0 v0] & _ & H).
    simpl in H.
    destruct (Str.strip_prefix (dir_prefix src) k0) as [rest|]; [|discriminate].
    inversion H as [[Hk' Hv]]. clear H.
    unfold under in Hu. apply orb_false_iff in Hu as [_ Hu].
    rewrite Hk, <- Hk', strip_prefix_app in Hu. discriminate.
  - apply map_lookup_filter_None. right. intros x _ [Hs _]. simpl in Hs.
    unfold under in Hs. rewrite String.eqb_refl in Hs. discriminate.
Qed.

Ltac break_match :=
  match goal with
  | H : context [match ?x with _ => _ end] |- _ =>
      destruct x eqn:?; simpl in H; try discriminate H
  end.

(** A rename that succeeds between two paths moved the entry. *)
Lemma os_rename_ok src dst w w' :
  src <> dst ->
  os_rename src dst w = (Ok tt, w') ->
  exists n, fs w !! src = Some n /\ under dst src = false /\
            fs w' = rename_fs src dst n (fs w).
Proof.
  intros Hne H. apply String.eqb_neq in Hne.
  unfold os_rename in H. rewrite bind_run in H. simpl in H.
  rewrite bind_run in H. unfold lookup_node in H. simpl in H.
  destruct (fs w !! src) as [n|] eqn:En; [|discriminate].
  exists n. split; [reflexivity|]. rewrite Hne in H.
  rewrite bind_run in H. simpl in H.
  destruct (negb (String.eqb _ _)); [discriminate|].
  destruct (under src dst); [discriminate|].
  destruct (under dst src); [discriminate|]. split; [reflexivity|].
  rewrite bind_run in H. unfold touch_busy in H.
  destruct (n_busy n); [|discriminate]. simpl in H.
  destruct (fs w !! dst) as [d|].
  - unfold_M. destruct (os_name w); try discriminate;
      repeat break_match; simplify_eq/=; reflexivity.
  - unfold check_parent in H. unfold_M.
    repeat break_match; simplify_eq/=; reflexivity.
Qed.

(** A rename that fails leaves every entry where it was, the source one
    failure less busy at most. *)
Lemma os_rename_raise src dst w e w' :
  os_rename src dst w = (Raise e, w') ->
  fs w' = fs w \/
  exists n b, fs w !! src = Some n /\ fs w' = <[src := set_busy b n]> (fs w).
Proof.
  intros H.
  unfold os_rename in H. rewrite bind_run in H. simpl in H.
  rewrite bind_run in H. unfold lookup_node in H. simpl in H.
  destruct (fs w !! src) as [n|] eqn:En; [|inversion H; auto].
  destruct (String.eqb src dst); [discriminate|].
  rewrite bind_run in H. simpl in H.
  destruct (negb (String.eqb _ _)); [inversion H; auto|].
  destruct (under src dst); [inversion H; auto|].
  destruct (under dst src); [inversion H; auto|].
  rewrite bind_run in H. unfold touch_busy in H.
  destruct (n_busy n) as [|b].
  - simpl in H. left. destruct (fs w !! dst) as [d|].
    + unfold_M. destruct (os_name w); repeat break_match; simplify_eq/=;
        reflexivity.
    + unfold check_parent in H. unfold_M.
      repeat break_match; simplify_eq/=; reflexivity.
  - right. exists n, b. split; [reflexivity|].
    rewrite bind_run in H. simpl in H. inversion H. reflexivity.
Qed.

Lemma shutil_copyfile_ok src dst w w' :
  shutil_copyfile src dst w = (Ok tt, w') ->
  src <> dst /\
  exists n d, fs w !! src = Some n /\ is_dir n = false /\
              fs w' = <[dst := d]> (fs w) /\
              n_data d = n_data n /\ n_kind d = RegularFile.
Proof.
  intros H. unfold shutil_copyfile in H. rewrite bind_run in H. simpl in H.
  destruct (String.eqb src dst) eqn:Ene; [discriminate|].
  apply String.eqb_neq in Ene. split; [exact Ene|].
  rewrite bind_run in H. unfold lookup_node in H. simpl in H.
  destruct (fs w !! src) as [n|] eqn:En; [|discriminate].
  destruct (is_dir n) eqn:Edir; [discriminate|].
  rewrite bind_run in H. simpl in H.
  destruct (fs w !! dst) as [d|] eqn:Ed.
  - assert (Ek : n_kind d = RegularFile).
    { unfold is_dir in H. destruct (n_kind d); [reflexivity|discriminate]. }
    unfold is_dir in H. rewrite Ek in H. inversion H.
    exists n, (set_data (n_data n) d). repeat split; auto.
  - unfold check_parent in H. unfold_M.
    exists n, (new_file (n_data n)).
    repeat break_match; simplify_eq/=; repeat split; auto.
Qed.

Lemma os_unlink_ok p w w' :
  os_unlink p w = (Ok tt, w') -> fs w' = delete p (fs w).
Proof.
  rewrite os_unlink_run. intros H. repeat break_match.
  inversion H. reflexivity.
Qed.

Lemma os_chmod_ok p mode w w' :
  os_chmod p mode w = (Ok tt, w') ->
  exists n, fs w !! p = Some n /\
            fs w' = <[p := set_mode (N.land mode PERM_BITS) n]> (fs w).
Proof.
  rewrite os_chmod_run. intros H. repeat break_match.
  inversion H. eauto.
Qed.

(** ** What [renameFile] adds to the trace *)

Lemma silent_appends {A} (m : M A) : silent m -> appends m.
Proof. intros H w. exists []. rewrite H. symmetry. apply app_nil_r. Qed.

Lemma silent_bind {A B} (m : M A) (k : A -> M B) :
  silent m -> (forall a, silent (k a)) -> silent (m ≫= k).
Proof.
  intros Hm Hk w. rewrite bind_run. specialize (Hm w).
  destruct (m w) as [[a| | |] w1]; simpl in *; [|assumption..].
  rewrite Hk. exact Hm.
Qed.

Lemma appends_bind {A B} (m : M A) (k : A -> M B) :
  appends m -> (forall a, appends (k a)) -> appends (m ≫= k).
Proof.
  intros Hm Hk w. rewrite bind_run. destruct (Hm w) as [c1 H1].
  destruct (m w) as [[a| | |] w1]; simpl in *; eauto.
  destruct (Hk a w1) as [c2 H2]. exists (c1 ++ c2).
  rewrite H2, H1. symmetry. apply app_assoc.
Qed.

Lemma appends_try {A} (m : M A) (h : exn -> M A) :
  appends m -> (forall e, appends (h e)) -> appends (try_OSError m h).
Proof.
  intros Hm Hh w. unfold try_OSError. destruct (Hm w) as [c1 H1].
  destruct (m w) as [[a|[c f|]| |] w1]; simpl in *; eauto.
  destruct (Hh (OSError c f) w1) as [c2 H2]. exists (c1 ++ c2).
  rewrite H2, H1. symmetry. apply app_assoc.
Qed.

Lemma appends_log {B} c (k : M B) : silent k -> appends (log c ;; k).
Proof.
  intros Hk w. rewrite bind_run. simpl. exists [c]. rewrite Hk. reflexivity.
Qed.

Lemma silent_ret {A} (a : A) : silent (mret a).
Proof. intros w. reflexivity. Qed.
Lemma silent_raise {A} e : silent (raise (A:=A) e).
Proof. intros w. reflexivity. Qed.
Lemma silent_get {A} (f : World -> A) : silent (get f).
Proof. intros w. reflexivity. Qed.
Lemma silent_update_fs f : silent (update_fs f).
Proof. intros w. reflexivity. Qed.
Lemma silent_lookup_node p : silent (lookup_node p).
Proof. intros w. unfold lookup_node. destruct (fs w !! p); reflexivity. Qed.
Lemma silent_touch_busy p n : silent (touch_busy p n).
Proof. intros w. unfold touch_busy. destruct (n_busy n); reflexivity. Qed.
Lemma silent_check_parent p : silent (check_parent p).
Proof.
  intros w. unfold check_parent.
  destruct (Str.is_empty _); [reflexivity|].
  destruct (fs w !! _) as [d|]; [destruct (is_dir d)|]; reflexivity.
Qed.

Create HintDb silent.
#[local] Hint Resolve silent_ret silent_raise silent_get silent_update_fs
  silent_lookup_node silent_touch_busy silent_check_parent : silent.

Ltac silent :=
  repeat first
    [ progress eauto with silent
    | apply silent_bind; [|intros ?]
    | match goal with
      | |- silent (if ?b then _ else _) => destruct b
      | |- silent (match ?x with _ => _ end) => destruct x
      end ].

Lemma appends_os_stat p : appends (os_stat p).
Proof. apply appends_log. silent. Qed.
Lemma appends_os_unlink p : appends (os_unlink p).
Proof. apply appends_log. silent. Qed.
Lemma appends_os_chmod p mode : appends (os_chmod p mode).
Proof. apply appends_log. silent. Qed.
Lemma appends_shutil_copyfile src dst : appends (shutil_copyfile src dst).
Proof. apply appends_log. silent. Qed.
Lemma appends_os_rename src dst : appends (os_rename src dst).
Proof. apply appends_log. silent. Qed.




(** ** The order of [sorted] *)

Lemma string_compare_refl s : String.compare s s = Eq.
Proof.
  induction s as [|a s IH]; simpl; [reflexivity|].
  unfold Ascii.compare. rewrite N.compare_refl. exact IH.
Qed.

Lemma string_compare_lt_gt a b :
  String.compare a b = Lt -> String.compare b a = Gt.
Proof. intros H. rewrite String.compare_antisym, H. reflexivity. Qed.

Lemma string_leb_trans a b c :
  String.leb a b = true -> String.leb b c = true -> String.leb a c = true.
Proof.
  intros H1 H2. apply Is_true_true.
  apply (transitivity (R:=String.le) (y:=b)); apply Is_true_true; assumption.
Qed.

Lemma string_lt_leb a b : String.compare a b = Lt -> String.leb a b = true.
Proof. unfold String.leb. intros ->. reflexivity. Qed.

Lemma string_lt_trans a b c :
  String.compare a b = Lt -> String.compare b c = Lt ->
  String.compare a c = Lt.
Proof.
  intros H1 H2.
  pose proof (string_leb_trans a b c (string_lt_leb _ _ H1) (string_lt_leb _ _ H2)) as H.
  unfold String.leb in H. destruct (String.compare a c) eqn:E;
    [|reflexivity|discriminate].
  apply String.compare_eq_iff in E. subst c.
  apply string_compare_lt_gt in H1. congruence.
Qed.

Lemma tuple_leb_cases a b :
  tuple_leb a b = true <->
  String.compare a.1 b.1 = Lt \/ (a.1 = b.1 /\ String.leb a.2 b.2 = true).
Proof.
  unfold tuple_leb, String.ltb. split.
  - intros H. apply orb_true_iff in H as [H|H].
    + left. destruct (String.compare a.1 b.1); congruence.
    + right. apply andb_true_iff in H as [H1 H2].
      apply String.eqb_eq in H1. auto.
  - intros [H|[H1 H2]].
    + rewrite H. reflexivity.
    + apply String.eqb_eq in H1. rewrite H1, H2. apply orb_true_r.
Qed.

#[global] Instance tuple_le_total : Total tuple_le.
Proof.
  intros a b. unfold tuple_le. rewrite !tuple_leb_cases.
  destruct (String.compare a.1 b.1) eqn:E.
  - apply String.compare_eq_iff in E.
    destruct (String.leb_total a.2 b.2); auto.
  - auto.
  - right. left. rewrite String.compare_antisym, E. reflexivity.
Qed.

#[global] Instance tuple_le_trans : Transitive tuple_le.
Proof.
  intros a b c. unfold tuple_le. rewrite !tuple_leb_cases.
  intros [H1|[H1 H1']] [H2|[H2 H2']].
  - left. eapply string_lt_trans; eassumption.
  - left. congruence.
  - left. congruence.
  - right. split; [congruence|]. eapply string_leb_trans; eassumption.
Qed.

#[global] Instance tuple_le_antisym : AntiSymm eq tuple_le.
Proof.
  intros [a1 a2] [b1 b2]. unfold tuple_le. rewrite !tuple_leb_cases. simpl.
  intros [H1|[H1 H1']] [H2|[H2 H2']].
  - apply string_compare_lt_gt in H1. congruence.
  - subst. rewrite string_compare_refl in H1. discriminate.
  - subst. rewrite string_compare_refl in H2. discriminate.
  - subst. f_equal. apply String.leb_antisym; assumption.
Qed.

(** Whatever the order of the items, [sorted] returns the same list. *)
Lemma sorted_permutation l1 l2 : l1 ≡ₚ l2 -> sorted l1 = sorted l2.
Proof.
  intros H. unfold sorted.
  apply (StronglySorted_unique tuple_le);
    try apply (StronglySorted_merge_sort tuple_le).
  rewrite !merge_sort_Permutation. exact H.
Qed.

(** ** [listDir] *)

Lemma child_name_join d name :
  name <> "" -> Str.contains posixpath.sep name = false ->
  child_name d (posixpath.join d name) = Some name.
Proof.
  intros Hn Hc. unfold child_name.
  rewrite join_plain by (apply contains_startswith, Hc).
  rewrite strip_prefix_app, Hc. destruct name; [contradiction|reflexivity].
Qed.

Lemma elem_of_children d f name :
  name ∈ children d f <->
  name <> "" /\ Str.contains posixpath.sep name = false /\
  is_Some (f !! posixpath.join d name).
Proof.
  unfold children. rewrite list_elem_of_omap. split.
  - intros ([k v] & Hin & Hc). simpl in Hc.
    apply elem_of_map_to_list in Hin.
    apply child_name_spec in Hc as (-> & Hn & Hs). eauto.
  - intros (Hn & Hs & [v Hv]). exists (posixpath.join d name, v).
    split; [apply elem_of_map_to_list, Hv|]. simpl.
    apply child_name_join; assumption.
Qed.

(** C9. For a directory [listDir] returns the pairs of full path and name
    of the entries directly inside it, in ascending order of the pairs; the
    list does not depend on the order in which [os.listdir] names the
    entries, and a second call returns the same list. *)
Theorem listDir_sorted_children (path : string) (w : World) (n : node) :
  fs w !! path = Some n -> is_dir n = true ->
  exists l,
    listDir path w = (Ok l, add_call (Listdir path) w) /\
    l ≡ₚ entry_of path <$> children path (fs w) /\
    StronglySorted tuple_le l /\
    (forall full name,
       (full, name) ∈ l <->
       full = posixpath.join path name /\ name <> "" /\
       Str.contains posixpath.sep name = false /\ is_Some (fs w !! full)) /\
    (forall names,
       names ≡ₚ children path (fs w) -> sorted (entry_of path <$> names) = l) /\
    (listDir path (add_call (Listdir path) w)).1 = Ok l.
Proof.
  intros Hn Hd.
  assert (Hrun : forall w0, fs w0 = fs w ->
            listDir path w0 =
            (Ok (sorted (entry_of path <$> children path (fs w))),
             add_call (Listdir path) w0)).
  { intros w0 E. unfold listDir, os_listdir. rewrite !bind_run. simpl.
    rewrite bind_run. unfold lookup_node. simpl. rewrite E, Hn, Hd. simpl.
    rewrite E. reflexivity. }
  exists (sorted (entry_of path <$> children path (fs w))).
  assert (Hperm : sorted (entry_of path <$> children path (fs w)) ≡ₚ
                  entry_of path <$> children path (fs w))
    by apply merge_sort_Permutation.
  split; [apply Hrun; reflexivity|]. split; [exact Hperm|].
  split; [apply (StronglySorted_merge_sort tuple_le)|].
  split; [|split].
  - intros full name. rewrite Hperm, list_elem_of_fmap. split.
    + intros (name' & E & Hin). inversion E; subst name' full.
      apply elem_of_children in Hin as (H1 & H2 & H3). auto.
    + intros (-> & H1 & H2 & H3). exists name. split; [reflexivity|].
      apply elem_of_children. auto.
  - intros names Hp. apply sorted_permutation. rewrite Hp. reflexivity.
  - rewrite Hrun by reflexivity. reflexivity.
Qed.

Lemma listDir_sorted_children_witness :
  exists l,
    listDir "site" site_world = (Ok l, add_call (Listdir "site") site_world) /\
    l = [("site/abc.py", "abc.py"); ("site/json", "json");
         ("site/os.py", "os.py")].
Proof.
  destruct (listDir_sorted_children "site" site_world new_directory)
    as (l & Hl & _); [reflexivity..|].
  exists l. split; [exact Hl|].
  apply (f_equal fst) in Hl. vm_compute in Hl. congruence.
Defined.

(** ** [areSamePaths] *)

Lemma areSamePaths_refl os cwd p : areSamePaths os cwd p p = true.
Proof. unfold areSamePaths. apply String.eqb_refl. Qed.

Lemma split_plain s :
  Forall (fun x => x = "" \/ plain x) (Str.split sep s).
Proof.
  induction s as [|a s IH]; simpl.
  - constructor; [auto|constructor].
  - destruct (Ascii.eqb a sep) eqn:Ea; [constructor; auto|].
    pose proof (split_not_nil sep s) as Hn.
    destruct (Str.split sep s) as [|x l]; [contradiction|].
    inversion IH; subst. constructor; [|assumption].
    right. split; [discriminate|exact Ea].
Qed.

Lemma norm_step_plain i acc comp :
  Forall plain acc -> comp = "" \/ plain comp ->
  Forall plain (norm_step i acc comp).
Proof.
  intros Hacc Hc. unfold norm_step.
  destruct (String.eqb comp "") eqn:E1; [exact Hacc|].
  destruct Hc as [->|Hc]; [discriminate|].
  destruct (String.eqb comp "."); [exact Hacc|]. simpl.
  destruct (_ || _).
  - apply Forall_app. split; [exact Hacc|]. constructor; [exact Hc|constructor].
  - destruct (negb (is_nil acc)); [|exact Hacc].
    clear -Hacc. induction Hacc as [|x l Hx Hl IH]; [constructor|].
    simpl. destruct l; [constructor|]. constructor; assumption.
Qed.

Lemma fold_norm_step_plain i l acc :
  Forall plain acc -> Forall (fun x => x = "" \/ plain x) l ->
  Forall plain (fold_left (norm_step i) l acc).
Proof.
  intros Hacc Hl. revert acc Hacc.
  induction Hl as [|x l Hx Hl IH]; intros acc Hacc; simpl; [exact Hacc|].
  apply IH, norm_step_plain; assumption.
Qed.

Lemma join_plain_start l :
  Forall plain l -> Str.startswith sep (Str.join sep l) = false.
Proof.
  intros H. destruct H as [|x l [Hx Hs] Hl]; [reflexivity|].
  simpl. destruct l; [exact Hs|].
  destruct x; [contradiction|exact Hs].
Qed.

Lemma isabs_normpath p : isabs (normpath p) = isabs p.
Proof.
  unfold normpath, isabs. destruct p as [|a p]; [reflexivity|].
  cbn [Str.is_empty]. cbv iota.
  set (comps := fold_left _ _ _).
  assert (Hc : Forall plain comps).
  { apply fold_norm_step_plain; [apply List.Forall_nil|apply split_plain]. }
  apply join_plain_start in Hc.
  destruct (Ascii.eqb a sep) eqn:Ea.
  - assert (Hi : exists k, initial_slashes (String a p) = S k).
    { simpl. rewrite Ea. destruct p as [|b [|c p]]; simpl;
        repeat match goal with |- context [if ?x then _ else _] => destruct x end;
        eauto. }
    destruct Hi as [k ->]. simpl. rewrite ?Ascii.eqb_refl, Ea. reflexivity.
  - assert (Hi : initial_slashes (String a p) = 0).
    { simpl. rewrite Ea. destruct p as [|b [|c p]]; reflexivity. }
    rewrite Hi. simpl. rewrite Ea.
    destruct (Str.join sep comps) eqn:Ej; [reflexivity|exact Hc].
Qed.

Lemma abspath_absolute cwd p : isabs p = true -> abspath cwd p = normpath p.
Proof. intros H. unfold abspath. rewrite H. reflexivity. Qed.

Lemma lower_replace_char c :
  Str.lower_char (Str.replace_char ntpath.altsep ntpath.sep c) =
  Str.replace_char ntpath.altsep ntpath.sep (Str.lower_char c).
Proof. destruct c as [[] [] [] [] [] [] [] []]; reflexivity. Qed.

Lemma normcase_of_lower s :
  ntpath.normcase s =
  Str.map (Str.replace_char ntpath.altsep ntpath.sep) (Str.lower s).
Proof.
  unfold ntpath.normcase, Str.lower. induction s as [|a s IH]; simpl.
  - reflexivity.
  - rewrite lower_replace_char. f_equal. exact IH.
Qed.

(** Paths that differ in the case of letters only have one [normcase] on
    Windows. *)
Lemma ntpath_normcase_caseless x y :
  Str.lower x = Str.lower y -> ntpath.normcase x = ntpath.normcase y.
Proof. intros H. rewrite !normcase_of_lower, H. reflexivity. Qed.

Lemma areSamePaths_trailing_seps cwd p j k :
  has_name p ->
  areSamePaths posix cwd (p +:+ slashes j) (p +:+ slashes k) = true.
Proof.
  intros Hp. unfold areSamePaths, slashes. simpl.
  rewrite !normpath_trailing_seps by exact Hp. apply String.eqb_refl.
Qed.

Lemma areSamePaths_absolute cwd cwd' p q :
  isabs p = true -> isabs q = true ->
  areSamePaths posix cwd p q = areSamePaths posix cwd' p q.
Proof.
  intros Hp Hq. unfold areSamePaths. simpl.
  rewrite !abspath_absolute by (rewrite isabs_normpath; assumption).
  reflexivity.
Qed.




(** ** [deleteFile]: what is left alone *)

Lemma deleteFile_unfold path must_exist :
  deleteFile path must_exist =
  contextmanager _with_file_Lock (deleteFile_body path must_exist).
Proof. reflexivity. Qed.

Lemma makePath_unfold path :
  makePath path = contextmanager _with_file_Lock (makePath_body path).
Proof. reflexivity. Qed.

Lemma removeDirectory_unfold path ignore_errors :
  removeDirectory path ignore_errors =
  contextmanager _with_file_Lock (removeDirectory_body path ignore_errors).
Proof. reflexivity. Qed.

(** Under the lock, whatever the body: blocked at once, or the body run with
    the lock taken. *)
Lemma with_file_Lock_cases {A} (body : M A) w :
  (file_lock w = Some true /\
   contextmanager _with_file_Lock body w = (Blocked, w)) \/
  (lock_free w /\
   contextmanager _with_file_Lock body w =
   match body (acquired w) with
   | (Ok a, w') => (after_yield _with_file_Lock ;; mret a) w'
   | r => r
   end).
Proof.
  destruct (file_lock w) as [[]|] eqn:E.
  - left. split; [reflexivity|]. apply with_file_Lock_blocked, E.
  - right. assert (Hfree : lock_free w) by (unfold lock_free; congruence).
    split; [exact Hfree|]. unfold contextmanager.
    rewrite (bind_ok _ _ _ _ _ (before_yield_run w Hfree)). reflexivity.
  - right. assert (Hfree : lock_free w) by (unfold lock_free; congruence).
    split; [exact Hfree|]. unfold contextmanager.
    rewrite (bind_ok _ _ _ _ _ (before_yield_run w Hfree)). reflexivity.
Qed.

(** The file system after the second half of [_with_file_Lock]. *)
Lemma after_yield_fs {A} (a : A) w :
  fs ((after_yield _with_file_Lock ;; mret a) w).2 = fs w.
Proof.
  rewrite bind_run. simpl after_yield. rewrite bind_run. unfold get.
  destruct (file_lock w) as [[]|] eqn:E; simpl; unfold Lock_release;
    rewrite ?E; reflexivity.
Qed.

Lemma deleteFile_body_run path must_exist w :
  deleteFile_body path must_exist w =
  if must_exist || isfile_in w path then os_unlink path w else (Ok tt, w).
Proof.
  unfold deleteFile_body. rewrite bind_run. destruct must_exist; [reflexivity|].
  unfold os_path_isfile, get, isfile_in. simpl.
  destruct (fs w !! path) as [n|]; [destruct (is_dir n)|]; reflexivity.
Qed.

Lemma os_unlink_others p q w :
  q <> p -> fs (os_unlink p w).2 !! q = fs w !! q.
Proof.
  intros Hne. rewrite os_unlink_run.
  destruct (fs w !! p) as [n|]; [|reflexivity].
  destruct (is_dir n); [reflexivity|]. destruct (n_busy n); simpl.
  - apply lookup_delete_ne. congruence.
  - apply lookup_insert_ne. congruence.
Qed.

Lemma os_unlink_directory p w n :
  fs w !! p = Some n -> is_dir n = true -> fs (os_unlink p w).2 = fs w.
Proof. intros Hn Hd. rewrite os_unlink_run, Hn, Hd. reflexivity. Qed.

(** The file system [deleteFile] leaves, whatever its outcome. *)
Lemma deleteFile_fs path must_exist w :
  fs (deleteFile path must_exist w).2 = fs w \/
  ((must_exist = true \/ isfile_in w path = true) /\
   fs (deleteFile path must_exist w).2 = fs (os_unlink path (acquired w)).2).
Proof.
  rewrite deleteFile_unfold.
  destruct (with_file_Lock_cases (deleteFile_body path must_exist) w)
    as [[_ ->]|[Hfree ->]];
    [left; reflexivity|].
  rewrite deleteFile_body_run.
  replace (isfile_in (acquired w) path) with (isfile_in w path)
    by (unfold isfile_in; rewrite fs_acquired; reflexivity).
  destruct (must_exist || isfile_in w path) eqn:Eb.
  - right. split; [apply orb_true_iff in Eb; exact Eb|].
    destruct (os_unlink path (acquired w)) as [[[]| | |] w1];
      try reflexivity. apply after_yield_fs.
  - left. rewrite after_yield_fs. apply fs_acquired.
Qed.

(** X5. [deleteFile] changes no entry but the one of [path], and does not
    remove a directory: whatever the flag and the outcome, all other entries,
    and [path] itself when it is a directory, are as before. *)
Theorem deleteFile_touches_only_path (path : string) (must_exist : bool)
    (w : World) :
  (forall q, q <> path ->
     fs (deleteFile path must_exist w).2 !! q = fs w !! q) /\
  (forall n, fs w !! path = Some n -> is_dir n = true ->
     fs (deleteFile path must_exist w).2 = fs w).
Proof.
  destruct (deleteFile_fs path must_exist w) as [E|[_ E]]; rewrite E.
  - auto.
  - split.
    + intros q Hq. rewrite os_unlink_others by exact Hq.
      rewrite fs_acquired. reflexivity.
    + intros n Hn Hd. rewrite <- (fs_acquired w) in Hn.
      rewrite (os_unlink_directory _ _ _ Hn Hd). apply fs_acquired.
Qed.

Lemma deleteFile_touches_only_path_witness :
  fs (deleteFile "build" true build_world).2 = fs build_world /\
  fs (deleteFile "gone" true build_world).2 !! "build" =
    fs build_world !! "build".
Proof.
  destruct (deleteFile_touches_only_path "build" true build_world) as [_ H].
  destruct (deleteFile_touches_only_path "gone" true build_world) as [H' _].
  split; [apply (H new_directory); reflexivity|apply H'; discriminate].
Defined.

(** The file system and the lock when [deleteFile] has returned. *)
Lemma deleteFile_ok path must_exist w w' :
  deleteFile path must_exist w = (Ok tt, w') ->
  fs w' = (if isfile_in w path then delete path (fs w) else fs w) /\
  file_lock w' = Some false.
Proof.
  rewrite deleteFile_unfold. intros H.
  destruct (with_file_Lock_cases (deleteFile_body path must_exist) w)
    as [[_ E]|[Hfree E]];
    rewrite E in H; [discriminate|]. clear E.
  rewrite deleteFile_body_run in H.
  replace (isfile_in (acquired w) path) with (isfile_in w path) in H
    by (unfold isfile_in; rewrite fs_acquired; reflexivity).
  assert (Hrel : forall w1, file_lock w1 = Some true ->
            (after_yield _with_file_Lock ;; mret tt) w1 = (Ok tt, w') ->
            fs w' = fs w1 /\ file_lock w' = Some false).
  { intros w1 Hl Hr. rewrite (bind_ok _ _ _ _ _ (after_yield_run w1 Hl)) in Hr.
    inversion Hr. auto. }
  destruct (must_exist || isfile_in w path) eqn:Eb.
  - pose proof (os_unlink_lock path (acquired w)) as Hl.
    destruct (os_unlink path (acquired w)) as [[[]| | |] w1] eqn:Eu;
      try discriminate.
    destruct (Hrel w1 Hl H) as [Hfs Hlock].
    rewrite os_unlink_run, fs_acquired in Eu.
    unfold isfile_in in *. rewrite Hfs.
    destruct (fs w !! path) as [n|] eqn:En; [|discriminate].
    destruct (is_dir n); [discriminate|]. destruct (n_busy n); [|discriminate].
    inversion Eu. simpl. auto.
  - apply orb_false_iff in Eb as [_ Ef].
    destruct (Hrel (acquired w) eq_refl H) as [Hfs Hlock].
    rewrite Hfs, fs_acquired, Ef. auto.
Qed.

(** X6. When [deleteFile] returns, [path] is not a regular file: the file
    system is the one before without the file, or the one before when there
    was no file to delete. *)
Theorem deleteFile_returns_without_file (path : string) (must_exist : bool)
    (w w' : World) :
  deleteFile path must_exist w = (Ok tt, w') ->
  isfile_in w' path = false /\
  fs w' = (if isfile_in w path then delete path (fs w) else fs w) /\
  file_lock w' = Some false.
Proof.
  intros H. apply deleteFile_ok in H as [Hfs Hlock].
  split; [|split; assumption].
  unfold isfile_in in *. rewrite Hfs.
  destruct (fs w !! path) as [n|] eqn:En.
  - destruct (negb (is_dir n)) eqn:Ed.
    + rewrite lookup_delete_eq. reflexivity.
    + rewrite En. exact Ed.
  - rewrite En. reflexivity.
Qed.

Lemma deleteFile_returns_without_file_witness :
  exists w',
    deleteFile "src/run.sh" false volumes_world = (Ok tt, w') /\
    isfile_in w' "src/run.sh" = false /\
    fs w' = delete "src/run.sh" (fs volumes_world).
Proof.
  destruct (deleteFile "src/run.sh" false volumes_world) as [r w'] eqn:E.
  assert (Hr : r = Ok tt).
  { apply (f_equal fst) in E. vm_compute in E. symmetry. exact E. }
  subst r. exists w'. split; [reflexivity|].
  destruct (deleteFile_returns_without_file "src/run.sh" false volumes_world
              w' E) as (H1 & H2 & _).
  split; [exact H1|exact H2].
Defined.

(** ** [makePath] *)

Lemma split_head_shorter p :
  String.length (posixpath.split p).1 <= String.length p /\
  ((posixpath.split p).2 <> "" ->
   String.length (posixpath.split p).1 < String.length p).
Proof.
  pose proof (posix_split_cases p) as H.
  destruct (posixpath.split p) as [head tail]. simpl.
  destruct H as (_ & [(-> & ->)|[(_ & _ & ->)|(_ & _ & _ & k & ->)]]).
  - simpl. split; [lia|]. intros Ht. destruct tail; [contradiction|simpl; lia].
  - rewrite length_app_str. split; [lia|].
    intros Ht. destruct tail; [contradiction|simpl; lia].
  - rewrite length_app_str. simpl. lia.
Qed.

Lemma os_mkdir_run p w :
  settled (os_mkdir p w).1 /\
  file_lock (os_mkdir p w).2 = file_lock w /\
  forall w', os_mkdir p w = (Ok tt, w') ->
             fs w' = <[p := new_directory]> (fs w).
Proof.
  unfold os_mkdir. rewrite bind_run. simpl. rewrite bind_run.
  unfold os_path_exists, get. simpl.
  destruct (fs w !! p); [split; [exact I|split; [reflexivity|discriminate]]|].
  rewrite bind_run. unfold check_parent.
  destruct (Str.is_empty (posixpath.split p).1); simpl.
  - split; [exact I|]. split; [reflexivity|].
    intros w' H. inversion H. reflexivity.
  - destruct (fs w !! (posixpath.split p).1) as [d|];
      [destruct (is_dir d)|]; simpl;
      (split; [exact I|]); (split; [reflexivity|]);
      intros w' H; inversion H; reflexivity.
Qed.

Lemma makedirs_fuel_settled fuel : forall name w,
  String.length name < fuel ->
  settled (makedirs_fuel fuel name w).1 /\
  file_lock (makedirs_fuel fuel name w).2 = file_lock w.
Proof.
  induction fuel as [|fuel IH]; intros name w Hlen; [lia|].
  simpl. pose proof (split_head_shorter name) as [H1 H2].
  destruct (posixpath.split name) as [head tail]. simpl in H1, H2.
  assert (Hrec : forall head' tail',
            (if Str.is_empty tail then posixpath.split head else (head, tail))
              = (head', tail') ->
            tail' <> "" -> String.length head' < fuel).
  { intros head' tail' E Ht. destruct (Str.is_empty tail) eqn:Et.
    - pose proof (split_head_shorter head) as [_ H3]. rewrite E in H3.
      simpl in H3. specialize (H3 Ht). lia.
    - inversion E; subst. specialize (H2 Ht). lia. }
  destruct (if Str.is_empty tail then posixpath.split head else (head, tail))
    as [head' tail'].
  specialize (Hrec head' tail' eq_refl).
  assert (Hmk : forall w1, file_lock w1 = file_lock w ->
            settled (os_mkdir name w1).1 /\
            file_lock (os_mkdir name w1).2 = file_lock w).
  { intros w1 Hl. destruct (os_mkdir_run name w1) as (Hs & Hk & _).
    split; [exact Hs|congruence]. }
  rewrite bind_run.
  change (os_path_exists head' w)
    with (Ok (match fs w !! head' with Some _ => true | None => false end), w).
  cbv iota beta.
  destruct (negb (Str.is_empty head') && negb (Str.is_empty tail') && _)
    eqn:Ec.
  - assert (Ht : tail' <> "").
    { destruct tail'; [|discriminate].
      rewrite andb_false_r in Ec. discriminate. }
    destruct (IH head' w (Hrec Ht)) as [IHs IHl].
    rewrite bind_run. unfold try_OSError.
    destruct (makedirs_fuel fuel head' w) as [[[]|[c f|]| |] w1];
      simpl in IHs, IHl; try contradiction.
    + destruct (String.eqb tail' "."); [split; [exact I|exact IHl]|].
      apply Hmk, IHl.
    + destruct c; simpl; try (split; [exact I|exact IHl]).
      destruct (String.eqb tail' "."); [split; [exact I|exact IHl]|].
      apply Hmk, IHl.
  - apply Hmk. reflexivity.
Qed.

Lemma makedirs_fuel_ok fuel name w w' :
  makedirs_fuel fuel name w = (Ok tt, w') ->
  makedirs_leaf name <> "." ->
  fs w' !! name = Some new_directory.
Proof.
  destruct fuel as [|fuel]; [discriminate|]. simpl. unfold makedirs_leaf.
  destruct (posixpath.split name) as [head tail].
  assert (Hmk : forall w1, os_mkdir name w1 = (Ok tt, w') ->
                           fs w' !! name = Some new_directory).
  { intros w1 H. apply os_mkdir_run in H. rewrite H. apply lookup_insert_eq. }
  assert (Hleaf : forall head' tail',
            (if Str.is_empty tail then posixpath.split head else (head, tail))
              = (head', tail') ->
            (if Str.is_empty tail then (posixpath.split head).2 else tail)
              = tail').
  { intros head' tail' E. destruct (Str.is_empty tail).
    - rewrite E. reflexivity.
    - inversion E. reflexivity. }
  destruct (if Str.is_empty tail then posixpath.split head else (head, tail))
    as [head' tail'].
  rewrite (Hleaf head' tail' eq_refl).
  rewrite bind_run.
  change (os_path_exists head' w)
    with (Ok (match fs w !! head' with Some _ => true | None => false end), w).
  cbv iota beta.
  destruct (negb (Str.is_empty head') && negb (Str.is_empty tail') && _).
  - rewrite bind_run. intros H Hdot.
    destruct (try_OSError (makedirs_fuel fuel head') _ w)
      as [[[]| | |] w1]; try discriminate.
    apply String.eqb_neq in Hdot. rewrite Hdot in H. eapply Hmk, H.
  - intros H _. eapply Hmk, H.
Qed.

Lemma makePath_body_run path w :
  makePath_body path w =
  match fs w !! path with
  | Some n => if is_dir n then (Ok tt, w) else os_makedirs path w
  | None => os_makedirs path w
  end.
Proof.
  unfold makePath_body. rewrite bind_run. unfold os_path_isdir, get.
  destruct (fs w !! path) as [n|]; [destruct (is_dir n)|]; reflexivity.
Qed.

Lemma makePath_run_directory path w n :
  lock_free w ->
  fs w !! path = Some n -> is_dir n = true ->
  makePath path w = (Ok tt, released (acquired w)).
Proof.
  intros Hfree Hn Hd.
  assert (Hbody : makePath_body path (acquired w) = (Ok tt, acquired w)).
  { rewrite makePath_body_run, fs_acquired, Hn, Hd. reflexivity. }
  rewrite makePath_unfold, with_file_Lock_run;
    [rewrite Hbody; reflexivity|exact Hfree|rewrite Hbody; reflexivity].
Qed.



(** X3. With the lock free [makePath] returns or raises [OSError]; when it
    returns the path is a directory and the lock is free, and a second call
    returns as well and changes nothing. (A path whose last segment is ["."]
    is a key of its own in this file system, and is left out.) *)
Theorem makePath_makes_directory (path : string) (w : World) :
  lock_free w ->
  settled (makePath path w).1 /\
  forall w',
    makePath path w = (Ok tt, w') ->
    makedirs_leaf path <> "." ->
    (exists n, fs w' !! path = Some n /\ is_dir n = true) /\
    file_lock w' = Some false /\
    makePath path w' = (Ok tt, released (acquired w')) /\
    fs (released (acquired w')) = fs w'.
Proof.
  intros Hfree. rewrite makePath_unfold.
  destruct (with_file_Lock_cases (makePath_body path) w)
    as [[E _]|[_ ->]]; [contradiction|].
  assert (Hbody : settled (makePath_body path (acquired w)).1 /\
            file_lock (makePath_body path (acquired w)).2 = Some true /\
            forall w1, makePath_body path (acquired w) = (Ok tt, w1) ->
              makedirs_leaf path <> "." ->
              exists n, fs w1 !! path = Some n /\ is_dir n = true).
  { rewrite makePath_body_run, fs_acquired.
    assert (Hmk : settled (os_makedirs path (acquired w)).1 /\
              file_lock (os_makedirs path (acquired w)).2 = Some true /\
              forall w1, os_makedirs path (acquired w) = (Ok tt, w1) ->
                makedirs_leaf path <> "." ->
                exists n, fs w1 !! path = Some n /\ is_dir n = true).
    { destruct (makedirs_fuel_settled (S (String.length path)) path
                  (acquired w)) as [Hs Hl]; [lia|].
      split; [exact Hs|]. split; [exact Hl|].
      intros w1 H1 Hleaf. exists new_directory. split; [|reflexivity].
      eapply makedirs_fuel_ok; eassumption. }
    destruct (fs w !! path) as [n|] eqn:En; [destruct (is_dir n) eqn:Ed|];
      try exact Hmk.
    split; [exact I|]. split; [reflexivity|].
    intros w1 H1 _. inversion H1. rewrite fs_acquired. eauto. }
  destruct Hbody as (Hs & Hl & Hdir).
  destruct (makePath_body path (acquired w)) as [[[]|[c f|]| |] w1];
    simpl in Hs, Hl; try contradiction.
  - rewrite (bind_ok _ _ _ _ _ (after_yield_run w1 Hl)).
    split; [exact I|]. intros w' H Hleaf. inversion H; subst w'.
    destruct (Hdir w1 eq_refl Hleaf) as (n & Hn & Hd).
    split; [exists n; auto|]. split; [reflexivity|].
    split; [|apply fs_acquired].
    apply (makePath_run_directory path (released w1) n);
      [discriminate|exact Hn|exact Hd].
  - split; [exact I|discriminate].
Qed.

Lemma makePath_makes_directory_witness :
  exists w' n,
    makePath "out/pkg/data" tree_world = (Ok tt, w') /\
    fs w' !! "out/pkg/data" = Some n /\ is_dir n = true /\
    makePath "out/pkg/data" w' = (Ok tt, released (acquired w')).
Proof.
  destruct (makePath "out/pkg/data" tree_world) as [r w'] eqn:E.
  assert (Hr : r = Ok tt).
  { apply (f_equal fst) in E. vm_compute in E. symmetry. exact E. }
  subst r.
  destruct (makePath_makes_directory "out/pkg/data" tree_world) as [_ H];
    [discriminate|].
  destruct (H w') as ((n & Hn & Hd) & _ & H2 & _); [exact E|discriminate|].
  exists w', n. auto.
Defined.

(** *** [makePath] only adds *)

Lemma os_mkdir_keeps p w q n :
  fs w !! q = Some n -> fs (os_mkdir p w).2 !! q = Some n.
Proof.
  intros Hq. unfold os_mkdir. rewrite bind_run. simpl. rewrite bind_run.
  unfold os_path_exists, get. simpl.
  destruct (fs w !! p) eqn:Ep; [exact Hq|].
  rewrite bind_run. unfold check_parent.
  assert (Hins : <[p := new_directory]> (fs w) !! q = Some n).
  { rewrite lookup_insert_ne; [exact Hq|]. intros ->. congruence. }
  destruct (Str.is_empty (posixpath.split p).1); simpl; [exact Hins|].
  destruct (fs w !! (posixpath.split p).1) as [d|];
    [destruct (is_dir d)|]; simpl; assumption.
Qed.

Lemma makedirs_fuel_keeps fuel q n : forall name w,
  fs w !! q = Some n -> fs (makedirs_fuel fuel name w).2 !! q = Some n.
Proof.
  induction fuel as [|fuel IH]; intros name w Hq; [exact Hq|].
  simpl. destruct (posixpath.split name) as [head tail].
  destruct (if Str.is_empty tail then posixpath.split head else (head, tail))
    as [head' tail'].
  rewrite bind_run.
  change (os_path_exists head' w)
    with (Ok (match fs w !! head' with Some _ => true | None => false end), w).
  cbv iota beta.
  destruct (negb (Str.is_empty head') && negb (Str.is_empty tail') && _);
    [|apply os_mkdir_keeps, Hq].
  rewrite bind_run. unfold try_OSError. specialize (IH head' w Hq).
  destruct (makedirs_fuel fuel head' w) as [[[]|[c f|]| |] w1];
    simpl in IH; try exact IH.
  - destruct (String.eqb tail' "."); [exact IH|apply os_mkdir_keeps, IH].
  - destruct c; simpl; try exact IH.
    destruct (String.eqb tail' "."); [exact IH|apply os_mkdir_keeps, IH].
Qed.

(** X4. [makePath] removes and changes nothing: every entry of the file system
    is still there and the same afterwards, whatever the outcome. *)
Theorem makePath_keeps_entries (path : string) (w : World) (q : string)
    (n : node) :
  fs w !! q = Some n -> fs (makePath path w).2 !! q = Some n.
Proof.
  intros Hq. rewrite makePath_unfold.
  destruct (with_file_Lock_cases (makePath_body path) w)
    as [[_ ->]|[_ ->]]; [exact Hq|].
  assert (Hbody : fs (makePath_body path (acquired w)).2 !! q = Some n).
  { rewrite makePath_body_run, fs_acquired.
    assert (Hmk : fs (os_makedirs path (acquired w)).2 !! q = Some n).
    { apply makedirs_fuel_keeps. rewrite fs_acquired. exact Hq. }
    destruct (fs w !! path) as [m|]; [destruct (is_dir m)|]; try exact Hmk.
    cbn [snd]. rewrite fs_acquired. exact Hq. }
  destruct (makePath_body path (acquired w)) as [[[]| | |] w1];
    simpl in Hbody; try exact Hbody.
  rewrite after_yield_fs. exact Hbody.
Qed.

Lemma makePath_keeps_entries_witness :
  fs (makePath "src/run.sh/cache" volumes_world).2 !! "src/run.sh" =
    Some script.
Proof.
  apply (makePath_keeps_entries "src/run.sh/cache" volumes_world). reflexivity.
Defined.

(** ** [onError] on [os.remove] *)

(** X8. The handler returns in one case only: the file fails to go once more,
    and goes after the sleep. A file that goes at the immediate retry makes
    the handler raise [ENOENT]; one that is still held after the sleep,
    [EBUSY]. *)
Theorem onError_remove_outcomes (path : string) (exc_info : exn) (w : World)
    (n : node) :
  fs w !! path = Some n -> is_dir n = false ->
  let r := onError os_remove path exc_info w in
  match n_busy n with
  | 0 => r.1 = Raise (OSError ENOENT path) /\ fs r.2 = delete path (fs w)
  | 1 => r.1 = Ok tt /\ fs r.2 = delete path (fs w) /\
         calls_made (onError os_remove path exc_info) w =
           [Unlink path; Sleep 100; Unlink path]
  | S (S b) => r.1 = Raise (OSError EBUSY path) /\
               fs r.2 = <[path := set_busy b n]> (fs w)
  end.
Proof.
  intros Hn Hd.
  assert (Hk : forall b, is_dir (set_busy b n) = false) by (intros; exact Hd).
  assert (E : onError os_remove path exc_info w =
    match n_busy n with
    | 0 => (Raise (OSError ENOENT path),
            add_call (Unlink path)
              (set_fs (delete path (fs w)) (add_call (Unlink path) w)))
    | 1 => (Ok tt,
            set_fs (delete path (fs w))
              (add_call (Unlink path) (add_call (Sleep 100)
                 (set_fs (<[path := set_busy 0 n]> (fs w))
                    (add_call (Unlink path) w)))))
    | S (S b) => (Raise (OSError EBUSY path),
            set_fs (<[path := set_busy b n]> (fs w))
              (add_call (Unlink path) (add_call (Sleep 100)
                 (set_fs (<[path := set_busy (S b) n]> (fs w))
                    (add_call (Unlink path) w)))))
    end).
  { rewrite onError_run. unfold os_remove. rewrite os_unlink_run, Hn, Hd.
    destruct (n_busy n) as [|[|b]] eqn:Eb; rewrite os_unlink_run;
      cbn [fs set_fs add_call].
    - rewrite lookup_delete_eq. reflexivity.
    - rewrite lookup_insert_eq, Hk. cbn [n_busy set_busy].
      rewrite delete_insert_eq. reflexivity.
    - rewrite lookup_insert_eq, Hk. cbn [n_busy set_busy].
      rewrite insert_insert_eq. reflexivity. }
  cbv zeta. rewrite E.
  destruct (n_busy n) as [|[|b]] eqn:Eb; cbn [fst snd fs set_fs add_call];
    try (split; reflexivity).
  split; [reflexivity|]. split; [reflexivity|].
  apply calls_made_app. rewrite E. cbn [snd trace set_fs add_call].
  rewrite <- !app_assoc. reflexivity.
Qed.

Lemma onError_remove_outcomes_witness :
  (onError os_remove "d/f" RuntimeError (busy_world 1)).1 = Ok tt /\
  (onError os_remove "d/f" RuntimeError (busy_world 0)).1 =
    Raise (OSError ENOENT "d/f") /\
  (onError os_remove "d/f" RuntimeError (busy_world 2)).1 =
    Raise (OSError EBUSY "d/f").
Proof.
  pose proof (onError_remove_outcomes "d/f" RuntimeError (busy_world 1)
                (busy_file 1) eq_refl eq_refl) as H1.
  pose proof (onError_remove_outcomes "d/f" RuntimeError (busy_world 0)
                (busy_file 0) eq_refl eq_refl) as H0.
  pose proof (onError_remove_outcomes "d/f" RuntimeError (busy_world 2)
                (busy_file 2) eq_refl eq_refl) as H2.
  simpl in H0, H1, H2.
  split; [apply H1|]. split; [apply H0|apply H2].
Defined.

(** ** [removeDirectory]: its results *)

Lemma removeDirectory_body_tame path ignore_errors :
  tame (negb ignore_errors) (removeDirectory_body path ignore_errors).
Proof.
  unfold removeDirectory_body. apply tame_bind; [apply tame_get|].
  intros e. destruct e; [|apply tame_ret]. simpl when.
  apply tame_try.
  - intros w. apply shutil_rmtree_tame. intros h H. inversion H.
    apply tame_onError.
  - intros c f. destruct ignore_errors; simpl negb.
    + intros w. apply (shutil_rmtree_tame path true None). discriminate.
    + apply tame_raise.
Qed.



(** ** [removeDirectory]: the directory is gone *)

Lemma children_delete_self p f :
  children p f = [] -> children p (delete p f) = [].
Proof.
  intros H. apply elem_of_nil_inv. intros name Hin.
  apply elem_of_children in Hin as (Hn & Hc & [v Hv]).
  apply lookup_delete_Some in Hv as [_ Hv].
  assert (Hin : name ∈ children p f) by (apply elem_of_children; eauto).
  rewrite H in Hin. inversion Hin.
Qed.

Lemma os_rmdir_ok p w w' :
  os_rmdir p w = (Ok tt, w') ->
  fs w' = delete p (fs w) /\ children p (fs w) = [].
Proof.
  unfold os_rmdir. rewrite bind_run. simpl. rewrite bind_run.
  unfold lookup_node. simpl. destruct (fs w !! p) as [n|]; [|discriminate].
  destruct (negb (is_dir n)); [discriminate|]. rewrite bind_run. simpl.
  destruct (children p (fs w)) as [|name names]; [|discriminate]. simpl.
  rewrite bind_run. unfold touch_busy. destruct (n_busy n); [|discriminate].
  simpl. intros H. inversion H. auto.
Qed.

Lemma onError_ok func p e w w' :
  onError func p e w = (Ok tt, w') -> exists w1, func p w1 = (Ok tt, w').
Proof.
  rewrite onError_run.
  destruct (func p w) as [[[]|[c f|]| |] w1]; try discriminate; eauto.
Qed.

(** A walk that returns has removed the directory it was called on. *)
Lemma rmtree_walk_ok fuel path w w' :
  rmtree_walk fuel path onError w = (Ok tt, w') ->
  fs w' !! path = None /\ children path (fs w') = [].
Proof.
  destruct fuel as [|fuel]; [discriminate|]. simpl rmtree_walk.
  rewrite bind_run.
  destruct (try_OSError (os_listdir path) _ w) as [[names| | |] w1];
    try discriminate.
  rewrite bind_run.
  destruct (for_each names _ w1) as [[[]| | |] w2]; try discriminate.
  intros H.
  assert (Hrm : exists w3, os_rmdir path w3 = (Ok tt, w')).
  { unfold try_OSError in H.
    destruct (os_rmdir path w2) as [[[]|[c f|]| |] w3] eqn:E;
      try discriminate.
    - inversion H; subst. eauto.
    - apply onError_ok in H. exact H. }
  destruct Hrm as (w3 & Hrm). apply os_rmdir_ok in Hrm as [-> Hc].
  split; [apply lookup_delete_eq|apply children_delete_self, Hc].
Qed.

(** When [removeDirectory] without [ignore_errors] returns, [path] is gone. *)
Lemma removeDirectory_ok path w w' :
  removeDirectory path false w = (Ok tt, w') ->
  fs w' !! path = None /\
  (is_Some (fs w !! path) -> children path (fs w') = []).
Proof.
  rewrite removeDirectory_unfold. intros H.
  destruct (with_file_Lock_cases (removeDirectory_body path false) w)
    as [[_ E]|[Hfree E]]; rewrite E in H; [discriminate|]. clear E.
  destruct (removeDirectory_body_tame path false (acquired w))
    as [_ [_ Hl _]]. simpl in Hl.
  destruct (removeDirectory_body path false (acquired w))
    as [[[]| | |] w1] eqn:Eb; try discriminate.
  simpl in Hl. rewrite (bind_ok _ _ _ _ _ (after_yield_run w1 Hl)) in H.
  inversion H; subst w'. clear H. simpl.
  unfold removeDirectory_body in Eb. rewrite bind_run in Eb.
  unfold os_path_exists, get in Eb. rewrite fs_acquired in Eb.
  destruct (fs w !! path) as [n|] eqn:En; simpl in Eb.
  - unfold try_OSError, shutil_rmtree in Eb.
    destruct (rmtree_walk _ path onError (acquired w))
      as [[[]|[c f|]| |] w2] eqn:Ew; try discriminate.
    inversion Eb; subst w2. apply rmtree_walk_ok in Ew. tauto.
  - inversion Eb; subst w1. rewrite fs_acquired.
    split; [exact En|]. intros [x Hx]. discriminate.
Qed.

(** ** [removeDirectory]: what is left alone *)

Lemma strip_prefix_Some p s r : Str.strip_prefix p s = Some r -> s = p +:+ r.
Proof.
  revert s. induction p as [|a p IH]; intros s E; simpl in *.
  - congruence.
  - destruct s as [|b s]; [discriminate|].
    destruct (Ascii.eqb a b) eqn:Eab; [|discriminate].
    apply Ascii.eqb_eq in Eab. subst b. f_equal. apply IH, E.
Qed.

Lemma under_child d path name :
  under d path = true -> file_name name ->
  under d (posixpath.join path name) = true.
Proof.
  intros Hu [Hn Hc]. unfold under in *.
  rewrite join_plain by (apply contains_startswith, Hc).
  apply orb_true_iff. right. apply orb_true_iff in Hu as [Hu|Hu].
  - apply String.eqb_eq in Hu. subst path. rewrite strip_prefix_app.
    reflexivity.
  - destruct (Str.strip_prefix (dir_prefix d) path) as [r|] eqn:E;
      [|discriminate].
    apply strip_prefix_Some in E. subst path.
    assert (Hp : exists t, dir_prefix (dir_prefix d +:+ r)
                           = dir_prefix d +:+ t).
    { unfold dir_prefix at 1.
      destruct (_ || _); [eauto|]. exists (r +:+ "/").
      apply app_assoc_str. }
    destruct Hp as [t Ht].
    rewrite Ht, app_assoc_str, strip_prefix_app. reflexivity.
Qed.

Lemma under_self d : under d d = true.
Proof. unfold under. rewrite String.eqb_refl. reflexivity. Qed.

Lemma keeps_refl d w : keeps d w w.
Proof. intros q _. reflexivity. Qed.

Lemma keeps_trans d w1 w2 w3 : keeps d w1 w2 -> keeps d w2 w3 -> keeps d w1 w3.
Proof. intros H1 H2 q Hq. rewrite H2, H1 by exact Hq. reflexivity. Qed.

Lemma keeps_same_fs d w w' : fs w' = fs w -> keeps d w w'.
Proof. intros E q _. rewrite E. reflexivity. Qed.

Lemma stays_bind {A B} d (m : M A) (k : A -> M B) :
  stays_in d m -> (forall a, stays_in d (k a)) -> stays_in d (m ≫= k).
Proof.
  intros Hm Hk w. rewrite bind_run. specialize (Hm w).
  destruct (m w) as [[a| | |] w1]; simpl in *; try exact Hm.
  eapply keeps_trans; [exact Hm|apply Hk].
Qed.

Lemma stays_try {A} d (m : M A) (h : exn -> M A) :
  stays_in d m -> (forall e, stays_in d (h e)) -> stays_in d (try_OSError m h).
Proof.
  intros Hm Hh w. unfold try_OSError. specialize (Hm w).
  destruct (m w) as [[a|[c f|]| |] w1]; simpl in *; try exact Hm.
  eapply keeps_trans; [exact Hm|apply Hh].
Qed.

Lemma stays_ret {A} d (a : A) : stays_in d (mret a).
Proof. intros w. apply keeps_refl. Qed.

Lemma stays_raise {A} d e : stays_in d (raise (A:=A) e).
Proof. intros w. apply keeps_refl. Qed.

Lemma stays_log d c : stays_in d (log c).
Proof. intros w. apply keeps_same_fs. reflexivity. Qed.

Lemma stays_os_listdir d p : stays_in d (os_listdir p).
Proof.
  intros w. apply keeps_same_fs. unfold os_listdir. rewrite bind_run. simpl.
  rewrite bind_run. unfold lookup_node. simpl.
  destruct (fs w !! p) as [n|]; [destruct (is_dir n)|]; reflexivity.
Qed.

Lemma stays_listdir_ d p : stays_in d (listdir_ p).
Proof.
  apply stays_bind; [apply stays_os_listdir|intros; apply stays_ret].
Qed.

Lemma stays_os_lstat d p : stays_in d (os_lstat p).
Proof.
  intros w. apply keeps_same_fs. unfold os_lstat. rewrite bind_run. simpl.
  rewrite bind_run. unfold lookup_node. simpl.
  destruct (fs w !! p) as [n|]; reflexivity.
Qed.

Lemma under_other d p q : under d p = true -> under d q = false -> q <> p.
Proof. intros Hp Hq E. subst q. congruence. Qed.

Lemma stays_os_unlink d p : under d p = true -> stays_in d (os_unlink p).
Proof.
  intros Hp w q Hq. apply os_unlink_others. eapply under_other; eassumption.
Qed.

Lemma os_rmdir_others p q w :
  q <> p -> fs (os_rmdir p w).2 !! q = fs w !! q.
Proof.
  intros Hne. unfold os_rmdir. rewrite bind_run. simpl. rewrite bind_run.
  unfold lookup_node. simpl. destruct (fs w !! p) as [n|]; [|reflexivity].
  destruct (negb (is_dir n)); [reflexivity|]. rewrite bind_run. simpl.
  destruct (negb (is_nil (children p (fs w)))); [reflexivity|].
  rewrite bind_run. unfold touch_busy. destruct (n_busy n); simpl.
  - apply lookup_delete_ne. congruence.
  - apply lookup_insert_ne. congruence.
Qed.

Lemma stays_os_rmdir d p : under d p = true -> stays_in d (os_rmdir p).
Proof.
  intros Hp w q Hq. apply os_rmdir_others. eapply under_other; eassumption.
Qed.

Lemma onError_stays d : handler_stays_in d onError.
Proof.
  intros func p e Hf. unfold onError.
  apply stays_bind; [|intros _; exact Hf].
  apply stays_try; [exact Hf|]. intros _. apply stays_log.
Qed.

Lemma ignore_handler_stays d : handler_stays_in d ignore_handler.
Proof. intros func p e _. apply stays_ret. Qed.

(** The names the walk goes through are file names. *)
Lemma rmtree_names_valid (onerror : handler) path w names w1 :
  try_OSError (os_listdir path)
    (fun e => onerror listdir_ path e ;; mret []) w = (Ok names, w1) ->
  Forall file_name names.
Proof.
  unfold try_OSError, os_listdir. rewrite bind_run. simpl. rewrite bind_run.
  unfold lookup_node. simpl.
  assert (Hnil : forall e w0,
            (onerror listdir_ path e ;; mret ([] : list string)) w0
              = (Ok names, w1) -> Forall file_name names).
  { intros e w0. rewrite bind_run.
    destruct (onerror listdir_ path e w0) as [[[]| | |] ?];
      simpl; intros H; inversion H; constructor. }
  destruct (fs w !! path) as [n|]; [destruct (is_dir n)|]; simpl;
    try apply Hnil.
  intros H. inversion H. apply Forall_forall. intros name Hin.
  apply elem_of_children in Hin as (Hn & Hc & _). split; assumption.
Qed.

Lemma rmtree_walk_stays d (onerror : handler) fuel :
  handler_stays_in d onerror ->
  forall path, under d path = true ->
    stays_in d (rmtree_walk fuel path onerror).
Proof.
  intros Hh. induction fuel as [|fuel IH]; intros path Hp w;
    [apply keeps_refl|].
  simpl rmtree_walk. rewrite bind_run.
  assert (Hnames : stays_in d (try_OSError (os_listdir path)
            (fun e => onerror listdir_ path e ;; mret ([] : list string)))).
  { apply stays_try; [apply stays_os_listdir|]. intros e.
    apply stays_bind; [apply Hh, stays_listdir_|intros; apply stays_ret]. }
  specialize (Hnames w).
  destruct (try_OSError (os_listdir path) _ w) as [[names| | |] w1] eqn:En;
    simpl in Hnames; try exact Hnames.
  apply rmtree_names_valid in En.
  eapply keeps_trans; [exact Hnames|].
  apply stays_bind.
  - clear Hnames. induction En as [|name names Hname _ IHn].
    + apply stays_ret.
    + simpl for_each. apply stays_bind; [|intros _; exact IHn].
      pose proof (under_child d path name Hp Hname) as Hc.
      apply stays_bind.
      * apply stays_try; [apply stays_os_lstat|intros; apply stays_ret].
      * intros mode. destruct (S_ISDIR mode); [apply IH, Hc|].
        apply stays_try; [apply stays_os_unlink, Hc|]. intros e.
        apply Hh. apply stays_os_unlink, Hc.
  - intros _. apply stays_try; [apply stays_os_rmdir, Hp|]. intros e.
    apply Hh. apply stays_os_rmdir, Hp.
Qed.

Lemma shutil_rmtree_stays d ignore_errors :
  stays_in d (shutil_rmtree d ignore_errors
                (if ignore_errors then None else Some onError)).
Proof.
  intros w. unfold shutil_rmtree.
  apply rmtree_walk_stays; [|apply under_self].
  destruct ignore_errors; [apply ignore_handler_stays|apply onError_stays].
Qed.

(** X11. [removeDirectory] changes nothing outside the directory: an entry
    that is not [path] and does not lie below it is as before, whatever the
    flag and the outcome. *)
Theorem removeDirectory_stays_inside (path : string) (ignore_errors : bool)
    (w : World) (q : string) :
  under path q = false ->
  fs (removeDirectory path ignore_errors w).2 !! q = fs w !! q.
Proof.
  revert q. change (keeps path w (removeDirectory path ignore_errors w).2).
  rewrite removeDirectory_unfold.
  destruct (with_file_Lock_cases (removeDirectory_body path ignore_errors) w)
    as [[_ ->]|[_ ->]]; [apply keeps_refl|].
  assert (Hbody : stays_in path (removeDirectory_body path ignore_errors)).
  { unfold removeDirectory_body. apply stays_bind; [|intros e].
    - intros w0. apply keeps_refl.
    - destruct e; [|apply stays_ret]. simpl when.
      apply stays_try; [apply (shutil_rmtree_stays path false)|].
      intros e. destruct ignore_errors;
        [apply (shutil_rmtree_stays path true)|apply stays_raise]. }
  specialize (Hbody (acquired w)).
  assert (Hacq : keeps path w (acquired w))
    by (apply keeps_same_fs, fs_acquired).
  destruct (removeDirectory_body path ignore_errors (acquired w))
    as [[[]| | |] w1]; simpl in Hbody;
    try (eapply keeps_trans; [exact Hacq|exact Hbody]).
  eapply keeps_trans; [exact Hacq|]. eapply keeps_trans; [exact Hbody|].
  apply keeps_same_fs, after_yield_fs.
Qed.

Lemma removeDirectory_stays_inside_witness :
  fs (removeDirectory "src" false volumes_world).2 !! "mnt" =
    Some new_directory.
Proof.
  rewrite (removeDirectory_stays_inside "src" false volumes_world "mnt");
    reflexivity.
Defined.

(** ** [renameFile]: the bytes are never lost *)

Lemma content_same_fs w w' p n :
  fs w' = fs w -> content_at w p n -> content_at w' p n.
Proof. intros E (n' & H). exists n'. rewrite E. exact H. Qed.

Lemma os_chmod_content q mode w p n :
  content_at w p n -> content_at (os_chmod q mode w).2 p n.
Proof.
  intros (n' & Hn & Hk & Hd). rewrite os_chmod_run.
  destruct (fs w !! q) as [m|] eqn:Eq; [|exists n'; auto].
  destruct (n_owned m); [|exists n'; auto]. unfold content_at. simpl.
  destruct (decide (q = p)) as [->|Hne].
  - rewrite Hn in Eq. inversion Eq; subst m.
    eexists. rewrite lookup_insert_eq. split; [reflexivity|]. auto.
  - exists n'. rewrite lookup_insert_ne by exact Hne. auto.
Qed.

Lemma os_unlink_content q w p n :
  q <> p -> content_at w p n -> content_at (os_unlink q w).2 p n.
Proof.
  intros Hne (n' & Hn & H). exists n'.
  rewrite os_unlink_others by congruence. auto.
Qed.

Ltac settle :=
  solve [left; eexists; reflexivity | right; eexists _, _, _; reflexivity].

Lemma os_rename_cases src dst w :
  (exists w', os_rename src dst w = (Ok tt, w')) \/
  (exists c f w', os_rename src dst w = (Raise (OSError c f), w')).
Proof.
  unfold os_rename. rewrite bind_run. simpl. rewrite bind_run.
  unfold lookup_node. simpl.
  destruct (fs w !! src) as [n|]; [|settle].
  destruct (String.eqb src dst); [settle|].
  rewrite bind_run. simpl.
  destruct (negb (String.eqb _ _)); [settle|].
  destruct (under src dst); [settle|].
  destruct (under dst src); [settle|].
  rewrite bind_run. unfold touch_busy.
  destruct (n_busy n) as [|b]; [|settle].
  simpl. destruct (fs w !! dst) as [d|].
  - destruct (os_name w); try settle;
      (destruct (negb (is_dir n) && is_dir d); [settle|]);
      (destruct (is_dir n && negb (is_dir d)); [settle|]);
      (destruct (negb (is_nil (children dst (fs w)))); settle).
  - rewrite bind_run. unfold check_parent.
    destruct (Str.is_empty (split dst).1); [settle|]. simpl.
    destruct (fs w !! (split dst).1) as [d|]; [|settle].
    destruct (is_dir d); settle.
Qed.

Lemma os_rename_same p w w' :
  os_rename p p w = (Ok tt, w') -> fs w' = fs w.
Proof.
  unfold os_rename. rewrite bind_run. simpl. rewrite bind_run.
  unfold lookup_node. simpl. destruct (fs w !! p); [|discriminate].
  rewrite String.eqb_refl. intros H. inversion H. reflexivity.
Qed.

Lemma shutil_copyfile_fs src dst w :
  fs (shutil_copyfile src dst w).2 = fs w \/
  exists w', shutil_copyfile src dst w = (Ok tt, w').
Proof.
  unfold shutil_copyfile. rewrite bind_run. simpl.
  destruct (String.eqb src dst); [left; reflexivity|].
  rewrite bind_run. unfold lookup_node. simpl.
  destruct (fs w !! src) as [n|]; [|left; reflexivity].
  destruct (is_dir n); [left; reflexivity|]. rewrite bind_run. simpl.
  destruct (fs w !! dst) as [d|].
  - destruct (is_dir d); [left; reflexivity|right; eauto].
  - rewrite bind_run. unfold check_parent.
    destruct (Str.is_empty (split dst).1); [right; eauto|]. simpl.
    destruct (fs w !! (split dst).1) as [d|]; [|left; reflexivity].
    destruct (is_dir d); [right; eauto|left; reflexivity].
Qed.

(** X12. [renameFile] does not lose the source: whatever its outcome, there is
    an entry with the kind and the bytes of the source at the source path or
    at the destination path. *)
Theorem renameFile_keeps_content (src dst : string) (w : World) (n : node) :
  fs w !! src = Some n ->
  content_at (renameFile src dst w).2 src n \/
  content_at (renameFile src dst w).2 dst n.
Proof.
  intros Hn. unfold renameFile. rewrite bind_run, os_stat_run, Hn.
  set (w1 := add_call (Stat src) w).
  assert (Hn1 : fs w1 !! src = Some n) by exact Hn.
  clearbody w1. clear Hn w. rewrite bind_run.
  destruct (os_rename_cases src dst w1) as [(w2 & Hr)|(c & f & w2 & Hr)].
  - rewrite (try_ok _ _ _ _ _ Hr).
    destruct (decide (src = dst)) as [<-|Hne].
    + left. apply os_chmod_content. apply os_rename_same in Hr.
      exists n. rewrite Hr. auto.
    + right. apply os_chmod_content.
      apply os_rename_ok in Hr as (n0 & Hn0 & _ & Hfs); [|exact Hne].
      rewrite Hn1 in Hn0. inversion Hn0; subst n0.
      exists n. rewrite Hfs, rename_fs_dst. auto.
  - rewrite (try_caught _ _ _ _ _ _ Hr).
    assert (Hsrc : exists n2, fs w2 !! src = Some n2 /\
              n_kind n2 = n_kind n /\ n_data n2 = n_data n).
    { apply os_rename_raise in Hr as [Hfs|(n0 & b & Hn0 & Hfs)].
      - rewrite Hfs. exists n. auto.
      - rewrite Hn1 in Hn0. inversion Hn0; subst n0.
        rewrite Hfs, lookup_insert_eq. eexists. split; [reflexivity|]. auto. }
    destruct Hsrc as (n2 & Hn2 & Hk2 & Hd2). rewrite !bind_run.
    destruct (shutil_copyfile src dst w2) as [[[]|e| |] w3] eqn:Hc.
    + right. apply shutil_copyfile_ok in Hc
        as (Hne & n3 & d & Hn3 & Hdir & Hfs & Hd & Hk).
      rewrite Hn2 in Hn3. inversion Hn3; subst n3.
      assert (Hat : content_at w3 dst n).
      { exists d. rewrite Hfs, lookup_insert_eq. split; [reflexivity|].
        split; [|congruence]. rewrite Hk, <- Hk2. unfold is_dir in Hdir.
        destruct (n_kind n2); [reflexivity|discriminate]. }
      apply (os_unlink_content src w3 dst n Hne) in Hat.
      destruct (os_unlink src w3) as [[[]| | |] w4]; simpl in Hat;
        try exact Hat.
      apply os_chmod_content, Hat.
    + left. destruct (shutil_copyfile_fs src dst w2) as [Hfs|(w' & Hc')];
        [|congruence].
      rewrite Hc in Hfs. exists n2. simpl in *. rewrite Hfs. auto.
    + left. destruct (shutil_copyfile_fs src dst w2) as [Hfs|(w' & Hc')];
        [|congruence].
      rewrite Hc in Hfs. exists n2. simpl in *. rewrite Hfs. auto.
    + left. destruct (shutil_copyfile_fs src dst w2) as [Hfs|(w' & Hc')];
        [|congruence].
      rewrite Hc in Hfs. exists n2. simpl in *. rewrite Hfs. auto.
Qed.

Lemma renameFile_keeps_content_witness :
  content_at (renameFile "src/run.sh" "out/run.sh" volumes_world).2
    "src/run.sh" script \/
  content_at (renameFile "src/run.sh" "out/run.sh" volumes_world).2
    "out/run.sh" script.
Proof.
  apply (renameFile_keeps_content "src/run.sh" "out/run.sh" volumes_world).
  reflexivity.
Defined.

(** ** [hasFilenameExtension] *)

Lemma take_drop n s : Str.take n s +:+ Str.drop n s = s.
Proof.
  revert s. induction n as [|n IH]; intros [|a s]; simpl; try reflexivity.
  f_equal. apply IH.
Qed.

Lemma take_app a b : Str.take (String.length a) (a +:+ b) = a.
Proof.
  induction a as [|x a IH]; simpl; [destruct b; reflexivity|].
  f_equal. exact IH.
Qed.

Lemma drop_app a b : Str.drop (String.length a) (a +:+ b) = b.
Proof. induction a as [|x a IH]; simpl; [reflexivity|exact IH]. Qed.

Lemma contains_app c a b :
  Str.contains c (a +:+ b) = Str.contains c a || Str.contains c b.
Proof.
  induction a as [|x a IH]; simpl; [reflexivity|].
  rewrite IH. apply orb_assoc.
Qed.

Lemma rfind_from_absent c s i :
  Str.contains c s = false -> Str.rfind_from i c s = (-1)%Z.
Proof.
  revert i. induction s as [|a s IH]; intros i H; simpl in *; [reflexivity|].
  apply orb_false_iff in H as [Ha Hs]. rewrite (IH _ Hs), Ha. reflexivity.
Qed.

Lemma rfind_from_last c a b i :
  (0 <= i)%Z -> Str.contains c b = false ->
  Str.rfind_from i c (a +:+ String c b) = (i + Z.of_nat (String.length a))%Z.
Proof.
  revert i. induction a as [|x a IH]; intros i Hi Hb; simpl.
  - rewrite (rfind_from_absent _ _ _ Hb), Ascii.eqb_refl. simpl. lia.
  - rewrite IH by (lia || exact Hb).
    destruct (0 <=? i + 1 + Z.of_nat (String.length a))%Z eqn:E; [lia|].
    apply Z.leb_gt in E. lia.
Qed.

(** [rfind]: no occurrence, or the place of the last one. *)
Lemma rfind_from_spec c s i :
  (0 <= i)%Z ->
  (Str.rfind_from i c s = (-1)%Z /\ Str.contains c s = false) \/
  (exists a b, s = a +:+ String c b /\ Str.contains c b = false /\
               Str.rfind_from i c s = (i + Z.of_nat (String.length a))%Z).
Proof.
  revert i. induction s as [|x s IH]; intros i Hi; [left; auto|].
  destruct (IH (i + 1)%Z) as [[Hr Hc]|(a & b & -> & Hb & Hr)]; [lia|..].
  - simpl. rewrite Hr. simpl. destruct (Ascii.eqb x c) eqn:E.
    + right. apply Ascii.eqb_eq in E. subst x. exists "", s.
      simpl. split; [reflexivity|]. split; [exact Hc|lia].
    + left. simpl. auto.
  - right. exists (String x a), b. split; [reflexivity|]. split; [exact Hb|].
    apply (rfind_from_last c (String x a) b i Hi Hb).
Qed.

Lemma app_split_lt a' : forall a x b' y b,
  a' +:+ String x b' = a +:+ String y b ->
  String.length a' < String.length a ->
  exists m, b' = m +:+ String y b.
Proof.
  induction a' as [|z a' IH]; intros a x b' y b E Hl.
  - destruct a as [|x' a]; [simpl in Hl; lia|]. simpl in E.
    inversion E. eauto.
  - destruct a as [|z' a]; [simpl in Hl; lia|]. simpl in E, Hl.
    inversion E. eapply IH; [eassumption|lia].
Qed.

(** The two halves of [_splitext] make up the path, and the second one is
    an extension. *)
Lemma splitext_shape p sep altsep :
  (genericpath._splitext p sep altsep ".").1 +:+
  (genericpath._splitext p sep altsep ".").2 = p /\
  extension_shape sep (genericpath._splitext p sep altsep ".").2.
Proof.
  unfold genericpath._splitext.
  set (sepIndex := match altsep with
                   | Some a => Z.max (Str.rfind sep p) (Str.rfind a p)
                   | None => Str.rfind sep p
                   end).
  assert (Hsep : (Str.rfind sep p <= sepIndex)%Z)
    by (unfold sepIndex; destruct altsep; lia).
  destruct ((sepIndex <? Str.rfind "." p)%Z && _) eqn:E;
    [|simpl; split; [apply app_empty_r|left; reflexivity]].
  apply andb_true_iff in E as [E _]. apply Z.ltb_lt in E. simpl.
  split; [apply take_drop|]. right.
  destruct (rfind_from_spec sep p 0 ltac:(lia)) as [[Hs Hsc]|(a' & b' & Ep' & Hb' & Hs)];
    destruct (rfind_from_spec "." p 0 ltac:(lia)) as [[Hd Hdc]|(a & b & Ep & Hb & Hd)];
    unfold Str.rfind in *; try lia.
  - rewrite Hd, Ep. rewrite Z.add_0_l, Nat2Z.id, drop_app.
    exists b. split; [reflexivity|]. split; [exact Hb|].
    rewrite Ep, contains_app in Hsc. apply orb_false_iff in Hsc as [_ Hsc].
    simpl in Hsc. apply orb_false_iff in Hsc. tauto.
  - rewrite Hd, Ep. rewrite Z.add_0_l, Nat2Z.id, drop_app.
    exists b. split; [reflexivity|]. split; [exact Hb|].
    rewrite Ep in Ep'. symmetry in Ep'.
    apply app_split_lt in Ep' as [m Hm]; [|lia].
    rewrite Hm, contains_app in Hb'. apply orb_false_iff in Hb' as [_ Hb'].
    simpl in Hb'. apply orb_false_iff in Hb'. tauto.
Qed.

Lemma splitext_on os path :
  (if os is Windows then ntpath.splitext (ntpath.normcase path)
   else posixpath.splitext (posixpath.normcase path)).1 +:+
  (if os is Windows then ntpath.splitext (ntpath.normcase path)
   else posixpath.splitext (posixpath.normcase path)).2 = normcase_on os path /\
  extension_shape (sep_on os)
    (if os is Windows then ntpath.splitext (ntpath.normcase path)
     else posixpath.splitext (posixpath.normcase path)).2.
Proof. destruct os; apply splitext_shape. Qed.

(** X13. When [hasFilenameExtension] answers yes, the path, in the case of the
    platform, ends in one of the given extensions, and that one is empty or a
    dot followed by characters that are neither dots nor separators. *)
Theorem hasFilenameExtension_suffix (os : platform) (path : string)
    (extensions : list string) :
  hasFilenameExtension os path extensions = true ->
  exists stem ext,
    ext ∈ extensions /\ normcase_on os path = stem +:+ ext /\
    extension_shape (sep_on os) ext.
Proof.
  unfold hasFilenameExtension. intros H. apply bool_decide_eq_true in H.
  destruct (splitext_on os path) as [E S].
  destruct os; eexists _, _; (split; [exact H|]);
    (split; [symmetry; exact E|exact S]).
Qed.

Lemma hasFilenameExtension_suffix_witness :
  exists stem ext,
    ext ∈ [".py"; ".pyw"] /\
    normcase_on Windows "Lib/Site.PY" = stem +:+ ext /\
    extension_shape (sep_on Windows) ext.
Proof.
  apply (hasFilenameExtension_suffix Windows "Lib/Site.PY" [".py"; ".pyw"]).
  reflexivity.
Defined.

(** *** The extension of a file name on POSIX *)

Lemma rfind_from_lt c s i :
  (0 <= i)%Z -> (Str.rfind_from i c s < i + Z.of_nat (String.length s))%Z.
Proof.
  intros Hi.
  destruct (rfind_from_spec c s i Hi) as [[-> _]|(a & b & -> & _ & ->)].
  - lia.
  - rewrite length_app_str. simpl. lia.
Qed.

Lemma rfind_from_app_absent c a b i :
  Str.contains c b = false ->
  Str.rfind_from i c (a +:+ b) = Str.rfind_from i c a.
Proof.
  intros Hb. revert i. induction a as [|x a IH]; intros i; simpl.
  - apply rfind_from_absent, Hb.
  - rewrite IH. reflexivity.
Qed.

Lemma endswith_snoc c d :
  Str.endswith c d = true -> exists d', d = d' +:+ String c "".
Proof.
  induction d as [|x d IH]; [discriminate|]. simpl.
  destruct d as [|y d].
  - intros H. apply Ascii.eqb_eq in H. subst x. exists "". reflexivity.
  - intros H. destruct (IH H) as [d' ->]. exists (String x d'). reflexivity.
Qed.

(** In [d +:+ name], for a directory part [d] and a name without
    separator, the name starts right after the last separator. *)
Lemma rfind_sep_dir d name :
  d = "" \/ Str.endswith sep d = true ->
  Str.contains sep name = false ->
  (Str.rfind sep (d +:+ name) + 1)%Z = Z.of_nat (String.length d).
Proof.
  intros [->|Hd] Hn; unfold Str.rfind.
  - simpl. rewrite (rfind_from_absent _ _ _ Hn). reflexivity.
  - apply endswith_snoc in Hd as [d' ->]. rewrite app_assoc_str. simpl.
    rewrite rfind_from_last by (lia || exact Hn).
    rewrite length_app_str. simpl. lia.
Qed.

Lemma get_app d a r : String.get (String.length d) (d +:+ String a r) = Some a.
Proof. induction d as [|x d IH]; simpl; [reflexivity|exact IH]. Qed.

Lemma has_stem_app stem : forall d rest,
  genericpath.has_stem (String.length stem) (d +:+ stem +:+ rest) "."
    (Z.of_nat (String.length d)) = negb (Str.all_char "." stem).
Proof.
  induction stem as [|a stem IH]; intros d rest; [reflexivity|].
  simpl genericpath.has_stem. rewrite Nat2Z.id.
  change (String a stem +:+ rest) with (String a (stem +:+ rest)).
  rewrite get_app. simpl Str.all_char.
  destruct (Ascii.eqb a ".") eqn:E; [|reflexivity]. simpl.
  specialize (IH (d +:+ String a "") rest).
  rewrite length_app_str in IH. simpl in IH.
  replace (Z.of_nat (String.length d) + 1)%Z
    with (Z.of_nat (String.length d + 1)) by lia.
  rewrite <- IH, app_assoc_str. reflexivity.
Qed.

(** [posixpath.splitext] of a name with a dot in it, behind a directory
    part. *)
Lemma splitext_stem_ext d stem e :
  d = "" \/ Str.endswith sep d = true ->
  Str.contains sep stem = false ->
  Str.contains sep e = false -> Str.contains "." e = false ->
  splitext (d +:+ stem +:+ String "." e) =
  if Str.all_char "." stem then (d +:+ stem +:+ String "." e, "")
  else (d +:+ stem, String "." e).
Proof.
  intros Hd Hs He Hdot. unfold splitext, genericpath._splitext.
  assert (Hname : Str.contains sep (stem +:+ String "." e) = false).
  { rewrite contains_app, Hs. simpl. exact He. }
  pose proof (rfind_sep_dir d _ Hd Hname) as Hsep.
  assert (Hdi : Str.rfind extsep (d +:+ stem +:+ String "." e) =
                Z.of_nat (String.length d + String.length stem)).
  { unfold Str.rfind. rewrite <- app_assoc_str.
    rewrite rfind_from_last by (lia || exact Hdot).
    rewrite length_app_str. lia. }
  rewrite Hdi.
  replace (Str.rfind sep (d +:+ stem +:+ String "." e))
    with (Z.of_nat (String.length d) - 1)%Z by lia.
  replace (Z.of_nat (String.length d) - 1 + 1)%Z
    with (Z.of_nat (String.length d)) by lia.
  replace (Z.to_nat (Z.of_nat (String.length d + String.length stem) -
                     Z.of_nat (String.length d)))
    with (String.length stem) by lia.
  change extsep with "."%char. rewrite has_stem_app.
  replace (Z.of_nat (String.length d) - 1 <?
           Z.of_nat (String.length d + String.length stem))%Z with true
    by (symmetry; apply Z.ltb_lt; lia).
  destruct (Str.all_char "." stem); [reflexivity|]. simpl andb. cbv iota.
  rewrite Nat2Z.id, <- length_app_str, <- app_assoc_str.
  rewrite take_app, drop_app. reflexivity.
Qed.

(** [posixpath.splitext] of a name without a dot, behind a directory
    part. *)
Lemma splitext_no_dot d name :
  d = "" \/ Str.endswith sep d = true ->
  Str.contains sep name = false -> Str.contains "." name = false ->
  splitext (d +:+ name) = (d +:+ name, "").
Proof.
  intros Hd Hs Hdot. unfold splitext, genericpath._splitext.
  pose proof (rfind_sep_dir d _ Hd Hs) as Hsep.
  assert (Hlt : (Str.rfind extsep (d +:+ name) <= Str.rfind sep (d +:+ name))%Z).
  { unfold Str.rfind at 1. rewrite rfind_from_app_absent by exact Hdot.
    destruct Hd as [->|Hd]; [simpl in *; lia|].
    apply endswith_snoc in Hd as [d' ->].
    rewrite rfind_from_app_absent by reflexivity.
    pose proof (rfind_from_lt extsep d' 0 ltac:(lia)) as Hl.
    rewrite length_app_str in Hsep. simpl in Hsep. lia. }
  replace (_ <? _)%Z with false by (symmetry; apply Z.ltb_ge; exact Hlt).
  reflexivity.
Qed.

(** X14. On POSIX the extension is that of the last component: a dot and what
    follows the last dot, when the name has another character than dots before
    it; without a dot in the name, and for names such as [.profile], it is
    empty. *)
Theorem hasFilenameExtension_posix (d stem e : string)
    (extensions : list string) :
  d = "" \/ Str.endswith sep d = true ->
  Str.contains sep stem = false ->
  Str.contains sep e = false -> Str.contains "." e = false ->
  hasFilenameExtension Linux (d +:+ stem +:+ String "." e) extensions =
    (if Str.all_char "." stem then bool_decide ("" ∈ extensions)
     else bool_decide (String "." e ∈ extensions)) /\
  hasFilenameExtension Linux (d +:+ e) extensions =
    bool_decide ("" ∈ extensions).
Proof.
  intros Hd Hs He Hdot. unfold hasFilenameExtension, normcase. split.
  - rewrite splitext_stem_ext by assumption.
    destruct (Str.all_char "." stem); reflexivity.
  - rewrite splitext_no_dot by assumption. reflexivity.
Qed.

Lemma hasFilenameExtension_posix_witness :
  hasFilenameExtension Linux "pkg.d/module.tar.gz" [".gz"] = true /\
  hasFilenameExtension Linux "pkg.d/.profile" [".profile"] = false /\
  hasFilenameExtension Linux "pkg.d/README" [".d/README"; ""] = true.
Proof.
  destruct (hasFilenameExtension_posix "pkg.d/" "module.tar" "gz" [".gz"])
    as [H1 _]; try reflexivity; [right; reflexivity|].
  destruct (hasFilenameExtension_posix "pkg.d/" "" "profile" [".profile"])
    as [H2 _]; try reflexivity; [right; reflexivity|].
  destruct (hasFilenameExtension_posix "pkg.d/" "" "README"
              [".d/README"; ""])
    as [_ H3]; try reflexivity; [right; reflexivity|].
  split; [exact H1|]. split; [exact H2|exact H3].
Defined.

(** *** The case of the extension on Windows *)

Lemma lower_char_idem c : Str.lower_char (Str.lower_char c) = Str.lower_char c.
Proof. destruct c as [[] [] [] [] [] [] [] []]; reflexivity. Qed.

Lemma lower_idem s : Str.lower (Str.lower s) = Str.lower s.
Proof.
  unfold Str.lower. induction s as [|a s IH]; simpl; [reflexivity|].
  rewrite lower_char_idem, IH. reflexivity.
Qed.

Lemma lower_app a b : Str.lower (a +:+ b) = Str.lower a +:+ Str.lower b.
Proof.
  unfold Str.lower. induction a as [|x a IH]; simpl; [reflexivity|].
  rewrite IH. reflexivity.
Qed.

Lemma lower_length s : String.length (Str.lower s) = String.length s.
Proof.
  unfold Str.lower. induction s as [|a s IH]; simpl; [reflexivity|].
  rewrite IH. reflexivity.
Qed.

Lemma app_inv_length a : forall a' b b',
  a +:+ b = a' +:+ b' -> String.length a = String.length a' -> b = b'.
Proof.
  induction a as [|x a IH]; intros [|x' a'] b b' E Hl; simpl in *;
    try discriminate.
  - exact E.
  - inversion E. eapply IH; [eassumption|lia].
Qed.

(** X15. On Windows the path is compared in lower case: capitals in the path
    do not matter, and an extension that matches is in lower case, so that one
    given with a capital letter never matches. *)
Theorem hasFilenameExtension_windows_case (path : string)
    (extensions : list string) :
  (forall path', Str.lower path' = Str.lower path ->
     hasFilenameExtension Windows path' extensions =
     hasFilenameExtension Windows path extensions) /\
  (hasFilenameExtension Windows path extensions = true ->
   exists ext, ext ∈ extensions /\ Str.lower ext = ext) /\
  ((forall ext, ext ∈ extensions -> Str.lower ext <> ext) ->
   hasFilenameExtension Windows path extensions = false).
Proof.
  assert (Hlow : hasFilenameExtension Windows path extensions = true ->
            exists ext, ext ∈ extensions /\ Str.lower ext = ext).
  { unfold hasFilenameExtension. intros H. apply bool_decide_eq_true in H.
    eexists. split; [exact H|].
    destruct (splitext_shape (ntpath.normcase path) ntpath.sep
                (Some ntpath.altsep)) as [E _].
    fold (ntpath.splitext (ntpath.normcase path)) in E.
    assert (Hn : Str.lower (ntpath.normcase path) = ntpath.normcase path)
      by apply lower_idem.
    rewrite <- E in Hn at 1. rewrite lower_app in Hn.
    rewrite <- E in Hn at 3.
    apply app_inv_length in Hn; [exact Hn|apply lower_length]. }
  split; [|split; [exact Hlow|]].
  - intros path' H. unfold hasFilenameExtension.
    rewrite (ntpath_normcase_caseless _ _ H). reflexivity.
  - intros Hcap.
    destruct (hasFilenameExtension Windows path extensions) eqn:E;
      [|reflexivity].
    destruct (Hlow eq_refl) as (ext & Hin & Hl). destruct (Hcap ext Hin Hl).
Qed.

Lemma hasFilenameExtension_windows_case_witness :
  hasFilenameExtension Windows "SETUP.PY" [".py"] =
    hasFilenameExtension Windows "setup.py" [".py"] /\
  hasFilenameExtension Windows "SETUP.PY" [".PY"] = false.
Proof.
  destruct (hasFilenameExtension_windows_case "setup.py" [".py"])
    as (H1 & _).
  destruct (hasFilenameExtension_windows_case "SETUP.PY" [".PY"])
    as (_ & _ & H2).
  split; [apply H1; reflexivity|]. apply H2.
  intros ext Hin. apply list_elem_of_singleton in Hin. subst ext. discriminate.
Defined.

(** ** [os.walk], [getFileList] and [getSubDirectories] *)

Lemma reads_only_refl w : reads_only w w.
Proof. split; reflexivity. Qed.

Lemma reads_only_trans w1 w2 w3 :
  reads_only w1 w2 -> reads_only w2 w3 -> reads_only w1 w3.
Proof. intros [F1 L1] [F2 L2]. split; congruence. Qed.

Lemma os_scandir_run p w :
  os_scandir p w =
  match fs w !! p with
  | Some n =>
      if is_dir n then (Ok (entries_of (fs w) p), add_call (Listdir p) w)
      else (Raise (OSError ENOTDIR p), add_call (Listdir p) w)
  | None => (Raise (OSError ENOENT p), add_call (Listdir p) w)
  end.
Proof.
  unfold os_scandir, os_listdir. rewrite !bind_run. simpl. rewrite bind_run.
  unfold lookup_node. simpl. destruct (fs w !! p) as [n|]; [|reflexivity].
  destruct (is_dir n); reflexivity.
Qed.

Lemma elem_of_entries f p name b :
  (name, b) ∈ entries_of f p <->
  file_name name /\
  exists n, f !! posixpath.join p name = Some n /\ is_dir n = b.
Proof.
  unfold entries_of. rewrite list_elem_of_fmap. split.
  - intros (name' & E & Hin). inversion E; subst name'. clear E.
    apply elem_of_children in Hin as (Hn & Hc & [n Hx]).
    split; [split; assumption|]. rewrite Hx. eauto.
  - intros ([Hn Hc] & n & Hx & Hb). exists name. rewrite Hx, Hb.
    split; [reflexivity|]. apply elem_of_children. eauto.
Qed.

Lemma elem_of_dirs_of f p name :
  name ∈ dirs_of f p <->
  file_name name /\
  exists n, f !! posixpath.join p name = Some n /\ is_dir n = true.
Proof.
  unfold dirs_of. rewrite list_elem_of_fmap. split.
  - intros ([name' b] & -> & Hin). apply list_elem_of_In in Hin.
    apply List.filter_In in Hin as [Hin Hb]. simpl in Hb. subst b.
    apply list_elem_of_In, elem_of_entries in Hin. exact Hin.
  - intros H. exists (name, true). split; [reflexivity|].
    apply list_elem_of_In, List.filter_In. split; [|reflexivity].
    apply list_elem_of_In, elem_of_entries, H.
Qed.

Lemma elem_of_files_of f p name :
  name ∈ files_of f p <->
  file_name name /\
  exists n, f !! posixpath.join p name = Some n /\ is_dir n = false.
Proof.
  unfold files_of. rewrite list_elem_of_fmap. split.
  - intros ([name' b] & -> & Hin). apply list_elem_of_In in Hin.
    apply List.filter_In in Hin as [Hin Hb]. simpl in Hb.
    apply negb_true_iff in Hb. subst b.
    apply list_elem_of_In, elem_of_entries in Hin. exact Hin.
  - intros H. exists (name, false). split; [reflexivity|].
    apply list_elem_of_In, List.filter_In. split; [|reflexivity].
    apply list_elem_of_In, elem_of_entries, H.
Qed.

(** [yield from] over a list whose items all yield. *)
Lemma yield_from_run {A B} (P : A -> B -> Prop) (f : A -> M (list B)) w0 :
  forall l : list A,
  (forall x w, x ∈ l -> reads_only w0 w ->
     exists ys w', f x w = (Ok ys, w') /\ reads_only w0 w' /\
                   forall t, t ∈ ys <-> P x t) ->
  forall w, reads_only w0 w ->
    exists zs w', yield_from l f w = (Ok zs, w') /\ reads_only w0 w' /\
                  forall t, t ∈ zs <-> exists x, x ∈ l /\ P x t.
Proof.
  induction l as [|x l IH]; intros Hf w Hw.
  - exists [], w. split; [reflexivity|]. split; [exact Hw|].
    intros t. split; [intros H; inversion H|].
    intros (x & Hx & _). inversion Hx.
  - destruct (Hf x w) as (ys & w1 & Ex & Hw1 & Hys);
      [apply elem_of_cons; auto|exact Hw|].
    destruct (IH (fun y w Hy => Hf y w (proj2 (elem_of_cons _ _ _)
                                          (or_intror Hy))) w1 Hw1)
      as (zs & w2 & El & Hw2 & Hzs).
    exists (ys ++ zs), w2. split; [|split; [exact Hw2|]].
    + simpl yield_from. rewrite bind_run, Ex, bind_run, El. reflexivity.
    + intros t. rewrite elem_of_app, Hys, Hzs. split.
      * intros [H|(y & Hy & H)]; [exists x|exists y];
          (split; [apply elem_of_cons; auto|exact H]).
      * intros (y & Hy & H). apply elem_of_cons in Hy as [->|Hy]; eauto.
Qed.

(** With recursion depth to spare for the longest key, the walk yields the
    directories it comes to, each with the names inside it. *)
Lemma walk_fuel_run fuel : forall top w,
  0 < fuel ->
  (forall k, k ∈ dom (fs w) -> String.length k < String.length top + fuel) ->
  exists l w',
    walk_fuel fuel top w = (Ok l, w') /\ reads_only w w' /\
    forall t, t ∈ l <->
      exists root, reach (fs w) top root /\ t = walk_entry_of (fs w) root.
Proof.
  induction fuel as [|fuel IH]; intros top w Hpos Hbound; [lia|].
  simpl walk_fuel. rewrite bind_run. unfold try_OSError.
  rewrite bind_run, os_scandir_run.
  set (w1 := add_call (Listdir top) w).
  assert (Hw1 : reads_only w w1) by (split; reflexivity).
  assert (Hnone : (forall n, fs w !! top = Some n -> is_dir n = false) ->
            exists l w',
              (Ok ([] : list walk_entry), w1) = (Ok l, w') /\
              reads_only w w' /\
              forall t, t ∈ l <->
                exists root, reach (fs w) top root /\
                             t = walk_entry_of (fs w) root).
  { intros Hno. exists [], w1. split; [reflexivity|]. split; [exact Hw1|].
    intros t. split; [intros H; inversion H|].
    intros (root & Hr & _). exfalso.
    inversion Hr as [top' n Hn Hd|top' n name d root' Hn Hd]; subst;
      rewrite (Hno n Hn) in Hd; discriminate. }
  destruct (fs w !! top) as [n|] eqn:En;
    [destruct (is_dir n) eqn:Ed|]; simpl;
    try (apply Hnone; intros n' Hn'; congruence).
  clear Hnone. rewrite bind_run.
  change (fst <$> List.filter snd (entries_of (fs w) top))
    with (dirs_of (fs w) top).
  change (fst <$> List.filter (fun entry : string * bool => negb entry.2)
                    (entries_of (fs w) top))
    with (files_of (fs w) top).
  destruct (yield_from_run
              (fun dirname t =>
                 exists root, reach (fs w) (join top dirname) root /\
                              t = walk_entry_of (fs w) root)
              (fun dirname => walk_fuel fuel (join top dirname))
              w (dirs_of (fs w) top)) with (w := w1)
    as (rest & w2 & Er & Hw2 & Hrest).
  - intros name w3 Hin [Hf3 Hl3].
    apply elem_of_dirs_of in Hin as ([Hne Hc] & d & Hd & Hdd).
    pose proof (join_child_longer top name Hne Hc) as Hlen.
    assert (Hin : join top name ∈ dom (fs w))
      by (apply elem_of_dom; eauto).
    pose proof (Hbound _ Hin) as Hb.
    destruct (IH (join top name) w3) as (l & w4 & El & Hw4 & Hl).
    + lia.
    + intros k Hk. rewrite Hf3 in Hk. specialize (Hbound k Hk). lia.
    + exists l, w4. split; [exact El|].
      split; [eapply reads_only_trans; [split; eassumption|exact Hw4]|].
      intros t. rewrite Hl, Hf3. reflexivity.
  - exact Hw1.
  - rewrite Er. exists (walk_entry_of (fs w) top :: rest), w2.
    split; [reflexivity|]. split; [exact Hw2|].
    intros t. rewrite elem_of_cons, Hrest. split.
    + intros [->|(name & Hin & root & Hr & ->)].
      * exists top. split; [apply (reach_top _ top n En Ed)|reflexivity].
      * exists root. split; [|reflexivity].
        apply elem_of_dirs_of in Hin as (Hname & d & Hd & Hdd).
        apply (reach_down _ top n name d root En Ed Hname Hd Hdd Hr).
    + intros (root & Hr & ->).
      inversion Hr as [top' n' Hn' Hd'|top' n' name d root' Hn' Hd' Hname Hx Hxd Hr'];
        subst; [left; reflexivity|].
      right. exists name. split; [apply elem_of_dirs_of; eauto|eauto].
Qed.

Lemma os_walk_run top w :
  exists l w',
    os_walk top w = (Ok l, w') /\ reads_only w w' /\
    forall t, t ∈ l <->
      exists root, reach (fs w) top root /\ t = walk_entry_of (fs w) root.
Proof.
  unfold os_walk. apply walk_fuel_run; [lia|].
  intros k Hk. apply key_length_bound in Hk. lia.
Qed.

Lemma reach_longer f top root :
  reach f top root -> String.length top <= String.length root.
Proof.
  induction 1 as [|top n name d root Hn Hd [Hne Hc] Hx Hxd Hr IH]; [lia|].
  pose proof (join_child_longer top name Hne Hc). lia.
Qed.

Lemma reach_under f top root : reach f top root -> under top root = true.
Proof.
  intros H. pose proof (under_self top) as Hacc. revert Hacc.
  generalize top at 1 3 as d.
  induction H as [|top n name d' root Hn Hd Hname Hx Hxd Hr IH];
    intros d Hacc; [exact Hacc|].
  apply IH, under_child; assumption.
Qed.

Lemma reach_dir f top root :
  reach f top root -> exists n, f !! root = Some n /\ is_dir n = true.
Proof. induction 1; eauto. Qed.

Lemma reach_trans f a b c : reach f a b -> reach f b c -> reach f a c.
Proof.
  induction 1 as [|top n name d root Hn Hd Hname Hx Hxd Hr IH]; [auto|].
  intros Hc. apply (reach_down f top n name d c Hn Hd Hname Hx Hxd), IH, Hc.
Qed.

Lemma reach_snoc f top root name d :
  reach f top root -> file_name name ->
  f !! join root name = Some d -> is_dir d = true ->
  reach f top (join root name).
Proof.
  intros H Hname Hd Hdd.
  induction H as [top n Hn Hnd|top n name' d' root Hn Hnd Hname' Hx Hxd Hr IH].
  - apply (reach_down f top n name d _ Hn Hnd Hname Hd Hdd).
    apply (reach_top f _ d Hd Hdd).
  - apply (reach_down f top n name' d' _ Hn Hnd Hname' Hx Hxd).
    apply IH, Hd.
Qed.

Lemma reach_cases f top k :
  reach f top k ->
  k = top \/
  exists root name d,
    reach f top root /\ file_name name /\ k = join root name /\
    f !! k = Some d /\ is_dir d = true.
Proof.
  induction 1 as [|top n name d root Hn Hd Hname Hx Hxd Hr IH]; [left; auto|].
  right. destruct IH as [->|(r & nm & d' & Hr' & Hnm & -> & Hk & Hkd)].
  - exists top, name, d. split; [apply (reach_top f top n Hn Hd)|]. auto.
  - exists r, nm, d'.
    split; [apply (reach_down f top n name d r Hn Hd Hname Hx Hxd Hr')|].
    auto.
Qed.

Lemma elem_of_flat_map {A B} (g : A -> list B) (l : list A) (b : B) :
  b ∈ flat_map g l <-> exists a, a ∈ l /\ b ∈ g a.
Proof.
  rewrite list_elem_of_In, in_flat_map. split.
  - intros (a & Ha & Hb). exists a. rewrite !list_elem_of_In. auto.
  - intros (a & Ha & Hb). exists a. rewrite <- !list_elem_of_In. auto.
Qed.

(** What [getFileList] and [getSubDirectories] return, by the walk. *)
Lemma getFileList_run path w :
  exists l w',
    getFileList path w = (Ok l, w') /\ reads_only w w' /\
    forall k, k ∈ l <->
      exists root name,
        reach (fs w) path root /\ file_name name /\
        k = posixpath.join root name /\ isfile_in w k = true.
Proof.
  unfold getFileList. rewrite bind_run.
  destruct (os_walk_run path w) as (l0 & w' & -> & Hw & Hl0).
  eexists _, _. split; [reflexivity|]. split; [exact Hw|].
  intros k. rewrite elem_of_flat_map. split.
  - intros (t & Ht & Hk). apply Hl0 in Ht as (root & Hr & ->).
    simpl in Hk. apply list_elem_of_fmap in Hk as (name & -> & Hin).
    apply elem_of_files_of in Hin as (Hname & n & Hn & Hd).
    exists root, name. unfold isfile_in. rewrite Hn, Hd. auto.
  - intros (root & name & Hr & Hname & -> & Hf).
    exists (walk_entry_of (fs w) root). split; [apply Hl0; eauto|].
    simpl. apply list_elem_of_fmap. exists name. split; [reflexivity|].
    apply elem_of_files_of. split; [exact Hname|].
    unfold isfile_in in Hf.
    destruct (fs w !! join root name) as [n|]; [|discriminate].
    exists n. split; [reflexivity|]. apply negb_true_iff, Hf.
Qed.

Lemma getSubDirectories_run path w :
  exists l w',
    getSubDirectories path w = (Ok l, w') /\ reads_only w w' /\
    StronglySorted String.le l /\
    forall k, k ∈ l <-> reach (fs w) path k /\ k <> path.
Proof.
  unfold getSubDirectories. rewrite bind_run.
  destruct (os_walk_run path w) as (l0 & w' & -> & Hw & Hl0).
  eexists _, _. split; [reflexivity|]. split; [exact Hw|].
  split; [apply (StronglySorted_merge_sort String.le)|].
  intros k. rewrite merge_sort_Permutation, elem_of_flat_map. split.
  - intros (t & Ht & Hk). apply Hl0 in Ht as (root & Hr & ->).
    simpl in Hk. apply list_elem_of_fmap in Hk as (name & -> & Hin).
    apply elem_of_dirs_of in Hin as (Hname & n & Hn & Hd).
    split; [eapply reach_snoc; eassumption|].
    intros E. destruct Hname as [Hne Hc].
    pose proof (join_child_longer root name Hne Hc) as Hl.
    pose proof (reach_longer _ _ _ Hr). rewrite E in Hl. lia.
  - intros [Hr Hne].
    apply reach_cases in Hr as [->|(root & name & d & Hr & Hname & -> & Hd & Hdd)];
      [contradiction|].
    exists (walk_entry_of (fs w) root). split; [apply Hl0; eauto|].
    simpl. apply list_elem_of_fmap. exists name. split; [reflexivity|].
    apply elem_of_dirs_of. eauto.
Qed.


(** X17. [getSubDirectories] returns, and changes nothing; the list is in
    ascending order and has the directories the walk comes to from [path],
    [path] itself left out: all of them lie below [path]. *)
Theorem getSubDirectories_directories (path : string) (w : World) :
  exists l,
    (getSubDirectories path w).1 = Ok l /\
    reads_only w (getSubDirectories path w).2 /\
    StronglySorted String.le l /\
    (forall k, k ∈ l <-> reach (fs w) path k /\ k <> path) /\
    (forall k, k ∈ l ->
       under path k = true /\
       exists n, fs w !! k = Some n /\ is_dir n = true).
Proof.
  destruct (getSubDirectories_run path w) as (l & w' & -> & Hw & Hs & Hiff).
  exists l. split; [reflexivity|]. split; [exact Hw|]. split; [exact Hs|].
  split; [exact Hiff|].
  intros k Hk. apply Hiff in Hk as [Hr _].
  split; [eapply reach_under; eassumption|eapply reach_dir; eassumption].
Qed.

Lemma os_walk_no_directory path w :
  (forall n, fs w !! path = Some n -> is_dir n = false) ->
  exists w', os_walk path w = (Ok [], w').
Proof.
  intros Hno. unfold os_walk. simpl walk_fuel. rewrite bind_run.
  unfold try_OSError. rewrite bind_run, os_scandir_run.
  destruct (fs w !! path) as [n|] eqn:En;
    [rewrite (Hno n eq_refl)|]; eexists; reflexivity.
Qed.

(** X18. [os.walk] keeps the error of a directory it cannot read to itself: on
    a path that is not a directory both functions return the empty list, where
    [listDir] raises. *)
Theorem walk_of_no_directory (path : string) (w : World) :
  (forall n, fs w !! path = Some n -> is_dir n = false) ->
  (getFileList path w).1 = Ok [] /\
  (getSubDirectories path w).1 = Ok [] /\
  exists c, (listDir path w).1 = Raise (OSError c path).
Proof.
  intros Hno. destruct (os_walk_no_directory path w Hno) as [w' Hwalk].
  split; [|split].
  - unfold getFileList. rewrite bind_run, Hwalk. reflexivity.
  - unfold getSubDirectories. rewrite bind_run, Hwalk. reflexivity.
  - unfold listDir, os_listdir. rewrite !bind_run. simpl. rewrite bind_run.
    unfold lookup_node. simpl.
    destruct (fs w !! path) as [n|] eqn:En;
      [rewrite (Hno n eq_refl)|]; eexists; reflexivity.
Qed.

Lemma walk_of_no_directory_witness :
  (getFileList "site/os.py" site_world).1 = Ok [] /\
  (getSubDirectories "missing" site_world).1 = Ok [].
Proof.
  destruct (walk_of_no_directory "site/os.py" site_world) as (H1 & _).
  { intros n H. vm_compute in H. inversion H. reflexivity. }
  destruct (walk_of_no_directory "missing" site_world) as (_ & H2 & _).
  { intros n H. vm_compute in H. discriminate. }
  split; [exact H1|exact H2].
Defined.

Example getFileList_site :
  exists l,
    (getFileList "site" site_world).1 = Ok l /\
    l ≡ₚ ["site/abc.py"; "site/os.py"; "site/json/tool.py"] /\
    (getSubDirectories "site" site_world).1 = Ok ["site/json"].
Proof.
  eexists. split; [vm_compute; reflexivity|].
  split; [|vm_compute; reflexivity].
  apply (bool_decide_unpack _). vm_compute. reflexivity.
Qed.

(** ** [_with_file_Lock] around a body *)

Lemma tame_lock_neutral {A} (m : M A) : tame true m -> lock_neutral m.
Proof.
  intros H w. destruct (H w) as [Hg [_ Hl Ht]]. split; [|split; assumption].
  destruct (m w).1 as [a|[c f|]| |]; simpl in *; auto.
Qed.

(** X1. With the lock free and a body that returns or raises [OSError] and
    leaves the lock alone: the lock is taken before the body runs, made first
    when there is none; it is released after a body that returns and still
    held after one that raises. *)
Theorem with_file_Lock_protocol {A} (body : M A) (w : World) :
  lock_free w -> lock_neutral body ->
  let r := contextmanager _with_file_Lock body w in
  match r.1 with
  | Ok _ =>
      file_lock r.2 = Some false /\
      exists calls,
        calls_made (contextmanager _with_file_Lock body) w =
          lock_calls w ++ calls ++ [LockRelease]
  | Raise (OSError _ _) =>
      file_lock r.2 = Some true /\
      exists calls,
        calls_made (contextmanager _with_file_Lock body) w =
          lock_calls w ++ calls
  | _ => False
  end.
Proof.
  intros Hfree Hbody. cbv zeta.
  destruct (with_file_Lock_cases body w) as [[E _]|[_ E]]; [contradiction|].
  destruct (Hbody (acquired w)) as (Hg & Hl & calls & Ht).
  simpl in Hl. rewrite trace_acquired in Ht.
  destruct (body (acquired w)) as [[a|[c f|]| |] w1] eqn:Eb;
    simpl in Hg, Hl, Ht; try contradiction.
  - rewrite (bind_ok _ _ _ _ _ (after_yield_run w1 Hl)) in E.
    rewrite E. simpl. split; [reflexivity|]. exists calls.
    apply calls_made_app. rewrite E. simpl. rewrite Ht, <- !app_assoc.
    reflexivity.
  - rewrite E. simpl. split; [exact Hl|]. exists calls.
    apply calls_made_app. rewrite E. simpl. rewrite Ht, <- app_assoc.
    reflexivity.
Qed.

Lemma with_file_Lock_protocol_witness :
  file_lock (contextmanager _with_file_Lock (os_rmdir "build") build_world).2
    = Some false /\
  file_lock (contextmanager _with_file_Lock (os_rmdir "dist") build_world).2
    = Some true.
Proof.
  pose proof (with_file_Lock_protocol (os_rmdir "build") build_world) as H1.
  pose proof (with_file_Lock_protocol (os_rmdir "dist") build_world) as H2.
  cbv zeta in H1, H2.
  destruct (contextmanager _with_file_Lock (os_rmdir "build") build_world)
    as [r1 w1] eqn:E1.
  destruct (contextmanager _with_file_Lock (os_rmdir "dist") build_world)
    as [r2 w2] eqn:E2.
  assert (Hr1 : r1 = Ok tt).
  { apply (f_equal fst) in E1. vm_compute in E1. symmetry. exact E1. }
  assert (Hr2 : r2 = Raise (OSError ENOENT "dist")).
  { apply (f_equal fst) in E2. vm_compute in E2. symmetry. exact E2. }
  subst r1 r2. simpl in *.
  split.
  - apply H1; [discriminate|apply tame_lock_neutral, tame_os_rmdir].
  - apply H2; [discriminate|apply tame_lock_neutral, tame_os_rmdir].
Defined.

(** ** [listDir] after [deleteFile] *)

Lemma listDir_run path w n :
  fs w !! path = Some n -> is_dir n = true ->
  listDir path w =
    (Ok (sorted (entry_of path <$> children path (fs w))),
     add_call (Listdir path) w).
Proof.
  intros Hn Hd. unfold listDir, os_listdir. rewrite !bind_run. simpl.
  rewrite bind_run. unfold lookup_node. simpl. rewrite Hn, Hd. reflexivity.
Qed.

Lemma elem_of_listing path f full name :
  (full, name) ∈ sorted (entry_of path <$> children path f) <->
  full = posixpath.join path name /\ file_name name /\
  is_Some (f !! full).
Proof.
  unfold sorted. rewrite merge_sort_Permutation, list_elem_of_fmap. split.
  - intros (name' & E & Hin). inversion E; subst name' full.
    apply elem_of_children in Hin as (H1 & H2 & H3).
    split; [reflexivity|]. split; [split; assumption|exact H3].
  - intros (-> & [H1 H2] & H3). exists name. split; [reflexivity|].
    apply elem_of_children. auto.
Qed.

Lemma join_name_inj path a b :
  file_name a -> file_name b ->
  posixpath.join path a = posixpath.join path b -> a = b.
Proof.
  intros [_ Ha] [_ Hb]. rewrite !join_plain by (apply contains_startswith; assumption).
  intros E. eapply app_inv_length; [exact E|reflexivity].
Qed.

(** X7. When [deleteFile] has deleted a file of a directory, [listDir] of the
    directory returns the list of before without the pair of that file. *)
Theorem listDir_after_deleteFile (path name : string) (must_exist : bool)
    (w w' : World) (n : node) :
  fs w !! path = Some n -> is_dir n = true ->
  file_name name ->
  isfile_in w (posixpath.join path name) = true ->
  deleteFile (posixpath.join path name) must_exist w = (Ok tt, w') ->
  exists l l',
    (listDir path w).1 = Ok l /\ (listDir path w').1 = Ok l' /\
    (posixpath.join path name, name) ∈ l /\
    forall entry, entry ∈ l' <-> entry ∈ l /\ entry.2 <> name.
Proof.
  intros Hn Hd Hname Hfile Hdel.
  apply deleteFile_ok in Hdel as [Hfs _]. rewrite Hfile in Hfs.
  assert (Hne : posixpath.join path name <> path).
  { intros E. destruct Hname as [H1 H2].
    pose proof (join_child_longer path name H1 H2) as Hl.
    rewrite E in Hl. lia. }
  assert (Hn' : fs w' !! path = Some n).
  { rewrite Hfs, lookup_delete_ne by exact Hne. exact Hn. }
  rewrite (listDir_run path w n Hn Hd), (listDir_run path w' n Hn' Hd).
  eexists _, _. split; [reflexivity|]. split; [reflexivity|]. split.
  - apply elem_of_listing. split; [reflexivity|]. split; [exact Hname|].
    unfold isfile_in in Hfile.
    destruct (fs w !! posixpath.join path name); [eauto|discriminate].
  - intros [full nm]. rewrite !elem_of_listing, Hfs. simpl. split.
    + intros (-> & Hnm & [x Hx]).
      apply lookup_delete_Some in Hx as [Hk Hx].
      split; [eauto|]. intros ->. contradiction.
    + intros ((-> & Hnm & [x Hx]) & Hk).
      split; [reflexivity|]. split; [exact Hnm|]. exists x.
      apply lookup_delete_Some. split; [|exact Hx].
      intros E. apply Hk. symmetry.
      eapply join_name_inj; eassumption.
Qed.

Lemma listDir_after_deleteFile_witness :
  exists w' l',
    deleteFile "site/os.py" false site_world = (Ok tt, w') /\
    (listDir "site" w').1 = Ok l' /\
    (("site/os.py", "os.py") ∉ l') /\ (("site/abc.py", "abc.py") ∈ l').
Proof.
  destruct (deleteFile "site/os.py" false site_world) as [r w'] eqn:E.
  assert (Hr : r = Ok tt).
  { apply (f_equal fst) in E. vm_compute in E. symmetry. exact E. }
  subst r.
  destruct (listDir_after_deleteFile "site" "os.py" false site_world w'
              new_directory)
    as (l & l' & Hl & Hl' & _ & Hiff);
    [reflexivity|reflexivity|split; [discriminate|reflexivity]|reflexivity
    |exact E|].
  exists w', l'. split; [reflexivity|]. split; [exact Hl'|]. split.
  - intros Hin. apply Hiff in Hin as [_ Hin]. apply Hin. reflexivity.
  - apply Hiff. split; [|discriminate].
    vm_compute in Hl. inversion Hl. apply elem_of_cons. left. reflexivity.
Defined.

(** ** [splitPath] keeps all but separators *)

(** X19. With [posixpath], the path is its components with separators between
    or behind them, and [splitPath] returns no component for the empty path
    only. *)
Theorem splitPath_components (p : string) :
  (splitPath posix p = [] <-> p = "") /\
  (forall c, splitPath posix p = [c] -> exists k, p = c +:+ slashes k) /\
  (forall head tail, splitPath posix p = [head; tail] ->
     exists k, p = head +:+ slashes k +:+ tail).
Proof.
  unfold splitPath. simpl.
  pose proof (posix_split_cases p) as H.
  destruct (split p) as [h t]. destruct H as (_ & H). simpl.
  assert (Hshape : exists k, p = h +:+ slashes k +:+ t).
  { destruct H as [(-> & ->)|[(_ & _ & ->)|(_ & _ & _ & k & ->)]].
    - exists 0. reflexivity.
    - exists 0. reflexivity.
    - exists (S k). reflexivity. }
  destruct Hshape as [k Hk].
  destruct (Str.is_empty h) eqn:Eh, (Str.is_empty t) eqn:Et; simpl.
  - apply is_empty_true in Eh, Et. subst h t.
    split; [|split; intros; discriminate].
    split; [intros _|reflexivity].
    destruct H as [(_ & ->)|[(Hh & _)|(Hh & _)]]; congruence.
  - apply is_empty_true in Eh. subst h.
    assert (Hp : p = t).
    { destruct H as [(_ & ->)|[(Hh & _)|(Hh & _)]]; congruence. }
    split; [|split; [|intros; discriminate]].
    + split; [discriminate|]. intros ->. subst t. discriminate.
    + intros c E. inversion E; subst c. exists 0.
      rewrite Hp. symmetry. apply app_empty_r.
  - apply is_empty_true in Et. subst t.
    split; [|split; [|intros; discriminate]].
    + split; [discriminate|]. intros ->.
      destruct h; [discriminate|]. destruct k; discriminate.
    + intros c E. inversion E; subst c. exists k. rewrite Hk.
      rewrite app_empty_r. reflexivity.
  - split; [|split; [intros; discriminate|]].
    + split; [discriminate|]. intros ->.
      destruct h; [discriminate|]. destruct k; discriminate.
    + intros head tail E. inversion E; subst. eauto.
Qed.

Lemma splitPath_components_witness :
  exists k, "usr/lib//" = "usr/lib" +:+ slashes k.
Proof.
  apply (proj1 (proj2 (splitPath_components "usr/lib//"))). reflexivity.
Defined.

(** ** [areSamePaths] and normal forms *)

Lemma split_comp_ok s :
  Forall (fun x => x = "" \/ comp_ok x) (Str.split sep s).
Proof.
  induction s as [|a s IH]; simpl.
  - constructor; [auto|constructor].
  - destruct (Ascii.eqb a sep) eqn:Ea; [constructor; auto|].
    pose proof (split_not_nil sep s) as Hn.
    destruct (Str.split sep s) as [|x l]; [contradiction|].
    inversion IH as [|? ? Hx Hl]; subst. constructor; [|assumption].
    right. split; [discriminate|]. simpl. rewrite Ea. simpl.
    destruct Hx as [->|[_ Hx]]; [reflexivity|exact Hx].
Qed.

Lemma removelast_Forall {A} (P : A -> Prop) l :
  Forall P l -> Forall P (removelast l).
Proof.
  induction 1 as [|x l Hx Hl IH]; [constructor|].
  simpl. destruct l; [constructor|]. constructor; assumption.
Qed.

Lemma norm_step_Forall (P : string -> Prop) i acc comp :
  Forall P acc -> comp = "" \/ P comp -> Forall P (norm_step i acc comp).
Proof.
  intros Hacc Hc. unfold norm_step.
  destruct (String.eqb comp "") eqn:E1; [exact Hacc|].
  destruct Hc as [->|Hc]; [discriminate|].
  destruct (String.eqb comp "."); [exact Hacc|]. simpl.
  destruct (_ || _).
  - apply Forall_app. split; [exact Hacc|]. constructor; [exact Hc|constructor].
  - destruct (negb (is_nil acc)); [|exact Hacc].
    apply removelast_Forall, Hacc.
Qed.

Lemma fold_norm_step_Forall (P : string -> Prop) i l acc :
  Forall P acc -> Forall (fun x => x = "" \/ P x) l ->
  Forall P (fold_left (norm_step i) l acc).
Proof.
  intros Hacc Hl. revert acc Hacc.
  induction Hl as [|x l Hx Hl IH]; intros acc Hacc; simpl; [exact Hacc|].
  apply IH, norm_step_Forall; assumption.
Qed.

Lemma normal_inv i l c :
  normal_comps i (l ++ [c]) ->
  normal_comps i l /\ c <> "" /\ c <> "." /\
  (c = ".." -> i = 0 /\ Forall (fun x => x = "..") l).
Proof.
  intros H. inversion H as [E|l' c' Hl Hc1 Hc2 Hc3 E].
  - destruct l; discriminate.
  - apply app_inj_tail in E as [-> ->]. auto.
Qed.

Lemma normal_prefix i a b : normal_comps i (a ++ b) -> normal_comps i a.
Proof.
  induction b as [|c b IH] using rev_ind; [rewrite app_nil_r; auto|].
  rewrite app_assoc. intros H. apply normal_inv in H as [H _]. auto.
Qed.

Lemma last_snoc (l : list string) c d : List.last (l ++ [c]) d = c.
Proof. apply List.last_last. Qed.

Lemma last_all_dotdot (l : list string) :
  l <> [] -> Forall (fun x => x = "..") l -> List.last l "" = "..".
Proof.
  destruct l as [|c l] using rev_ind; [contradiction|].
  intros _ H. apply Forall_app in H as [_ H]. inversion H; subst.
  apply last_snoc.
Qed.

Lemma is_nil_false {A} (l : list A) : l <> [] -> is_nil l = false.
Proof. destruct l; [contradiction|reflexivity]. Qed.

(** One step of the loop keeps the components normal. *)
Lemma norm_step_normal i acc comp :
  normal_comps i acc -> normal_comps i (norm_step i acc comp).
Proof.
  intros Hacc. unfold norm_step.
  destruct (String.eqb comp "") eqn:E1; [exact Hacc|].
  destruct (String.eqb comp ".") eqn:E2; [exact Hacc|]. simpl.
  apply String.eqb_neq in E1, E2.
  destruct (String.eqb comp "..") eqn:E3; simpl.
  - apply String.eqb_eq in E3. subst comp.
    destruct (Nat.eqb i 0 && is_nil acc) eqn:E4; simpl.
    + apply andb_true_iff in E4 as [Hi Hn]. apply Nat.eqb_eq in Hi.
      destruct acc; [|discriminate].
      apply (normal_snoc i [] ".." Hacc E1 E2). auto.
    + destruct acc as [|c acc] using rev_ind; [simpl; exact Hacc|].
      clear IHacc. rewrite is_nil_false by (destruct acc; discriminate).
      simpl negb. rewrite last_snoc.
      destruct (String.eqb c "..") eqn:E5; simpl.
      * apply String.eqb_eq in E5. subst c.
        pose proof (normal_inv _ _ _ Hacc) as (_ & _ & _ & Hd).
        destruct (Hd eq_refl) as [Hi Hall].
        apply (normal_snoc i _ ".." Hacc E1 E2). intros _.
        split; [exact Hi|]. apply Forall_app. split; [exact Hall|].
        constructor; [reflexivity|constructor].
      * rewrite List.removelast_last.
        apply (normal_inv _ _ _ Hacc).
  - apply (normal_snoc i acc comp Hacc E1 E2).
    intros ->. discriminate.
Qed.

Lemma fold_norm_step_normal i l acc :
  normal_comps i acc -> normal_comps i (fold_left (norm_step i) l acc).
Proof.
  revert acc. induction l as [|c l IH]; intros acc H; simpl; [exact H|].
  apply IH, norm_step_normal, H.
Qed.

(** The loop over components that are normal already changes nothing. *)
Lemma fold_norm_step_id i l : forall acc,
  normal_comps i (acc ++ l) -> fold_left (norm_step i) l acc = acc ++ l.
Proof.
  induction l as [|c l IH]; intros acc H; simpl; [symmetry; apply app_nil_r|].
  change (c :: l) with ([c] ++ l) in H. rewrite app_assoc in H.
  assert (Hstep : norm_step i acc c = acc ++ [c]).
  { apply normal_prefix, normal_inv in H as (_ & E1 & E2 & Hd).
    unfold norm_step. apply String.eqb_neq in E1, E2. rewrite E1, E2. simpl.
    destruct (String.eqb c "..") eqn:E3; [|reflexivity]. simpl.
    apply String.eqb_eq in E3. destruct (Hd E3) as [-> Hall]. simpl.
    destruct acc as [|a acc]; [reflexivity|]. simpl is_nil. simpl negb.
    rewrite (last_all_dotdot (a :: acc)) by (discriminate || exact Hall).
    reflexivity. }
  rewrite Hstep, (IH _ H), <- app_assoc. reflexivity.
Qed.

Lemma split_join l :
  l <> [] -> Forall comp_ok l -> Str.split sep (Str.join sep l) = l.
Proof.
  intros Hne H. induction H as [|c l [_ Hc] Hl IH]; [contradiction|].
  destruct l as [|d l].
  - simpl. apply split_no_sep, Hc.
  - change (Str.join sep (c :: d :: l))
      with (c +:+ String sep (Str.join sep (d :: l))).
    rewrite split_app_sep, IH by discriminate.
    rewrite (split_no_sep _ _ Hc). reflexivity.
Qed.

Lemma initial_slashes_cases p :
  initial_slashes p = 0 \/ initial_slashes p = 1 \/ initial_slashes p = 2.
Proof.
  destruct p as [|a [|b [|c p]]]; simpl;
    repeat match goal with |- context [if ?x then _ else _] => destruct x end;
    auto.
Qed.

Lemma initial_slashes_built i j :
  i <= 2 -> Str.startswith sep j = false -> j <> "" ->
  initial_slashes (Str.replicate i sep +:+ j) = i.
Proof.
  intros Hi Hs Hj. destruct j as [|a j]; [contradiction|]. simpl in Hs.
  destruct i as [|[|[|i]]]; [| | |lia]; simpl.
  - rewrite Hs. destruct j as [|b [|c j]]; reflexivity.
  - rewrite Hs. destruct j; reflexivity.
  - rewrite Hs. reflexivity.
Qed.

(** [normpath] of a normal path is the path. *)
Lemma normpath_idempotent p : normpath (normpath p) = normpath p.
Proof.
  destruct (Str.is_empty p) eqn:Ep.
  { apply is_empty_true in Ep. subst p. reflexivity. }
  pose (i := initial_slashes p).
  pose (comps := fold_left (norm_step i) (Str.split sep p) []).
  pose (out := if Nat.eqb i 0 then Str.join sep comps
               else Str.replicate i sep +:+ Str.join sep comps).
  assert (Hp : normpath p = if Str.is_empty out then "." else out).
  { unfold normpath. rewrite Ep. reflexivity. }
  assert (Hi : i <= 2)
    by (unfold i; destruct (initial_slashes_cases p) as [->|[->| ->]]; lia).
  assert (Hnf : normal_comps i comps)
    by (apply fold_norm_step_normal; constructor).
  assert (Hok : Forall comp_ok comps).
  { apply fold_norm_step_Forall; [constructor|apply split_comp_ok]. }
  assert (Hout : out = Str.replicate i sep +:+ Str.join sep comps).
  { unfold out. destruct i; reflexivity. }
  rewrite Hp. clearbody comps. clear Hp.
  assert (Hcase : comps = [] \/ comps <> [])
    by (destruct comps; [left|right]; congruence).
  destruct Hcase as [Ec|Ec].
  { rewrite Hout, Ec. simpl Str.join. clearbody i.
    destruct i as [|[|[|i]]]; [| | |lia]; reflexivity. }
  assert (Hj : Str.join sep comps <> "").
  { clear -Hok Ec. destruct comps as [|c cs]; [contradiction|].
    inversion Hok as [|? ? [Hc _] _]; subst.
    destruct c; [contradiction|]. destruct cs; discriminate. }
  assert (Hs : Str.startswith sep (Str.join sep comps) = false).
  { apply join_plain_start. eapply Forall_impl; [exact Hok|].
    intros x [Hx Hc]. split; [exact Hx|apply contains_startswith, Hc]. }
  assert (Hne : Str.is_empty out = false).
  { rewrite Hout. destruct (Str.join sep comps); [contradiction|].
    clearbody i. destruct i as [|[|[|i]]]; reflexivity. }
  rewrite Hne. unfold normpath. rewrite Hne.
  assert (Hinit : initial_slashes out = i).
  { rewrite Hout. apply initial_slashes_built; assumption. }
  rewrite Hinit.
  assert (Hcomps : fold_left (norm_step i) (Str.split sep out) [] = comps).
  { rewrite fold_norm_step_filter, Hout, split_replicate_app.
    rewrite List.filter_app, filter_nonempty_replicate. simpl app.
    rewrite <- fold_norm_step_filter.
    rewrite split_join by (exact Ec || exact Hok).
    apply (fold_norm_step_id i comps []). exact Hnf. }
  rewrite Hcomps. fold out. rewrite Hne. reflexivity.
Qed.

(** Normalising the components first does not change what the loop makes
    of them, whatever it has collected before. *)
Lemma norm_step_unfold i acc comp :
  norm_step i acc comp =
  if String.eqb comp "" || String.eqb comp "." then acc
  else if negb (String.eqb comp "..")
          || (Nat.eqb i 0 && is_nil acc)
          || (negb (is_nil acc) && String.eqb (List.last acc "") "..")
  then acc ++ [comp]
  else if negb (is_nil acc) then removelast acc
  else acc.
Proof. reflexivity. Qed.

Lemma norm_step_prenormalized i N c acc :
  normal_comps 0 N ->
  fold_left (norm_step i) (norm_step 0 N c) acc =
  norm_step i (fold_left (norm_step i) N acc) c.
Proof.
  intros HN. rewrite (norm_step_unfold 0 N c).
  destruct (String.eqb c "" || String.eqb c ".") eqn:E1.
  { rewrite norm_step_unfold, E1. reflexivity. }
  destruct (String.eqb c "..") eqn:E2; cbn [negb orb];
    [|rewrite fold_left_app; reflexivity].
  apply String.eqb_eq in E2. subst c. clear E1.
  destruct N as [|d N' _] using rev_ind; [reflexivity|].
  rewrite is_nil_false by (destruct N'; discriminate).
  cbn [negb andb Nat.eqb orb]. rewrite last_snoc.
  destruct (String.eqb d "..") eqn:E3; [rewrite fold_left_app; reflexivity|].
  rewrite List.removelast_last, fold_left_app. cbn [fold_left].
  apply normal_inv in HN as (_ & D1 & D2 & _).
  set (X := fold_left (norm_step i) N' acc).
  assert (Hd : norm_step i X d = X ++ [d]).
  { unfold norm_step. apply String.eqb_neq in D1, D2.
    rewrite D1, D2, E3. reflexivity. }
  rewrite Hd, norm_step_unfold.
  change (String.eqb ".." "" || String.eqb ".." ".") with false.
  change (String.eqb ".." "..") with true. cbn [negb orb].
  rewrite is_nil_false by (destruct X; discriminate).
  rewrite last_snoc, E3, andb_false_r. cbn [negb orb andb].
  rewrite List.removelast_last. reflexivity.
Qed.

Lemma fold_norm_step_prenormalized i l acc :
  fold_left (norm_step i) (fold_left (norm_step 0) l []) acc =
  fold_left (norm_step i) l acc.
Proof.
  induction l as [|c l IH] using rev_ind; [reflexivity|].
  rewrite !fold_left_app. simpl.
  rewrite norm_step_prenormalized, IH; [reflexivity|].
  apply fold_norm_step_normal. constructor.
Qed.

Lemma initial_slashes_relative p : isabs p = false -> initial_slashes p = 0.
Proof.
  unfold isabs. destruct p as [|a [|b [|c p]]]; simpl; try reflexivity;
    intros ->; reflexivity.
Qed.

(** The components of the normal form of a relative path do to the loop
    what those of the path do. *)
Lemma normpath_relative_comps i p acc :
  isabs p = false ->
  fold_left (norm_step i) (Str.split sep (normpath p)) acc =
  fold_left (norm_step i) (Str.split sep p) acc.
Proof.
  intros Hrel. destruct (Str.is_empty p) eqn:Ep.
  { apply is_empty_true in Ep. subst p. reflexivity. }
  rewrite <- (fold_norm_step_prenormalized i (Str.split sep p)).
  unfold normpath. rewrite Ep, (initial_slashes_relative p Hrel).
  simpl Nat.eqb. cbv iota.
  set (comps := fold_left (norm_step 0) (Str.split sep p) []).
  assert (Hok : Forall comp_ok comps).
  { apply fold_norm_step_Forall; [constructor|apply split_comp_ok]. }
  clearbody comps. destruct comps as [|c cs]; [reflexivity|].
  assert (Hj : Str.is_empty (Str.join sep (c :: cs)) = false).
  { inversion Hok as [|? ? [Hc _] _]; subst.
    destruct c; [contradiction|]. destruct cs; reflexivity. }
  rewrite Hj, split_join by (discriminate || exact Hok). reflexivity.
Qed.

Lemma initial_slashes_dir d x y :
  Str.endswith sep d = true ->
  Str.startswith sep x = false -> Str.startswith sep y = false ->
  initial_slashes (d +:+ x) = initial_slashes (d +:+ y).
Proof.
  intros Hd Hx Hy. destruct d as [|a [|b [|c d]]]; [discriminate| | |].
  - simpl in Hd. apply Ascii.eqb_eq in Hd. subst a.
    destruct x as [|x1 [|x2 x]], y as [|y1 [|y2 y]]; simpl in *;
      rewrite ?Hx, ?Hy; reflexivity.
  - simpl in Hd. apply Ascii.eqb_eq in Hd. subst b.
    destruct x as [|x1 x], y as [|y1 y]; simpl in *;
      destruct (Ascii.eqb a sep); rewrite ?Hx, ?Hy; reflexivity.
  - reflexivity.
Qed.

Lemma endswith_app_sep s : Str.endswith sep (s +:+ String sep "") = true.
Proof.
  induction s as [|a s IH]; [reflexivity|].
  simpl. destruct s; [reflexivity|exact IH].
Qed.

Lemma dir_prefix_cases d :
  dir_prefix d = "" \/ Str.endswith sep (dir_prefix d) = true.
Proof.
  unfold dir_prefix. destruct d as [|a d]; [left; reflexivity|]. right.
  cbn [Str.is_empty orb].
  destruct (Str.endswith sep (String a d)) eqn:E; [exact E|].
  apply endswith_app_sep.
Qed.

Lemma normpath_ext_fold y y' :
  Str.is_empty y = Str.is_empty y' ->
  initial_slashes y = initial_slashes y' ->
  fold_left (norm_step (initial_slashes y)) (Str.split sep y) [] =
  fold_left (norm_step (initial_slashes y)) (Str.split sep y') [] ->
  normpath y = normpath y'.
Proof.
  intros He Hi Hf. unfold normpath. rewrite <- He, <- Hi, Hf. reflexivity.
Qed.

(** [abspath] of the normal form is [abspath] of the path. *)
Lemma abspath_normpath cwd p : abspath cwd (normpath p) = abspath cwd p.
Proof.
  unfold abspath. rewrite isabs_normpath.
  destruct (isabs p) eqn:Hrel; [apply normpath_idempotent|].
  assert (Hn : Str.startswith sep (normpath p) = false)
    by (rewrite <- Hrel; apply isabs_normpath).
  rewrite !join_plain by assumption.
  assert (Hd : dir_prefix cwd = "" \/ Str.endswith sep (dir_prefix cwd) = true)
    by apply dir_prefix_cases.
  destruct Hd as [->|Hd]; [apply normpath_idempotent|].
  pose proof (endswith_snoc _ _ Hd) as [d' Hd'].
  set (D := dir_prefix cwd) in *.
  assert (HD : Str.is_empty D = false) by (destruct D; [discriminate|reflexivity]).
  apply normpath_ext_fold.
  - rewrite !is_empty_app by exact HD. reflexivity.
  - apply initial_slashes_dir; assumption.
  - rewrite Hd', !app_assoc_str. simpl String.append.
    rewrite !split_app_sep, !fold_left_app.
    apply normpath_relative_comps, Hrel.
Qed.

(** X20. With [posixpath], [areSamePaths] compares what [abspath] makes of the
    two paths: the [normpath] before it and the [normcase] after it change
    nothing. So a path is the same as its normal form, and with a working
    directory that is absolute also the same as its absolute form. *)
Theorem areSamePaths_normpath (cwd p q : string) :
  areSamePaths posix cwd p q = String.eqb (abspath cwd p) (abspath cwd q) /\
  areSamePaths posix cwd p (normpath p) = true /\
  (isabs cwd = true -> areSamePaths posix cwd p (abspath cwd p) = true).
Proof.
  assert (E : forall a b, areSamePaths posix cwd a b =
                          String.eqb (abspath cwd a) (abspath cwd b)).
  { intros a b. unfold areSamePaths. simpl. unfold normcase.
    rewrite !abspath_normpath. reflexivity. }
  split; [apply E|]. split.
  - rewrite E, abspath_normpath. apply String.eqb_refl.
  - intros Hcwd. rewrite E. apply String.eqb_eq. symmetry.
    assert (Habs : isabs (abspath cwd p) = true).
    { unfold abspath. rewrite isabs_normpath.
      destruct (isabs p) eqn:Hp; [exact Hp|].
      rewrite join_plain by exact Hp. unfold dir_prefix, isabs in *.
      destruct cwd as [|a cwd]; [discriminate|]. simpl in Hcwd.
      cbn [Str.is_empty orb].
      destruct (Str.endswith sep (String a cwd)); exact Hcwd. }
    rewrite (abspath_absolute cwd _ Habs). unfold abspath at 1 2.
    apply normpath_idempotent.
Qed.

Lemma areSamePaths_normpath_witness :
  areSamePaths posix "/home/u" "../v//./pkg" "/home/v/pkg" = true.
Proof.
  destruct (areSamePaths_normpath "/home/u" "../v//./pkg" "") as (_ & _ & H).
  apply H. reflexivity.
Defined.

(** ** [relpath] *)

Lemma normpath_build x :
  Str.is_empty x = false ->
  normpath x =
  build_path (initial_slashes x)
    (fold_left (norm_step (initial_slashes x)) (Str.split sep x) []).
Proof. intros H. unfold normpath, build_path. rewrite H. reflexivity. Qed.

Lemma filter_nonempty_comps l :
  Forall comp_ok l -> List.filter nonempty l = l.
Proof.
  induction 1 as [|c l [Hc _] Hl IH]; [reflexivity|].
  simpl. destruct c; [contradiction|]. simpl. rewrite IH. reflexivity.
Qed.

(** The components of a path [normpath] has built are those it was built
    from. *)
Lemma split_build i comps :
  0 < i -> Forall comp_ok comps ->
  List.filter nonempty (Str.split sep (build_path i comps)) = comps.
Proof.
  intros Hi Hok. unfold build_path.
  destruct i as [|i]; [lia|]. simpl Nat.eqb. cbv iota.
  change (Str.is_empty (Str.replicate (S i) sep +:+ Str.join sep comps))
    with false. cbv iota.
  rewrite split_replicate_app, List.filter_app, filter_nonempty_replicate.
  simpl app. destruct comps as [|c cs]; [reflexivity|].
  rewrite split_join by (discriminate || exact Hok).
  apply filter_nonempty_comps, Hok.
Qed.

Lemma normal_regular i l :
  0 < i -> normal_comps i l -> Forall comp_ok l -> Forall regular l.
Proof.
  intros Hi Hn. induction Hn as [|l c Hl IH H1 H2 H3]; intros Hok;
    [constructor|].
  apply Forall_app in Hok as [Hok Hc]. apply Forall_app. split; [auto|].
  inversion Hc; subst. constructor; [|constructor].
  split; [assumption|]. split; [exact H2|].
  intros E. destruct (H3 E) as [E0 _]. lia.
Qed.

Lemma norm_step_regular i acc c :
  regular c -> norm_step i acc c = acc ++ [c].
Proof.
  intros ([H0 _] & H1 & H2). rewrite norm_step_unfold.
  apply String.eqb_neq in H0, H1, H2. rewrite H0, H1, H2. reflexivity.
Qed.

Lemma fold_regular i l : forall acc,
  Forall regular l -> fold_left (norm_step i) l acc = acc ++ l.
Proof.
  induction l as [|c l IH]; intros acc H; simpl; [symmetry; apply app_nil_r|].
  inversion H; subst. rewrite norm_step_regular by assumption.
  rewrite IH by assumption. rewrite <- app_assoc. reflexivity.
Qed.

(** [..] after names, in an absolute path: each one takes a name away. *)
Lemma fold_pops i m : forall acc,
  0 < i -> Forall regular acc -> m <= length acc ->
  fold_left (norm_step i) (repeat pardir m) acc =
  firstn (length acc - m) acc.
Proof.
  induction m as [|m IH]; intros acc Hi Hacc Hm.
  - simpl. rewrite Nat.sub_0_r, firstn_all. reflexivity.
  - destruct acc as [|d acc _] using rev_ind; [simpl in Hm; lia|].
    apply Forall_app in Hacc as [Hacc Hd]. inversion Hd as [|? ? Hd' _]; subst.
    rewrite length_app in Hm |- *. simpl in Hm |- *.
    assert (Hstep : norm_step i (acc ++ [d]) pardir = acc).
    { rewrite norm_step_unfold. unfold pardir.
      change (String.eqb ".." "" || String.eqb ".." ".") with false.
      change (String.eqb ".." "..") with true. cbn [negb orb].
      rewrite is_nil_false by (destruct acc; discriminate).
      rewrite last_snoc.
      destruct Hd' as (_ & _ & Hdd). apply String.eqb_neq in Hdd.
      rewrite Hdd, andb_false_r. cbn [negb orb andb].
      destruct i; [lia|]. apply List.removelast_last. }
    rewrite Hstep, IH by (assumption || lia).
    replace (length acc + 1 - S m) with (length acc - m) by lia.
    rewrite firstn_app.
    replace (length acc - m - length acc) with 0 by lia.
    simpl. rewrite app_nil_r. reflexivity.
Qed.

Lemma commonprefix_spec l1 : forall l2,
  firstn (length (commonprefix l1 l2)) l1 = commonprefix l1 l2 /\
  firstn (length (commonprefix l1 l2)) l2 = commonprefix l1 l2 /\
  length (commonprefix l1 l2) <= length l1 /\
  length (commonprefix l1 l2) <= length l2.
Proof.
  induction l1 as [|a l1 IH]; intros [|b l2]; simpl;
    try (repeat split; (reflexivity || lia)).
  destruct (String.eqb a b) eqn:E; simpl;
    [|repeat split; (reflexivity || lia)].
  apply String.eqb_eq in E. subst b.
  destruct (IH l2) as (H1 & H2 & H3 & H4).
  rewrite H1, H2. repeat split; (reflexivity || lia).
Qed.

Lemma endswith_app c x y :
  y <> "" -> Str.endswith c (x +:+ y) = Str.endswith c y.
Proof.
  intros Hy. induction x as [|a x IH]; [reflexivity|].
  simpl. destruct (x +:+ y) eqn:E; [|exact IH].
  destruct x; [simpl in E; congruence|discriminate].
Qed.

Lemma comp_ok_endswith c : comp_ok c -> Str.endswith sep c = false.
Proof.
  intros [_ H]. induction c as [|a c IH]; [reflexivity|].
  simpl in H. apply orb_false_iff in H as [Ha Hc]. simpl.
  destruct c; [exact Ha|apply IH, Hc].
Qed.

Lemma fold_join_comps p : forall acc,
  acc <> "" -> Str.endswith sep acc = false -> Forall comp_ok p ->
  fold_left join p acc = Str.join sep (acc :: p).
Proof.
  induction p as [|b p IH]; intros acc Hne He Hok; [reflexivity|].
  inversion Hok as [|? ? Hb Hp]; subst. simpl fold_left.
  assert (Hj : join acc b = acc +:+ String sep b).
  { unfold join. destruct Hb as [_ Hb].
    rewrite (contains_startswith _ _ Hb), He.
    destruct acc; [contradiction|reflexivity]. }
  rewrite Hj, IH; [| | |exact Hp].
  - destruct p as [|c p].
    + reflexivity.
    + change (Str.join sep ((acc +:+ String sep b) :: c :: p))
        with ((acc +:+ String sep b) +:+ String sep (Str.join sep (c :: p))).
      change (Str.join sep (acc :: b :: c :: p))
        with (acc +:+ String sep (b +:+ String sep (Str.join sep (c :: p)))).
      rewrite app_assoc_str. reflexivity.
  - destruct acc; discriminate.
  - change (acc +:+ String sep b) with (acc +:+ (String sep "" +:+ b)).
    rewrite <- app_assoc_str, endswith_app by (destruct Hb; assumption).
    apply comp_ok_endswith, Hb.
Qed.

Lemma join_all_comps l :
  l <> [] -> Forall comp_ok l -> join_all l = Some (Str.join sep l).
Proof.
  intros Hne Hok. destruct l as [|a p]; [contradiction|].
  inversion Hok as [|? ? Ha Hp]; subst. simpl. f_equal.
  apply fold_join_comps;
    [destruct Ha; assumption|apply comp_ok_endswith, Ha|exact Hp].
Qed.

Lemma cwd_prefix_cases cwd :
  isabs cwd = true ->
  Str.is_empty (dir_prefix cwd) = false /\
  Str.endswith sep (dir_prefix cwd) = true /\
  0 < cwd_slashes cwd.
Proof.
  intros Habs. destruct cwd as [|a cwd]; [discriminate|].
  simpl in Habs. apply Ascii.eqb_eq in Habs. subst a.
  assert (HD : exists d, dir_prefix (String sep cwd) = String sep d).
  { unfold dir_prefix. destruct (_ || _); eauto. }
  destruct HD as [d HD].
  destruct (dir_prefix_cases (String sep cwd)) as [E|E]; [congruence|].
  split; [rewrite HD; reflexivity|]. split; [exact E|].
  unfold cwd_slashes. rewrite HD.
  destruct d as [|b [|c d]]; simpl;
    repeat match goal with |- context [if ?x then _ else _] => destruct x end;
    lia.
Qed.

Lemma cwd_comps_ok cwd :
  isabs cwd = true ->
  normal_comps (cwd_slashes cwd) (cwd_comps cwd) /\
  Forall comp_ok (cwd_comps cwd).
Proof.
  intros _. split.
  - apply fold_norm_step_normal. constructor.
  - apply fold_norm_step_Forall; [constructor|apply split_comp_ok].
Qed.

(** [abspath] of a relative path, from an absolute working directory. *)
Lemma abspath_relative cwd x :
  isabs cwd = true -> isabs x = false ->
  abspath cwd x =
  build_path (cwd_slashes cwd)
    (fold_left (norm_step (cwd_slashes cwd)) (Str.split sep x)
       (cwd_comps cwd)).
Proof.
  intros Hcwd Hx. unfold abspath. rewrite Hx, join_plain by exact Hx.
  destruct (cwd_prefix_cases cwd Hcwd) as (HD & He & _).
  rewrite normpath_build by (apply is_empty_app, HD).
  assert (Hi : initial_slashes (dir_prefix cwd +:+ x) = cwd_slashes cwd).
  { unfold cwd_slashes.
    rewrite (initial_slashes_dir _ x "" He Hx eq_refl), app_empty_r.
    reflexivity. }
  rewrite Hi. f_equal. unfold cwd_comps.
  destruct (endswith_snoc _ _ He) as [d' Hd']. rewrite Hd'.
  rewrite app_assoc_str. simpl String.append.
  rewrite !split_app_sep, !fold_left_app. reflexivity.
Qed.

Lemma cwd_slashes_eq cwd : cwd_slashes cwd = initial_slashes cwd.
Proof.
  unfold cwd_slashes, dir_prefix.
  destruct (Str.is_empty cwd || Str.endswith sep cwd) eqn:E; [reflexivity|].
  apply orb_false_iff in E as [E1 E2].
  apply initial_slashes_app, endswith_not_all; [|exact E2].
  destruct cwd; [discriminate|discriminate].
Qed.

(** [abspath], from an absolute working directory, of a path that starts
    like it when it is absolute: the slashes of the working directory and
    names. *)
Lemma abspath_built cwd p :
  isabs cwd = true -> p <> "" ->
  (isabs p = true -> initial_slashes p = initial_slashes cwd) ->
  exists comps,
    abspath cwd p = build_path (cwd_slashes cwd) comps /\
    Forall regular comps.
Proof.
  intros Hcwd Hp Hi.
  destruct (cwd_prefix_cases cwd Hcwd) as (_ & _ & Hpos).
  destruct (cwd_comps_ok cwd Hcwd) as [Hn Hok].
  destruct (isabs p) eqn:Habs.
  - rewrite abspath_absolute by exact Habs.
    rewrite normpath_build by (destruct p; [contradiction|reflexivity]).
    rewrite (Hi eq_refl), <- cwd_slashes_eq. eexists. split; [reflexivity|].
    apply (normal_regular _ _ Hpos).
    + apply fold_norm_step_normal. constructor.
    + apply fold_norm_step_Forall; [constructor|apply split_comp_ok].
  - rewrite abspath_relative by assumption. eexists. split; [reflexivity|].
    apply (normal_regular _ _ Hpos).
    + apply fold_norm_step_normal, Hn.
    + apply fold_norm_step_Forall; [exact Hok|apply split_comp_ok].
Qed.

Lemma regular_comp_ok l : Forall regular l -> Forall comp_ok l.
Proof. intros H. eapply Forall_impl; [exact H|]. intros c [Hc _]. exact Hc. Qed.

Lemma comp_ok_plain l : Forall comp_ok l -> Forall plain l.
Proof.
  intros H. eapply Forall_impl; [exact H|]. intros c [H1 H2].
  split; [exact H1|apply contains_startswith, H2].
Qed.

Lemma comp_ok_pardir : comp_ok pardir.
Proof. split; [discriminate|reflexivity]. Qed.

(** X21. [relpath] of a path that is not empty, from an absolute working
    directory (and for an absolute path that starts with as many slashes as
    that directory): it returns, whatever [getOS()] says, a relative path that
    [abspath] takes to where it takes the given one, so that [areSamePaths]
    holds the two for the same. *)
Theorem relpath_same_path (is_windows : bool) (cwd p : string) :
  isabs cwd = true -> p <> "" ->
  (isabs p = true -> initial_slashes p = initial_slashes cwd) ->
  exists r,
    FileOperations.relpath is_windows (posixpath.relpath cwd) (abspath cwd) p
      = Some r /\
    isabs r = false /\
    abspath cwd r = abspath cwd p /\
    areSamePaths posix cwd r p = true.
Proof.
  intros Hcwd Hp Hi.
  destruct (cwd_prefix_cases cwd Hcwd) as (_ & _ & Hpos).
  destruct (cwd_comps_ok cwd Hcwd) as [Hn Hok].
  pose proof (normal_regular _ _ Hpos Hn Hok) as Hreg.
  destruct (abspath_built cwd p Hcwd Hp Hi) as (P & HP & HPreg).
  set (C := cwd_comps cwd) in *. set (ic := cwd_slashes cwd) in *.
  assert (Hstart : abspath cwd curdir = build_path ic C)
    by (rewrite abspath_relative by (exact Hcwd || reflexivity); reflexivity).
  assert (Hsame : forall r,
            isabs r = false ->
            fold_left (norm_step ic) (Str.split sep r) C = P ->
            abspath cwd r = abspath cwd p /\
            areSamePaths posix cwd r p = true).
  { intros r Hr Hf.
    assert (E : abspath cwd r = abspath cwd p).
    { rewrite (abspath_relative cwd r Hcwd Hr). fold ic C.
      rewrite Hf, HP. reflexivity. }
    split; [exact E|]. unfold areSamePaths. simpl. unfold normcase.
    rewrite !abspath_normpath, E. apply String.eqb_refl. }
  unfold FileOperations.relpath, posixpath.relpath.
  replace (Str.is_empty p) with false by (destruct p; [contradiction|reflexivity]).
  rewrite Hstart, HP.
  change (fun x : string => negb (Str.is_empty x)) with nonempty.
  rewrite !split_build by (exact Hpos || apply regular_comp_ok; assumption).
  destruct (commonprefix_spec C P) as (H1 & H2 & H3 & H4).
  set (k := length (commonprefix C P)) in *.
  set (rel_list := repeat pardir (length C - k) ++ skipn k P).
  assert (Hcase : rel_list = [] \/ rel_list <> [])
    by (destruct rel_list; [left|right]; congruence).
  destruct Hcase as [Erel|Hne].
  - rewrite Erel. simpl is_nil. cbv iota. exists curdir.
    split; [reflexivity|]. split; [reflexivity|].
    rewrite <- HP. apply Hsame; [reflexivity|].
    apply app_eq_nil in Erel as [Er Es].
    assert (HkC : length C - k = 0)
      by (destruct (length C - k); [reflexivity|discriminate]).
    assert (HkP : length P <= k).
    { apply (f_equal (@length string)) in Es. rewrite length_skipn in Es.
      simpl in Es. lia. }
    change (fold_left (norm_step ic) (Str.split sep curdir) C) with C.
    rewrite <- (firstn_all C), <- (firstn_all P).
    replace (length C) with k by lia. replace (length P) with k by lia.
    rewrite H1, H2. reflexivity.
  - rewrite (is_nil_false _ Hne).
    assert (Hrel : Forall comp_ok rel_list).
    { apply Forall_app. split.
      - apply Forall_forall. intros x Hx. apply list_elem_of_In in Hx.
        apply repeat_spec in Hx. subst x. apply comp_ok_pardir.
      - apply regular_comp_ok, Forall_drop, HPreg. }
    rewrite (join_all_comps _ Hne Hrel). eexists. split; [reflexivity|].
    assert (Hr : isabs (Str.join sep rel_list) = false)
      by (apply join_plain_start, comp_ok_plain, Hrel).
    split; [exact Hr|]. rewrite <- HP. apply Hsame; [exact Hr|].
    rewrite (split_join _ Hne Hrel). unfold rel_list.
    rewrite fold_left_app, fold_pops by (assumption || lia).
    rewrite fold_regular by (apply Forall_drop, HPreg).
    replace (length C - (length C - k)) with k by lia.
    rewrite H1, <- H2. apply firstn_skipn.
Qed.

Lemma relpath_same_path_witness :
  exists r,
    FileOperations.relpath false (posixpath.relpath "/home/u/build")
      (abspath "/home/u/build") "../src//pkg/./mod.py" = Some r /\
    r = "../src/pkg/mod.py" /\
    areSamePaths posix "/home/u/build" r "../src//pkg/./mod.py" = true.
Proof.
  destruct (relpath_same_path false "/home/u/build" "../src//pkg/./mod.py")
    as (r & Hr & _ & _ & Hs); [reflexivity|discriminate|discriminate|].
  exists r. split; [exact Hr|]. split; [|exact Hs].
  vm_compute in Hr. congruence.
Defined.

(** ** The walk and the other functions *)







(** ** The functions that do not take the lock *)

Lemma unlocked_bind {A B} (m : M A) (k : A -> M B) :
  unlocked m -> (forall a, unlocked (k a)) -> unlocked (m ≫= k).
Proof.
  intros Hm Hk w. rewrite bind_run. destruct (Hm w) as [Hs Hl].
  destruct (m w) as [[a|[c f|]| |] w1]; simpl in *; try contradiction.
  - destruct (Hk a w1) as [Hs' Hl']. split; [exact Hs'|congruence].
  - auto.
Qed.

Lemma unlocked_try {A} (m : M A) (h : exn -> M A) :
  unlocked m -> (forall e, unlocked (h e)) -> unlocked (try_OSError m h).
Proof.
  intros Hm Hh w. unfold try_OSError. destruct (Hm w) as [Hs Hl].
  destruct (m w) as [[a|[c f|]| |] w1]; simpl in *; try contradiction.
  - auto.
  - destruct (Hh (OSError c f) w1) as [Hs' Hl']. split; [exact Hs'|congruence].
Qed.

Lemma unlocked_ret {A} (a : A) : unlocked (mret a).
Proof. intros w. split; [exact I|reflexivity]. Qed.

Lemma unlocked_raise {A} c f : unlocked (raise (A:=A) (OSError c f)).
Proof. intros w. split; [exact I|reflexivity]. Qed.

Lemma unlocked_get {A} (f : World -> A) : unlocked (get f).
Proof. intros w. split; [exact I|reflexivity]. Qed.

Lemma unlocked_log c : unlocked (log c).
Proof. intros w. split; [exact I|reflexivity]. Qed.

Lemma unlocked_update_fs f : unlocked (update_fs f).
Proof. intros w. split; [exact I|reflexivity]. Qed.

Lemma unlocked_lookup_node p : unlocked (lookup_node p).
Proof.
  intros w. unfold lookup_node. destruct (fs w !! p); split;
    (exact I || reflexivity).
Qed.

Lemma unlocked_touch_busy p n : unlocked (touch_busy p n).
Proof.
  unfold touch_busy. destruct (n_busy n); [apply unlocked_ret|].
  apply unlocked_bind; [apply unlocked_update_fs|].
  intros _. apply unlocked_raise.
Qed.

Lemma unlocked_check_parent p : unlocked (check_parent p).
Proof.
  unfold check_parent. destruct (Str.is_empty _); [apply unlocked_ret|].
  intros w. destruct (fs w !! _) as [d|]; [destruct (is_dir d)|];
    split; (exact I || reflexivity).
Qed.

Create HintDb unlocked.
#[local] Hint Resolve unlocked_ret unlocked_raise unlocked_get unlocked_log
  unlocked_update_fs unlocked_lookup_node unlocked_touch_busy
  unlocked_check_parent : unlocked.

Ltac unlocked :=
  repeat first
    [ progress eauto with unlocked
    | apply unlocked_bind; [|intros ?]
    | apply unlocked_try; [|intros ?]
    | match goal with
      | |- unlocked (if ?b then _ else _) => destruct b
      | |- unlocked (match ?x with _ => _ end) => destruct x
      end ].

Lemma unlocked_os_stat p : unlocked (os_stat p).
Proof. unfold os_stat. unlocked. Qed.

Lemma unlocked_os_listdir p : unlocked (os_listdir p).
Proof. unfold os_listdir. unlocked. Qed.

Lemma unlocked_os_unlink p : unlocked (os_unlink p).
Proof. unfold os_unlink. unlocked. Qed.

Lemma unlocked_os_chmod p mode : unlocked (os_chmod p mode).
Proof. unfold os_chmod. unlocked. Qed.

Lemma unlocked_shutil_copyfile src dst : unlocked (shutil_copyfile src dst).
Proof. unfold shutil_copyfile. unlocked. Qed.

Lemma unlocked_os_rename src dst : unlocked (os_rename src dst).
Proof. unfold os_rename. unlocked. Qed.

Lemma unlocked_renameFile src dst : unlocked (renameFile src dst).
Proof.
  unfold renameFile. apply unlocked_bind; [apply unlocked_os_stat|].
  intros mode. apply unlocked_bind; [|intros _; apply unlocked_os_chmod].
  apply unlocked_try; [apply unlocked_os_rename|]. intros _.
  apply unlocked_bind; [apply unlocked_shutil_copyfile|].
  intros _. apply unlocked_os_unlink.
Qed.

Lemma unlocked_listDir path : unlocked (listDir path).
Proof.
  unfold listDir. apply unlocked_bind; [apply unlocked_os_listdir|].
  intros names. apply unlocked_ret.
Qed.

Lemma unlocked_os_walk path : unlocked (os_walk path).
Proof.
  intros w. destruct (os_walk_run path w) as (l & w' & -> & [_ Hl] & _).
  split; [exact I|exact Hl].
Qed.

(** X23. Who waits for the lock. [makePath], [deleteFile] and
    [removeDirectory] do: while it is held they block, and touch nothing.
    [renameFile], [listDir], [getFileList] and [getSubDirectories] never look
    at it: in every world, also one with the lock held, they return or raise
    [OSError] and leave the lock as it is. *)
Theorem lock_takers_and_others (w : World) :
  (file_lock w = Some true ->
   (forall path, makePath path w = (Blocked, w)) /\
   (forall path must_exist, deleteFile path must_exist w = (Blocked, w)) /\
   (forall path ignore_errors,
      removeDirectory path ignore_errors w = (Blocked, w))) /\
  (forall src dst,
     settled (renameFile src dst w).1 /\
     file_lock (renameFile src dst w).2 = file_lock w) /\
  (forall path,
     settled (listDir path w).1 /\
     file_lock (listDir path w).2 = file_lock w) /\
  (forall path,
     settled (getFileList path w).1 /\
     file_lock (getFileList path w).2 = file_lock w) /\
  (forall path,
     settled (getSubDirectories path w).1 /\
     file_lock (getSubDirectories path w).2 = file_lock w).
Proof.
  split; [apply lock_held_blocks|].
  split; [intros; apply unlocked_renameFile|].
  split; [intros; apply unlocked_listDir|].
  split; intros path.
  - apply (unlocked_bind (os_walk path)); [apply unlocked_os_walk|].
    intros; apply unlocked_ret.
  - apply (unlocked_bind (os_walk path)); [apply unlocked_os_walk|].
    intros; apply unlocked_ret.
Qed.

Lemma lock_takers_and_others_witness :
  exists w,
    file_lock w = Some true /\
    deleteFile "build/a.o" false w = (Blocked, w) /\
    (listDir "build" w).1 = Ok [].
Proof.
  exists (acquired build_world).
  destruct (lock_takers_and_others (acquired build_world)) as [H _].
  destruct (H eq_refl) as (_ & Hd & _).
  split; [reflexivity|]. split; [apply Hd|reflexivity].
Defined.

(** ** [renameFile]: what is left alone *)

Lemma same_at_bind {A B} q (m : M A) (k : A -> M B) :
  same_at q m -> (forall a, same_at q (k a)) -> same_at q (m ≫= k).
Proof.
  intros Hm Hk w. rewrite bind_run. specialize (Hm w).
  destruct (m w) as [[a| | |] w1]; simpl in *; try exact Hm.
  rewrite Hk. exact Hm.
Qed.

Lemma same_at_try {A} q (m : M A) (h : exn -> M A) :
  same_at q m -> (forall e, same_at q (h e)) -> same_at q (try_OSError m h).
Proof.
  intros Hm Hh w. unfold try_OSError. specialize (Hm w).
  destruct (m w) as [[a|[c f|]| |] w1]; simpl in *; try exact Hm.
  rewrite Hh. exact Hm.
Qed.

Lemma same_at_os_stat q p : same_at q (os_stat p).
Proof.
  intros w. rewrite os_stat_run. destruct (fs w !! p); reflexivity.
Qed.

Lemma same_at_os_unlink q p : q <> p -> same_at q (os_unlink p).
Proof. intros Hne w. apply os_unlink_others, Hne. Qed.

Lemma same_at_os_chmod q p mode : q <> p -> same_at q (os_chmod p mode).
Proof.
  intros Hne w. rewrite os_chmod_run.
  destruct (fs w !! p) as [n|]; [|reflexivity].
  destruct (n_owned n); [|reflexivity]. simpl.
  apply lookup_insert_ne. congruence.
Qed.

Lemma same_at_shutil_copyfile q src dst :
  q <> dst -> same_at q (shutil_copyfile src dst).
Proof.
  intros Hne w. unfold shutil_copyfile. rewrite bind_run. simpl.
  destruct (String.eqb src dst); [reflexivity|].
  rewrite bind_run. unfold lookup_node. simpl.
  destruct (fs w !! src) as [n|]; [|reflexivity].
  destruct (is_dir n); [reflexivity|]. rewrite bind_run. simpl.
  destruct (fs w !! dst) as [d|].
  - destruct (is_dir d); [reflexivity|]. simpl.
    apply lookup_insert_ne. congruence.
  - rewrite bind_run. unfold check_parent.
    destruct (Str.is_empty (split dst).1); simpl;
      [apply lookup_insert_ne; congruence|].
    destruct (fs w !! (split dst).1) as [d|]; [|reflexivity].
    destruct (is_dir d); [|reflexivity]. simpl.
    apply lookup_insert_ne. congruence.
Qed.

(** The entries a rename moves land below the destination. *)
Lemma rename_fs_others src dst n f q :
  under src q = false -> under dst q = false ->
  rename_fs src dst n f !! q = f !! q.
Proof.
  intros Hs Hd. unfold rename_fs.
  rewrite lookup_insert_ne by (intros ->; rewrite under_self in Hd; discriminate).
  assert (Hmoved : (list_to_map (moved src dst f) : gmap string node) !! q
                   = None).
  { apply not_elem_of_list_to_map_1. intros Hin.
    apply list_elem_of_fmap in Hin as ([k v] & Hk & Hin). simpl in Hk.
    unfold moved in Hin. apply list_elem_of_omap in Hin as ([k0 v0] & _ & H).
    simpl in H.
    destruct (Str.strip_prefix (dir_prefix src) k0) as [rest|]; [|discriminate].
    inversion H as [[Hk' Hv]]. clear H.
    unfold under in Hd. apply orb_false_iff in Hd as [_ Hd].
    rewrite Hk, <- Hk', strip_prefix_app in Hd. discriminate. }
  rewrite lookup_union_r by exact Hmoved.
  destruct (f !! q) as [x|] eqn:Eq.
  - apply map_lookup_filter_Some. split; [exact Eq|]. simpl. auto.
  - apply map_lookup_filter_None. left. exact Eq.
Qed.

Lemma same_at_os_rename q src dst :
  under src q = false -> under dst q = false -> same_at q (os_rename src dst).
Proof.
  intros Hs Hd w.
  assert (Hsrc : q <> src)
    by (intros ->; rewrite under_self in Hs; discriminate).
  destruct (os_rename src dst w) as [[[]|e| |] w'] eqn:E; simpl.
  - destruct (decide (src = dst)) as [<-|Hne].
    + apply os_rename_same in E. rewrite E. reflexivity.
    + apply os_rename_ok in E as (n & _ & _ & ->); [|exact Hne].
      apply rename_fs_others; assumption.
  - apply os_rename_raise in E as [->|(n & b & _ & ->)]; [reflexivity|].
    apply lookup_insert_ne. congruence.
  - destruct (os_rename_cases src dst w) as [(w1 & H)|(c & f & w1 & H)];
      congruence.
  - destruct (os_rename_cases src dst w) as [(w1 & H)|(c & f & w1 & H)];
      congruence.
Qed.

(** X24. [renameFile] changes nothing but the source, the destination and what
    lies below them: every other entry is as before, whatever the outcome. *)
Theorem renameFile_touches_two (src dst : string) (w : World) (q : string) :
  under src q = false -> under dst q = false ->
  fs (renameFile src dst w).2 !! q = fs w !! q.
Proof.
  intros Hs Hd.
  assert (Hsrc : q <> src)
    by (intros ->; rewrite under_self in Hs; discriminate).
  assert (Hdst : q <> dst)
    by (intros ->; rewrite under_self in Hd; discriminate).
  revert w. change (same_at q (renameFile src dst)). unfold renameFile.
  apply same_at_bind; [apply same_at_os_stat|]. intros mode.
  apply same_at_bind; [|intros _; apply same_at_os_chmod, Hdst].
  apply same_at_try; [apply same_at_os_rename; assumption|]. intros _.
  apply same_at_bind; [apply same_at_shutil_copyfile, Hdst|].
  intros _. apply same_at_os_unlink, Hsrc.
Qed.

Lemma renameFile_touches_two_witness :
  fs (renameFile "src/run.sh" "mnt/run.sh" volumes_world).2 !! "src" =
    Some new_directory.
Proof.
  rewrite (renameFile_touches_two "src/run.sh" "mnt/run.sh" volumes_world
             "src"); reflexivity.
Defined.

(** ** [makePath]: what it adds *)

Lemma under_trans a b c :
  under a b = true -> under b c = true -> under a c = true.
Proof.
  unfold under. intros Hab Hbc.
  apply orb_true_iff in Hab as [Hab|Hab];
    [apply String.eqb_eq in Hab; subst b; exact Hbc|].
  apply orb_true_iff in Hbc as [Hbc|Hbc];
    [apply String.eqb_eq in Hbc; subst c; rewrite Hab; apply orb_true_r|].
  destruct (Str.strip_prefix (dir_prefix a) b) as [r|] eqn:Eb; [|discriminate].
  destruct (Str.strip_prefix (dir_prefix b) c) as [r'|] eqn:Ec; [|discriminate].
  apply strip_prefix_Some in Eb, Ec. subst b.
  assert (Hp : exists t, dir_prefix (dir_prefix a +:+ r) = dir_prefix a +:+ t).
  { unfold dir_prefix at 1. destruct (_ || _); [eauto|].
    exists (r +:+ "/"). apply app_assoc_str. }
  destruct Hp as [t Ht]. rewrite Ht, app_assoc_str in Ec. subst c.
  rewrite strip_prefix_app. apply orb_true_r.
Qed.

Lemma all_char_endswith c s :
  s <> "" -> Str.all_char c s = true -> Str.endswith c s = true.
Proof.
  induction s as [|a s IH]; [contradiction|]. intros _ H. simpl in H.
  apply andb_true_iff in H as [Ha Hs]. simpl.
  destruct s; [exact Ha|]. apply IH; [discriminate|exact Hs].
Qed.

(** The head of a split is the path or stands above it. *)
Lemma split_under p :
  (split p).1 <> "" -> under (split p).1 p = true.
Proof.
  pose proof (posix_split_cases p) as H.
  destruct (split p) as [h t]. simpl. intros Hh.
  destruct H as (_ & [(-> & _)|[(_ & Ha & ->)|(_ & Ha & He & k & ->)]]).
  - contradiction.
  - unfold under, dir_prefix.
    rewrite (all_char_endswith _ _ Hh Ha), orb_true_r, strip_prefix_app.
    apply orb_true_r.
  - unfold under, dir_prefix. rewrite He.
    destruct h; [contradiction|]. cbn [Str.is_empty orb].
    change (Str.replicate (S k) sep +:+ t)
      with ("/" +:+ (Str.replicate k sep +:+ t)).
    rewrite <- app_assoc_str, strip_prefix_app. apply orb_true_r.
Qed.

Lemma os_mkdir_adds p w q n' :
  fs w !! q = None -> fs (os_mkdir p w).2 !! q = Some n' ->
  n' = new_directory /\ q = p.
Proof.
  intros Hq. unfold os_mkdir. rewrite bind_run. simpl. rewrite bind_run.
  unfold os_path_exists, get. simpl.
  destruct (fs w !! p) eqn:Ep; [simpl; congruence|].
  rewrite bind_run. unfold check_parent.
  assert (Hins : <[p := new_directory]> (fs w) !! q = Some n' ->
                 n' = new_directory /\ q = p).
  { intros H. apply lookup_insert_Some in H as [[-> <-]|[_ H]]; [auto|].
    congruence. }
  destruct (Str.is_empty (posixpath.split p).1); simpl; [exact Hins|].
  destruct (fs w !! (posixpath.split p).1) as [d|];
    [destruct (is_dir d)|]; simpl; (exact Hins || congruence).
Qed.

(** [os.makedirs] creates directories only, the one asked for and those
    above it. *)
Lemma makedirs_fuel_adds fuel q : forall name w n',
  fs w !! q = None -> fs (makedirs_fuel fuel name w).2 !! q = Some n' ->
  n' = new_directory /\ under q name = true.
Proof.
  induction fuel as [|fuel IH]; intros name w n' Hq; [simpl; congruence|].
  simpl. pose proof (split_under name) as Hu.
  destruct (posixpath.split name) as [head tail]. simpl in Hu.
  assert (Hmk : forall w1,
            (forall x, fs w1 !! q = Some x ->
                       x = new_directory /\ under q name = true) ->
            fs (os_mkdir name w1).2 !! q = Some n' ->
            n' = new_directory /\ under q name = true).
  { intros w1 H1 H2. destruct (fs w1 !! q) as [x|] eqn:Ex.
    - rewrite (os_mkdir_keeps name w1 q x Ex) in H2. inversion H2; subst x.
      apply H1. reflexivity.
    - destruct (os_mkdir_adds _ _ _ _ Ex H2) as [-> ->].
      split; [reflexivity|apply under_self]. }
  assert (Hrec : forall head' tail',
            (if Str.is_empty tail then posixpath.split head else (head, tail))
              = (head', tail') ->
            head' <> "" -> under head' name = true).
  { intros head' tail' E Hh. destruct (Str.is_empty tail).
    - pose proof (split_under head) as Hu'. rewrite E in Hu'. simpl in Hu'.
      apply (under_trans _ head); [apply Hu', Hh|].
      apply Hu. intros ->. simpl in E. inversion E. congruence.
    - inversion E; subst. apply Hu, Hh. }
  destruct (if Str.is_empty tail then posixpath.split head else (head, tail))
    as [head' tail'].
  specialize (Hrec head' tail' eq_refl).
  rewrite bind_run.
  change (os_path_exists head' w)
    with (Ok (match fs w !! head' with Some _ => true | None => false end), w).
  cbv iota beta.
  destruct (negb (Str.is_empty head') && negb (Str.is_empty tail') && _)
    eqn:Ec; [|apply Hmk; intros x Hx; congruence].
  assert (Hh : head' <> "") by (intros ->; discriminate).
  assert (Hw1 : forall x, fs (makedirs_fuel fuel head' w).2 !! q = Some x ->
                          x = new_directory /\ under q name = true).
  { intros x Hx. destruct (IH head' w x Hq Hx) as [-> Hunder].
    split; [reflexivity|]. apply (under_trans _ head'); [exact Hunder|].
    apply Hrec, Hh. }
  rewrite bind_run. unfold try_OSError.
  destruct (makedirs_fuel fuel head' w) as [[[]|[c f|]| |] w1];
    simpl in Hw1; try (simpl; apply Hw1).
  - destruct (String.eqb tail' "."); [apply Hw1|apply Hmk, Hw1].
  - destruct c; simpl; try apply Hw1.
    destruct (String.eqb tail' "."); [apply Hw1|apply Hmk, Hw1].
Qed.

(** X26. What [makePath] adds to the file system are directories on the way to
    [path]: an entry that was not there before is a new directory, and is
    [path] or stands above it. *)
Theorem makePath_adds_ancestors (path : string) (w : World) (q : string)
    (n' : node) :
  fs w !! q = None -> fs (makePath path w).2 !! q = Some n' ->
  n' = new_directory /\ under q path = true.
Proof.
  intros Hq. rewrite makePath_unfold.
  destruct (with_file_Lock_cases (makePath_body path) w)
    as [[_ ->]|[_ ->]]; [simpl; congruence|].
  assert (Hbody : fs (makePath_body path (acquired w)).2 !! q = Some n' ->
                  n' = new_directory /\ under q path = true).
  { rewrite makePath_body_run, fs_acquired.
    assert (Hmk : fs (os_makedirs path (acquired w)).2 !! q = Some n' ->
                  n' = new_directory /\ under q path = true).
    { apply makedirs_fuel_adds. rewrite fs_acquired. exact Hq. }
    destruct (fs w !! path) as [m|]; [destruct (is_dir m)|]; try exact Hmk.
    cbn [snd]. rewrite fs_acquired. congruence. }
  destruct (makePath_body path (acquired w)) as [[[]| | |] w1];
    simpl in Hbody; try exact Hbody.
  rewrite after_yield_fs. exact Hbody.
Qed.

Lemma makePath_adds_ancestors_witness :
  under "out/pkg" "out/pkg/data" = true /\
  fs (makePath "out/pkg/data" tree_world).2 !! "out/pkg" = Some new_directory.
Proof.
  assert (H : fs (makePath "out/pkg/data" tree_world).2 !! "out/pkg"
              = Some new_directory) by (vm_compute; reflexivity).
  destruct (makePath_adds_ancestors "out/pkg/data" tree_world "out/pkg"
              new_directory eq_refl H) as [_ Hu].
  split; [exact Hu|exact H].
Defined.
